(** * persian-fontkit: the optimization pipeline and its result cache

    A shallow embedding of [src/utils/cache.ts], [src/utils/file.ts],
    [src/utils/subsetConfig.ts], [src/validation.ts], [src/errors.ts] and
    [src/optimizer.ts], followed by the properties of the cache and of the
    pipeline that the specification states.

    Conventions of the embedding.
    - A path is the list of its segments below the working directory, so
      [path.resolve] is the identity and [path.join dir name] appends one
      segment.  The empty string (the only falsy path) is the empty list.
    - Byte counts, epoch milliseconds and CSS weights are integers ([Z]).
      The one place where the code leaves the integers, the division of
      [calculateReduction], is computed in [number], which has the
      non-finite values of a JavaScript number.
    - An [async] function is a computation in [M]: it reads and updates
      the [World] (file system, clock, the global cache instance) and
      either returns or throws.  [await] is sequencing.
    - A storage failure is a pending fault of the world: every call of
      [fs] takes the next one, and fails with its code when there is one.
    - The world keeps the trace of the calls of [fs], of the cache and of
      the subsetting engine.  No code reads it; the statements do.
    - What the sources import from outside ([crypto], [JSON],
      [subset-font], [utils/css.ts]) is a parameter of the code, the
      class [Platform].  [JSON.parse] is taken at the type the code gives
      its result, [CacheEntry]: a text that is not the JSON of an entry
      has no parse. *)

From Stdlib Require Import ZArith QArith Qabs String Ascii List.
From stdpp Require Import gmap strings list fin_maps sets pretty.

Local Open Scope string_scope.
Local Open Scope list_scope.
Local Open Scope Z_scope.

(** ** Paths *)

Definition path := list string.

Definition path_join (dir : path) (name : string) : path := dir ++ [name].

Definition path_dirname (p : path) : path := removelast p.

Definition path_basename (p : path) : string := List.last p EmptyString.

(** [path.resolve(p)] printed as a string, the text that [getCacheKey] hashes. *)
Fixpoint path_str (p : path) : string :=
  match p with
  | [] => EmptyString
  | s :: rest => "/" +:+ s +:+ path_str rest
  end.

(** ** errors.ts *)

Set Warnings "-register-all".

Inductive anyval :=
| AUndefined
| APath (p : path)
| AStr (s : string)
| ANum (z : Z)
| AStrs (l : list string).

Inductive exn :=
| ValidationError (message field : string) (value : anyval)
| UnsupportedFormatError (message format : string) (supportedFormats : list string)
| InvalidFontError (message : string) (fontPath : path) (reason : string)
| FontOptimizationError (message : string) (fontPath : path) (originalError : option exn)
| SystemError (code syscall : string) (p : path)
| SyntaxError (message : string)
| TypeError (message : string)
| EngineError (message : string).

(** [error.name] *)
Definition exn_name (e : exn) : string :=
  match e with
  | ValidationError _ _ _ => "ValidationError"
  | UnsupportedFormatError _ _ _ => "UnsupportedFormatError"
  | InvalidFontError _ _ _ => "InvalidFontError"
  | FontOptimizationError _ _ _ => "FontOptimizationError"
  | SystemError _ _ _ => "Error"
  | SyntaxError _ => "SyntaxError"
  | TypeError _ => "TypeError"
  | EngineError _ => "Error"
  end.

(** [error instanceof FontOptimizationError] *)
Definition is_FontOptimizationError (e : exn) : bool :=
  match e with
  | FontOptimizationError _ _ _ => true
  | _ => false
  end.

(** ** The world: file system, clock, global cache instance *)

Inductive Event :=
| EvFs (op : string) (p : path) (ok : bool)
| EvCacheGet (cacheDir inputPath : path)
| EvCacheSet (cacheDir inputPath : path)
| EvSubset (buffer : string) (text : list N) (targetFormat : string)
| EvConsole (level msg : string).

Record World := mkWorld {
  (** regular files and their bytes *)
  files : gmap path string;
  (** directories; the root [[]] is always one *)
  dirs : gset path;
  (** what [Date.now()] returns *)
  clock : Z;
  (** storage-layer failures still to come: every file-system call takes
      the head; [Some code] makes that call fail with [code] *)
  faults : list (option string);
  (** [globalCache] of cache.ts: the [cacheDir] of the live instance *)
  globalCache : option path;
  (** what has been done so far (ghost) *)
  trace : list Event
}.

Definition with_files (f : gmap path string) (w : World) : World :=
  mkWorld f (dirs w) (clock w) (faults w) (globalCache w) (trace w).
Definition with_dirs (d : gset path) (w : World) : World :=
  mkWorld (files w) d (clock w) (faults w) (globalCache w) (trace w).
Definition with_faults (fl : list (option string)) (w : World) : World :=
  mkWorld (files w) (dirs w) (clock w) fl (globalCache w) (trace w).
Definition with_globalCache (g : option path) (w : World) : World :=
  mkWorld (files w) (dirs w) (clock w) (faults w) g (trace w).
Definition emit (ev : Event) (w : World) : World :=
  mkWorld (files w) (dirs w) (clock w) (faults w) (globalCache w) (trace w ++ [ev]).

(** ** The monad of effectful code *)

Inductive Result (A : Type) :=
| Ok (a : A)
| Throw (e : exn).
Arguments Ok {A} a.
Arguments Throw {A} e.

Definition M (A : Type) : Type := World → Result A * World.

Definition ret {A} (a : A) : M A := fun w => (Ok a, w).

Definition throw {A} (e : exn) : M A := fun w => (Throw e, w).

Definition bind {A B} (c : M A) (k : A → M B) : M B :=
  fun w => match c w with
           | (Ok a, w') => k a w'
           | (Throw e, w') => (Throw e, w')
           end.

(** [try { body } catch (error) { handler }] *)
Definition try_catch {A} (body : M A) (handler : exn → M A) : M A :=
  fun w => match body w with
           | (Ok a, w') => (Ok a, w')
           | (Throw e, w') => handler e w'
           end.

Definition modify (f : World → World) : M unit := fun w => (Ok tt, f w).

Definition gets {A} (f : World → A) : M A := fun w => (Ok (f w), w).

Declare Scope js_scope.
Delimit Scope js_scope with js.
Notation "'let*' x ':=' c 'in' k" := (bind c (fun x => k))
  (at level 10, x name, c at level 100, k at level 200) : js_scope.
Notation "c ';;;' k" := (bind c (fun _ => k))
  (at level 100, k at level 200, right associativity) : js_scope.
Local Open Scope js_scope.

(** [for (const x of l) { acc = body(acc, x) }] *)
Fixpoint for_of {A S} (l : list A) (body : S → A → M S) (acc : S) : M S :=
  match l with
  | [] => ret acc
  | x :: rest => let* acc' := body acc x in for_of rest body acc'
  end.

(** [console.warn] and [console.error] *)
Definition console (level msg : string) : M unit := modify (emit (EvConsole level msg)).

(** [Date.now()] *)
Definition Date_now : M Z := gets clock.

(** ** File-system primitives (node's [fs]) *)

Definition is_dir (w : World) (p : path) : bool :=
  bool_decide (p = []) || bool_decide (p ∈ dirs w).

Definition is_file (w : World) (p : path) : bool :=
  negb (is_dir w p) && bool_decide (is_Some (files w !! p)).

Definition exists_node (w : World) (p : path) : bool := is_dir w p || is_file w p.

(** Every call takes the next pending fault and is recorded with its
    outcome. *)
Definition next_fault (w : World) : option string :=
  match faults w with
  | Some code :: _ => Some code
  | _ => None
  end.

Definition pop_fault (w : World) : World :=
  match faults w with
  | [] => w
  | _ :: rest => with_faults rest w
  end.

Definition fs_call {A} (op : string) (p : path) (sem : World → Result A * World) : M A :=
  fun w =>
    match next_fault w with
    | Some code => (Throw (SystemError code op p), emit (EvFs op p false) (pop_fault w))
    | None =>
        match sem (pop_fault w) with
        | (Ok a, w2) => (Ok a, emit (EvFs op p true) w2)
        | (Throw e, w2) => (Throw e, emit (EvFs op p false) w2)
        end
    end.

Definition fs_access (p : path) : M unit :=
  fs_call "access" p (fun w =>
    if exists_node w p then (Ok tt, w) else (Throw (SystemError "ENOENT" "access" p), w)).

Record Stats := mkStats { st_isFile : bool; st_size : Z }.

Definition fs_stat (p : path) : M Stats :=
  fs_call "stat" p (fun w =>
    if is_dir w p then (Ok (mkStats false 4096), w)
    else match files w !! p with
         | Some data => (Ok (mkStats true (Z.of_nat (String.length data))), w)
         | None => (Throw (SystemError "ENOENT" "stat" p), w)
         end).

Definition fs_readFile (p : path) : M string :=
  fs_call "readFile" p (fun w =>
    if is_dir w p then (Throw (SystemError "EISDIR" "read" p), w)
    else match files w !! p with
         | Some data => (Ok data, w)
         | None => (Throw (SystemError "ENOENT" "open" p), w)
         end).

Definition fs_writeFile (p : path) (data : string) : M unit :=
  fs_call "writeFile" p (fun w =>
    if is_dir w p then (Throw (SystemError "EISDIR" "open" p), w)
    else if is_dir w (path_dirname p) then (Ok tt, with_files (<[p := data]> (files w)) w)
    else if is_file w (path_dirname p) then (Throw (SystemError "ENOTDIR" "open" p), w)
    else (Throw (SystemError "ENOENT" "open" p), w)).

Definition fs_unlink (p : path) : M unit :=
  fs_call "unlink" p (fun w =>
    if is_dir w p then (Throw (SystemError "EPERM" "unlink" p), w)
    else match files w !! p with
         | Some _ => (Ok tt, with_files (delete p (files w)) w)
         | None => (Throw (SystemError "ENOENT" "unlink" p), w)
         end).

(** The entries of a directory: the last segments of the nodes whose
    parent it is. *)
Definition child_name (dir p : path) : option string :=
  match p with
  | [] => None
  | _ => if bool_decide (path_dirname p = dir) then Some (path_basename p) else None
  end.

Definition children (w : World) (dir : path) : list string :=
  omap (child_name dir) (elements (dom (files w) ∪ dirs w)).

Definition fs_readdir (p : path) : M (list string) :=
  fs_call "readdir" p (fun w =>
    if is_dir w p then (Ok (children w p), w)
    else if is_file w p then (Throw (SystemError "ENOTDIR" "scandir" p), w)
    else (Throw (SystemError "ENOENT" "scandir" p), w)).

Definition fs_rmdir (p : path) : M unit :=
  fs_call "rmdir" p (fun w =>
    if is_dir w p then
      match children w p with
      | [] => (Ok tt, with_dirs (dirs w ∖ {[p]}) w)
      | _ => (Throw (SystemError "ENOTEMPTY" "rmdir" p), w)
      end
    else if is_file w p then (Throw (SystemError "ENOTDIR" "rmdir" p), w)
    else (Throw (SystemError "ENOENT" "rmdir" p), w)).

(** [fs.mkdir(p, { recursive: true })]: creates the missing ancestors;
    fails when a regular file stands on the way. *)
Fixpoint mkdir_p (w : World) (done : path) (todo : path) : Result unit * World :=
  match todo with
  | [] => (Ok tt, w)
  | s :: rest =>
      let here := done ++ [s] in
      if is_file w here then
        (Throw (SystemError (match rest with [] => "EEXIST" | _ => "ENOTDIR" end)
                            "mkdir" (here ++ rest)), w)
      else mkdir_p (with_dirs ({[here]} ∪ dirs w) w) here rest
  end.

Definition fs_mkdir_recursive (p : path) : M unit :=
  fs_call "mkdir" p (fun w => mkdir_p w [] p).

(** ** Strings: the JavaScript string methods the code uses *)

Definition lower_ascii (c : ascii) : ascii :=
  let n := nat_of_ascii c in
  if ((65 <=? n) && (n <=? 90))%nat then ascii_of_nat (n + 32) else c.

Fixpoint toLowerCase (s : string) : string :=
  match s with
  | EmptyString => EmptyString
  | String c rest => String (lower_ascii c) (toLowerCase rest)
  end.

(** [drop_suffix s suf = Some stem] when [s = stem ++ suf]. *)
Fixpoint drop_suffix (s suf : string) : option string :=
  if String.eqb s suf then Some EmptyString
  else match s with
       | EmptyString => None
       | String c rest => option_map (String c) (drop_suffix rest suf)
       end.

Definition endsWith (s suf : string) : bool :=
  match drop_suffix s suf with Some _ => true | None => false end.

(** Splits a name at its last dot: what stands before, and the rest from
    the dot on. *)
Fixpoint last_dot (s : string) : option (string * string) :=
  match s with
  | EmptyString => None
  | String c rest =>
      match last_dot rest with
      | Some (a, b) => Some (String c a, b)
      | None => if Ascii.eqb c "." then Some (EmptyString, s) else None
      end
  end.

(** [path.extname] of one segment: from the last dot on; a leading dot
    alone (a dot file) and [".."] give no extension. *)
Definition extname_of (name : string) : string :=
  if String.eqb name ".." then EmptyString
  else match last_dot name with
       | Some (EmptyString, _) => EmptyString
       | Some (_, ext) => ext
       | None => EmptyString
       end.

Definition path_extname (p : path) : string := extname_of (path_basename p).

(** [path.basename(name, ext)] for a bare name. *)
Definition basename_ext (name ext : string) : string :=
  if String.eqb ext EmptyString then name
  else match drop_suffix name ext with
       | Some EmptyString => name
       | Some stem => stem
       | None => name
       end.

(** ** JavaScript numbers, as far as [calculateReduction] needs them

    Finite values are exact rationals: the rounding of a double is left
    out, its non-finite values are kept. *)

Inductive number :=
| Finite (q : Q)
| NaN
| PosInf
| NegInf.

Definition num_of_Z (z : Z) : number := Finite (inject_Z z).

Definition Qsign (q : Q) : comparison := (Qnum q ?= 0)%Z.

Definition num_neg (x : number) : number :=
  match x with
  | Finite q => Finite (- q)
  | NaN => NaN
  | PosInf => NegInf
  | NegInf => PosInf
  end.

Definition num_add (x y : number) : number :=
  match x, y with
  | NaN, _ | _, NaN => NaN
  | PosInf, NegInf | NegInf, PosInf => NaN
  | PosInf, _ | _, PosInf => PosInf
  | NegInf, _ | _, NegInf => NegInf
  | Finite a, Finite b => Finite (a + b)
  end.

Definition num_sub (x y : number) : number := num_add x (num_neg y).

Definition inf_of_sign (c : comparison) : number :=
  match c with Gt => PosInf | Lt => NegInf | Eq => NaN end.

Definition num_sign (x : number) : option comparison :=
  match x with
  | Finite q => Some (Qsign q)
  | PosInf => Some Gt
  | NegInf => Some Lt
  | NaN => None
  end.

Definition sign_mul (a b : comparison) : comparison :=
  match a, b with
  | Eq, _ | _, Eq => Eq
  | Gt, Gt | Lt, Lt => Gt
  | _, _ => Lt
  end.

Definition num_mul (x y : number) : number :=
  match x, y with
  | Finite a, Finite b => Finite (a * b)
  | _, _ =>
      match num_sign x, num_sign y with
      | Some a, Some b => inf_of_sign (sign_mul a b)
      | _, _ => NaN
      end
  end.

(** [x / y]: [0 / 0] is [NaN], any other finite value over zero is an
    infinity. *)
Definition num_div (x y : number) : number :=
  match x, y with
  | NaN, _ | _, NaN => NaN
  | Finite a, Finite b =>
      match Qsign b with
      | Eq => inf_of_sign (Qsign a)
      | _ => Finite (a / b)
      end
  | Finite _, _ => Finite 0
  | _, Finite b =>
      match num_sign x with
      | Some a => inf_of_sign (sign_mul a (match Qsign b with Eq => Gt | c => c end))
      | None => NaN
      end
  | _, _ => NaN
  end.

Definition Qfloor_Z (q : Q) : Z := (Qnum q / Z.pos (Qden q))%Z.

(** [Number.prototype.toFixed(digits)] of a finite value: the integer [n]
    nearest to [|x| * 10^digits], the larger one on a tie, printed with
    [digits] decimals.  (From 1e21 on JavaScript switches to exponent
    notation; byte counts stay far below.) *)
Definition toFixed_digits (digits : nat) (q : Q) : string :=
  let scale := (10 ^ Z.of_nat digits)%Z in
  let a := Qabs q in
  let n := Qfloor_Z (a * inject_Z scale + (1 # 2)) in
  let whole := pretty (n / scale)%Z in
  let frac := pretty (n mod scale)%Z in
  let pad := String.concat EmptyString (List.repeat "0" (digits - String.length frac)) in
  (match Qsign q with Lt => "-" | _ => EmptyString end)
  +:+ whole +:+ (match digits with O => EmptyString | _ => "." +:+ pad +:+ frac end).


(** The number of a [toFixed] text printed back ([parseFloat] inside a
    template string): the zeros that end the fraction are dropped. *)
Fixpoint trim_zeros_rev (s : list ascii) : list ascii :=
  match s with
  | c :: rest =>
      if Ascii.eqb c "0" then trim_zeros_rev rest
      else if Ascii.eqb c "." then rest
      else s
  | [] => []
  end.

Definition print_decimal (s : string) : string :=
  if existsb (Ascii.eqb ".") (list_ascii_of_string s)
  then string_of_list_ascii (rev (trim_zeros_rev (rev (list_ascii_of_string s))))
  else s.

(** ** The data model (optimizer.ts, utils/file.ts, utils/cache.ts, utils/css.ts) *)

Record FontFileMetadata := mkFontFileMetadata {
  fm_path : path;
  fm_name : string;
  fm_extension : string;
  fm_size : Z;
  fm_sizeFormatted : string
}.

Record OptimizationResult := mkOptimizationResult {
  original : FontFileMetadata;
  optimized : FontFileMetadata;
  reduction : string;
  css : string;
  fontFamily : string;
  fontWeight : Z
}.

Record CacheEntryResult := mkCacheEntryResult {
  originalSize : Z;
  optimizedSize : Z;
  ce_reduction : string;
  ce_fontFamily : string;
  ce_fontWeight : Z;
  outputPath : path;
  cssContent : string
}.

Record CacheEntry := mkCacheEntry {
  inputHash : string;
  timestamp : Z;
  version : string;
  result : CacheEntryResult
}.

Record FontFaceOptions := mkFontFaceOptions {
  ff_fontFamily : string;
  ff_fontPath : string;
  ff_fontWeight : option Z;
  ff_fontStyle : option string;
  ff_fontDisplay : option string
}.

Record OptimizationOptions := mkOptimizationOptions {
  inputPath : path;
  outputDir : path;
  o_fontFamily : option string;
  o_fontWeight : option Z;
  o_fontStyle : option string;
  subsets : option (list string);
  format : option string;
  fontDisplay : option string;
  useHash : option bool;
  cache : option bool;
  cacheDir : option path
}.

(** The scalar fields of a result: what the cache keeps of it. *)
Definition scalars (r : OptimizationResult) : Z * Z * string * string * string * Z :=
  (fm_size (original r), fm_size (optimized r), reduction r, css r, fontFamily r, fontWeight r).

(** ** What the code takes from outside the repository sources

    [crypto]'s MD5, [JSON], the [subset-font] engine, the two functions of
    [utils/css.ts], and the messages of the platform. *)

Class Platform := {
  (** [createHash("md5").update(data).digest("hex")] *)
  md5hex : string → string;
  (** [JSON.stringify(entry, null, 2)] *)
  JSON_stringify : CacheEntry → string;
  (** [JSON.parse(data)] as a [CacheEntry]; [None] when it throws *)
  JSON_parse : string → option CacheEntry;
  (** [subsetFont(buffer, text, { targetFormat })]: the subset bytes, or
      the message of the error it throws *)
  subsetFont : string → list N → string → string + string;
  (** [generateFontFace] of utils/css.ts *)
  generateFontFace : FontFaceOptions → string;
  (** [generateCSSFile] of utils/css.ts *)
  generateCSSFile : list FontFaceOptions → list string → string;
  (** the text of a system error code *)
  strerror : string → string
}.

Section Code.
Context {P : Platform}.

(** [(error as Error).message] *)
Definition exn_message (e : exn) : string :=
  match e with
  | ValidationError m _ _ => m
  | UnsupportedFormatError m _ _ => m
  | InvalidFontError m _ _ => m
  | FontOptimizationError m _ _ => m
  | SystemError code syscall p =>
      code +:+ ": " +:+ strerror code +:+ ", " +:+ syscall +:+ " '" +:+ path_str p +:+ "'"
  | SyntaxError m => m
  | TypeError m => m
  | EngineError m => m
  end.

(** [error.code] *)
Definition exn_code (e : exn) : option string :=
  match e with
  | SystemError code _ _ => Some code
  | ValidationError _ _ _ => Some "VALIDATION_ERROR"
  | UnsupportedFormatError _ _ _ => Some "UNSUPPORTED_FORMAT_ERROR"
  | InvalidFontError _ _ _ => Some "INVALID_FONT_ERROR"
  | FontOptimizationError _ _ _ => Some "FONT_OPTIMIZATION_ERROR"
  | _ => None
  end.

(** ** utils/file.ts *)

Definition fileExists (filePath : path) : M bool :=
  try_catch (fs_access filePath ;;; ret true) (fun _ => ret false).

Definition ensureDir (dirPath : path) : M unit :=
  try_catch (fs_mkdir_recursive dirPath)
    (fun error => if bool_decide (exn_code error ≠ Some "EEXIST") then throw error else ret tt).

Definition readFileBuffer (filePath : path) : M string := fs_readFile filePath.

Definition writeFileBuffer (filePath : path) (buffer : string) : M unit :=
  ensureDir (path_dirname filePath) ;;;
  fs_writeFile filePath buffer.

Definition generateHash (content : string) (length : nat) : string :=
  String.substring 0 length (md5hex content).

Definition generateOptimizedFilename (originalName hash extension : string) : string :=
  let baseName := basename_ext originalName (extname_of originalName) in
  baseName +:+ "-" +:+ hash +:+ extension.

Definition sizes : list string := ["B"; "KB"; "MB"; "GB"].

(** [formatFileSize]: with [i = floor (log bytes / log 1024)], the value
    [bytes / 1024^i] to two decimals and the unit [sizes[i]].  A negative
    size has no logarithm. *)
Definition formatFileSize (bytes : Z) : string :=
  if bytes =? 0 then "0 B"
  else if bytes <? 0 then "NaN undefined"
  else
    let i := Z.log2 bytes / 10 in
    print_decimal (toFixed_digits 2 (bytes # Z.to_pos (1024 ^ i)))
    +:+ " " +:+ default "undefined" (sizes !! Z.to_nat i).

Definition toFixed (digits : nat) (x : number) : string :=
  match x with
  | NaN => "NaN"
  | PosInf => "Infinity"
  | NegInf => "-Infinity"
  | Finite q => toFixed_digits digits q
  end.

Definition calculateReduction (original optimized : Z) : string :=
  let reduction :=
    num_mul (num_div (num_sub (num_of_Z original) (num_of_Z optimized)) (num_of_Z original))
            (num_of_Z 100) in
  toFixed 1 reduction.

Definition getFontMetadata (filePath : path) : M FontFileMetadata :=
  let* stats := fs_stat filePath in
  let name := path_basename filePath in
  let extension := path_extname filePath in
  ret (mkFontFileMetadata filePath name extension (st_size stats) (formatFileSize (st_size stats))).

(** ** utils/subsetConfig.ts *)

Record SubsetConfig := mkSubsetConfig {
  sc_name : string;
  unicodeRanges : list string;
  description : string
}.

Definition SUBSET_CONFIGS : list (string * SubsetConfig) :=
  [ ("farsi", mkSubsetConfig "farsi"
       ["U+0600-06FF"; "U+0750-077F"; "U+FB50-FDFF"; "U+FE70-FEFF";
        "U+200C-200E"; "U+2010-2019"; "U+00AB"; "U+00BB"]
       "Persian and Arabic characters");
    ("latin", mkSubsetConfig "latin"
       ["U+0020-007E"; "U+00A0-00FF"]
       "Basic Latin characters");
    ("numbers", mkSubsetConfig "numbers"
       ["U+0030-0039"; "U+06F0-06F9"; "U+0660-0669"]
       "Latin and Persian numbers");
    ("punctuation", mkSubsetConfig "punctuation"
       ["U+0020-002F"; "U+003A-0040"; "U+005B-0060"; "U+007B-007E";
        "U+060C"; "U+061B"; "U+061F"]
       "Punctuation marks") ].

(** [SUBSET_CONFIGS] is an object literal: a name it does not define is
    still found when [Object.prototype] defines it, and what is found
    there is truthy and has no [unicodeRanges]. *)
Definition Object_prototype_keys : list string :=
  ["constructor"; "__defineGetter__"; "__defineSetter__"; "hasOwnProperty";
   "__lookupGetter__"; "__lookupSetter__"; "isPrototypeOf"; "propertyIsEnumerable";
   "toString"; "valueOf"; "__proto__"; "toLocaleString"].

Inductive config_lookup :=
| OwnConfig (c : SubsetConfig)
| Inherited
| Undefined.

Fixpoint assoc {A} (k : string) (l : list (string * A)) : option A :=
  match l with
  | [] => None
  | (k', v) :: rest => if String.eqb k k' then Some v else assoc k rest
  end.

Definition SUBSET_CONFIGS_get (subset : string) : config_lookup :=
  match assoc subset SUBSET_CONFIGS with
  | Some c => OwnConfig c
  | None => if existsb (String.eqb subset) Object_prototype_keys then Inherited else Undefined
  end.

Definition hex_value (c : ascii) : option N :=
  let n := N_of_ascii c in
  if ((48 <=? n) && (n <=? 57))%N then Some (n - 48)%N
  else if ((65 <=? n) && (n <=? 70))%N then Some (n - 55)%N
  else None.

(** The longest run of [[0-9A-F]] a text starts with, and what follows. *)
Fixpoint take_hex (s : string) : string * string :=
  match s with
  | EmptyString => (EmptyString, EmptyString)
  | String c rest =>
      match hex_value c with
      | Some _ => let (h, r) := take_hex rest in (String c h, r)
      | None => (EmptyString, s)
      end
  end.

(** [/U\+([0-9A-F]+)(?:-([0-9A-F]+))?/] tried where the text starts *)
Definition range_match_here (s : string) : option (string * option string) :=
  match s with
  | String "U" (String "+" r) =>
      let (h1, r1) := take_hex r in
      if String.eqb h1 EmptyString then None
      else match r1 with
           | String "-" r2 =>
               let (h2, _) := take_hex r2 in
               if String.eqb h2 EmptyString then Some (h1, None) else Some (h1, Some h2)
           | _ => Some (h1, None)
           end
  | _ => None
  end.

(** [range.match(...)]: the first place of the text where it matches *)
Fixpoint range_match (s : string) : option (string * option string) :=
  match range_match_here s with
  | Some m => Some m
  | None => match s with
            | EmptyString => None
            | String _ rest => range_match rest
            end
  end.

(** [parseInt(h, 16)] of a run of hexadecimal digits *)
Definition parseInt16 (h : string) : N :=
  fold_left (fun acc c => (16 * acc + default 0 (hex_value c))%N) (list_ascii_of_string h) 0%N.

(** [for (let code = start; code <= end; code++)] *)
Definition code_points (start end_ : N) : list N :=
  map (fun k => (start + N.of_nat k)%N) (seq 0 (N.to_nat (N.succ end_ - start))).

Definition range_characters (range : string) : list N :=
  match range_match range with
  | Some (m1, m2) =>
      let start := parseInt16 m1 in
      let end_ := match m2 with Some h => parseInt16 h | None => start end in
      code_points start end_
  | None => []
  end.

(** The characters are code points; [String.fromCodePoint] makes a
    non-empty string of each. *)
Fixpoint getSubsetCharacters_from (characters : list N) (subsets : list string)
  : Result (list N) :=
  match subsets with
  | [] => Ok characters
  | subset :: rest =>
      match SUBSET_CONFIGS_get subset with
      | OwnConfig config =>
          getSubsetCharacters_from
            (characters ++ concat (map range_characters (unicodeRanges config))) rest
      | Inherited => Throw (TypeError "config.unicodeRanges is not iterable")
      | Undefined => getSubsetCharacters_from characters rest
      end
  end.

Definition getSubsetCharacters (subsets : list string) : Result (list N) :=
  getSubsetCharacters_from [] subsets.

Definition DEFAULT_SUBSETS : list string := ["farsi"; "latin"; "numbers"; "punctuation"].

(** A pure function that may throw, called from effectful code. *)
Definition lift {A} (r : Result A) : M A := fun w => (r, w).

(** ** validation.ts *)

Definition SUPPORTED_FORMATS : list string := [".ttf"; ".otf"; ".woff"; ".woff2"].

Definition SUPPORTED_OUTPUT_FORMATS : list string := ["woff2"; "woff"; "ttf"].

Definition MAX_RECOMMENDED_SIZE : Z := 10 * 1024 * 1024.

Definition includes (l : list string) (s : string) : bool := existsb (String.eqb s) l.

(** [fs.existsSync]: never throws *)
Definition fs_existsSync (p : path) : M bool :=
  try_catch (fs_access p ;;; ret true) (fun _ => ret false).

Definition quoted (s : string) : string :=
  let q := String (ascii_of_nat 34) EmptyString in q +:+ s +:+ q.

(** A string is falsy when it is empty. *)
Definition truthy_str (s : option string) : bool :=
  match s with
  | Some s => negb (String.eqb s EmptyString)
  | None => false
  end.

(** The checks of [validateOptimizationOptions] that come after the
    checks of the input file: output directory, format, weight, style,
    display, subsets. *)
Definition validateOptimizationOptions_fields (options : OptimizationOptions) : M unit :=
  if bool_decide (outputDir options = []) then
    throw (ValidationError "Output directory is required" "outputDir" (APath (outputDir options)))
  else
  if truthy_str (format options)
     && negb (includes SUPPORTED_OUTPUT_FORMATS (default EmptyString (format options))) then
    throw (UnsupportedFormatError
             ("Unsupported output format: " +:+ default EmptyString (format options))
             (default EmptyString (format options)) SUPPORTED_OUTPUT_FORMATS)
  else
  match o_fontWeight options with
  | Some weight =>
      if (weight <? 100) || (weight >? 900) then
        throw (ValidationError
                 ("Font weight must be between 100 and 900, got: " +:+ pretty weight)
                 "fontWeight" (ANum weight))
      else ret tt
  | None => ret tt
  end ;;;
  if truthy_str (o_fontStyle options)
     && negb (includes ["normal"; "italic"] (default EmptyString (o_fontStyle options))) then
    throw (ValidationError
             ("Font style must be " +:+ quoted "normal" +:+ " or " +:+ quoted "italic"
              +:+ ", got: " +:+ default EmptyString (o_fontStyle options))
             "fontStyle" (AStr (default EmptyString (o_fontStyle options))))
  else
  let validDisplayValues := ["auto"; "block"; "swap"; "fallback"; "optional"] in
  if truthy_str (fontDisplay options)
     && negb (includes validDisplayValues (default EmptyString (fontDisplay options))) then
    throw (ValidationError
             ("Font display must be one of: " +:+ String.concat ", " validDisplayValues)
             "fontDisplay" (AStr (default EmptyString (fontDisplay options))))
  else
  (* [subsets] is a list by its type: [Array.isArray] holds *)
  ret tt.

Definition validateOptimizationOptions (options : OptimizationOptions) : M unit :=
  if bool_decide (inputPath options = []) then
    throw (ValidationError "Input path is required" "inputPath" (APath (inputPath options)))
  else
  let* found := fs_existsSync (inputPath options) in
  if negb found then
    throw (ValidationError ("Font file not found: " +:+ path_str (inputPath options))
             "inputPath" (APath (inputPath options)))
  else
  let ext := toLowerCase (path_extname (inputPath options)) in
  if negb (includes SUPPORTED_FORMATS ext) then
    throw (UnsupportedFormatError ("Unsupported font format: " +:+ ext) ext SUPPORTED_FORMATS)
  else
  let* stats := fs_stat (inputPath options) in
  if negb (st_isFile stats) then
    throw (ValidationError ("Input path is not a file: " +:+ path_str (inputPath options))
             "inputPath" (APath (inputPath options)))
  else
  if st_size stats =? 0 then
    throw (InvalidFontError ("Font file is empty: " +:+ path_str (inputPath options))
             (inputPath options) "File size is 0 bytes")
  else
  (if st_size stats >? MAX_RECOMMENDED_SIZE then
     console "warn" ("⚠️  Warning: Large font file detected (" +:+ formatFileSize (st_size stats)
                     +:+ "). This may take a while to optimize.")
   else ret tt) ;;;
  validateOptimizationOptions_fields options.

(** [buffer[i] === code]; past the end [buffer[i]] is [undefined] *)
Definition byte_is (buffer : string) (i : nat) (code : nat) : bool :=
  match String.get i buffer with
  | Some c => Nat.eqb (nat_of_ascii c) code
  | None => false
  end.

Definition signature_is (buffer : string) (b0 b1 b2 b3 : nat) : bool :=
  byte_is buffer 0 b0 && byte_is buffer 1 b1 && byte_is buffer 2 b2 && byte_is buffer 3 b3.

Definition validateFontFile (filePath : path) : M unit :=
  let* buffer := fs_readFile filePath in
  let ext := toLowerCase (path_extname filePath) in
  if String.eqb ext ".ttf" then
    if negb (signature_is buffer 0 1 0 0 || signature_is buffer 116 114 117 101) then
      throw (InvalidFontError ("Invalid TTF file signature: " +:+ path_str filePath) filePath
               "File does not start with expected TTF header")
    else ret tt
  else if String.eqb ext ".otf" then
    if negb (signature_is buffer 79 84 84 79) then
      throw (InvalidFontError ("Invalid OTF file signature: " +:+ path_str filePath) filePath
               "File does not start with 'OTTO' header")
    else ret tt
  else if String.eqb ext ".woff" then
    if negb (signature_is buffer 119 79 70 70) then
      throw (InvalidFontError ("Invalid WOFF file signature: " +:+ path_str filePath) filePath
               "File does not start with 'wOFF' header")
    else ret tt
  else if String.eqb ext ".woff2" then
    if negb (signature_is buffer 119 79 70 50) then
      throw (InvalidFontError ("Invalid WOFF2 file signature: " +:+ path_str filePath) filePath
               "File does not start with 'wOF2' header")
    else ret tt
  else ret tt.

(** ** utils/cache.ts: class FontCache

    An instance is its [cacheDir]; it is the first argument, [this]. *)

Definition cacheVersion : string := "1.0.0".

Definition default_cacheDir : path := [".persian-fontkit-cache"].

Definition getCacheKey (filePath : path) : string :=
  let absolutePath := path_str filePath in
  md5hex absolutePath.

Definition cachePath_of (this inputPath : path) : path :=
  path_join this (getCacheKey inputPath +:+ ".json").

Definition getFileHash (filePath : path) : M string :=
  let* buffer := fs_readFile filePath in
  ret (md5hex buffer).

Definition JSON_parse_entry (data : string) : M CacheEntry :=
  match JSON_parse data with
  | Some entry => ret entry
  | None => throw (SyntaxError "Unexpected token in JSON")
  end.

Definition entryToResult (entry : CacheEntry) (inputPath : path) : M OptimizationResult :=
  let* inputStats := fs_stat inputPath in
  let* outputStats := fs_stat (outputPath (result entry)) in
  ret {| original :=
           {| fm_path := inputPath;
              fm_name := path_basename inputPath;
              fm_extension := path_extname inputPath;
              fm_size := originalSize (result entry);
              fm_sizeFormatted := formatFileSize (originalSize (result entry)) |};
         optimized :=
           {| fm_path := outputPath (result entry);
              fm_name := path_basename (outputPath (result entry));
              fm_extension := path_extname (outputPath (result entry));
              fm_size := optimizedSize (result entry);
              fm_sizeFormatted := formatFileSize (optimizedSize (result entry)) |};
         reduction := ce_reduction (result entry);
         css := cssContent (result entry);
         fontFamily := ce_fontFamily (result entry);
         fontWeight := ce_fontWeight (result entry) |}.

Definition FontCache_delete (this inputPath : path) : M unit :=
  try_catch
    (let cachePath := cachePath_of this inputPath in
     let* found := fileExists cachePath in
     if found then fs_unlink cachePath else ret tt)
    (fun _ => ret tt).

Definition FontCache_get (this inputPath : path) : M (option OptimizationResult) :=
  try_catch
    (modify (emit (EvCacheGet this inputPath)) ;;;
     let cachePath := cachePath_of this inputPath in
     let* found := fileExists cachePath in
     if negb found then ret None else
     let* data := fs_readFile cachePath in
     let* entry := JSON_parse_entry data in
     if negb (String.eqb (version entry) cacheVersion) then
       FontCache_delete this inputPath ;;; ret None
     else
     let* currentHash := getFileHash inputPath in
     if negb (String.eqb (inputHash entry) currentHash) then
       FontCache_delete this inputPath ;;; ret None
     else
     let* artifact := fileExists (outputPath (result entry)) in
     if negb artifact then
       FontCache_delete this inputPath ;;; ret None
     else
     let* r := entryToResult entry inputPath in
     ret (Some r))
    (fun _ => ret None).

Definition FontCache_set (this inputPath : path) (r : OptimizationResult) : M unit :=
  try_catch
    (modify (emit (EvCacheSet this inputPath)) ;;;
     ensureDir this ;;;
     let cachePath := cachePath_of this inputPath in
     let* hash := getFileHash inputPath in
     let* now := Date_now in
     let entry :=
       {| inputHash := hash;
          timestamp := now;
          version := cacheVersion;
          result :=
            {| originalSize := fm_size (original r);
               optimizedSize := fm_size (optimized r);
               ce_reduction := reduction r;
               ce_fontFamily := fontFamily r;
               ce_fontWeight := fontWeight r;
               outputPath := fm_path (optimized r);
               cssContent := css r |} |} in
     fs_writeFile cachePath (JSON_stringify entry))
    (fun error => console "warn" ("Failed to write cache: " +:+ exn_message error)).

(** [Promise.all(files.map(file => fs.unlink(...).catch(() => {})))] *)
Definition unlink_all (this : path) (names : list string) : M unit :=
  for_of names
    (fun _ file => try_catch (fs_unlink (path_join this file)) (fun _ => ret tt)) tt.

Definition FontCache_clear (this : path) : M unit :=
  try_catch
    (let* found := fileExists this in
     if found then
       let* names := fs_readdir this in
       unlink_all this names ;;;
       try_catch (fs_rmdir this) (fun _ => ret tt)
     else ret tt)
    (fun error => console "warn" ("Failed to clear cache: " +:+ exn_message error)).






Definition default_maxAgeMs : Z := 7 * 24 * 60 * 60 * 1000.



(** [new FontCache(cacheDir)]: the default applies to a missing argument *)
Definition new_FontCache (cacheDir : option path) : path := default default_cacheDir cacheDir.

Definition truthy_path (p : option path) : bool :=
  match p with
  | Some p => negb (bool_decide (p = []))
  | None => false
  end.

Definition getGlobalCache (cacheDir : option path) : M path :=
  fun w =>
    match globalCache w with
    | Some this =>
        if truthy_path cacheDir && negb (bool_decide (Some this = cacheDir)) then
          let this' := new_FontCache cacheDir in
          (Ok this', with_globalCache (Some this') w)
        else (Ok this, w)
    | None =>
        let this' := new_FontCache cacheDir in
        (Ok this', with_globalCache (Some this') w)
    end.

Definition disableCache : M unit := modify (with_globalCache None).

(** ** optimizer.ts *)

Definition is_validation_error (error : exn) : bool :=
  String.eqb (exn_name error) "ValidationError"
  || String.eqb (exn_name error) "UnsupportedFormatError"
  || String.eqb (exn_name error) "InvalidFontError".

(** The call of the subsetting engine *)
Definition call_subsetFont (buffer : string) (text : list N) (targetFormat : string) : M string :=
  modify (emit (EvSubset buffer text targetFormat)) ;;;
  match subsetFont buffer text targetFormat with
  | inl subsetBuffer => ret subsetBuffer
  | inr message => throw (EngineError message)
  end.

(** The part of [optimizeFont] that runs on a cache miss (its second
    [try] block). *)
Definition optimizeFont_miss (options : OptimizationOptions) : M OptimizationResult :=
  let inputPath := inputPath options in
  let outputDir := outputDir options in
  let fontFamily := o_fontFamily options in
  let fontWeight := default 400 (o_fontWeight options) in
  let fontStyle := default "normal" (o_fontStyle options) in
  let subsets := default DEFAULT_SUBSETS (subsets options) in
  let format := default "woff2" (format options) in
  let fontDisplay := default "swap" (fontDisplay options) in
  let useHash := default true (useHash options) in
  let cache := default true (cache options) in
  let cacheDir := cacheDir options in
  try_catch
    (let* originalMeta := getFontMetadata inputPath in
     let family :=
       if truthy_str fontFamily then default EmptyString fontFamily
       else basename_ext (path_basename inputPath) (path_extname inputPath) in
     let* fontBuffer := readFileBuffer inputPath in
     if Nat.eqb (String.length fontBuffer) 0 then
       throw (FontOptimizationError "Font file is empty or could not be read" inputPath None)
     else
     let* characters := lift (getSubsetCharacters subsets) in
     let text := characters in
     if Nat.eqb (length text) 0 then
       throw (FontOptimizationError "No characters to subset. Check subset configuration."
                inputPath None)
     else
     let* subsetBuffer :=
       try_catch
         (let targetFormat := if String.eqb format "ttf" then "truetype" else format in
          call_subsetFont fontBuffer text targetFormat)
         (fun error =>
            throw (FontOptimizationError ("Failed to subset font: " +:+ exn_message error)
                     inputPath (Some error))) in
     if Nat.eqb (String.length subsetBuffer) 0 then
       throw (FontOptimizationError "Font subsetting produced empty result" inputPath None)
     else
     let hash := if useHash then generateHash subsetBuffer 8 else EmptyString in
     let outputFilename :=
       if useHash then generateOptimizedFilename (fm_name originalMeta) hash ("." +:+ format)
       else basename_ext (fm_name originalMeta) (extname_of (fm_name originalMeta))
            +:+ "." +:+ format in
     let outputPath := path_join outputDir outputFilename in
     writeFileBuffer outputPath subsetBuffer ;;;
     let* optimizedMeta := getFontMetadata outputPath in
     let reduction := calculateReduction (fm_size originalMeta) (fm_size optimizedMeta) in
     let fontFaceOptions :=
       {| ff_fontFamily := family;
          ff_fontPath := "./" +:+ outputFilename;
          ff_fontWeight := Some fontWeight;
          ff_fontStyle := Some fontStyle;
          ff_fontDisplay := Some fontDisplay |} in
     let css := generateFontFace fontFaceOptions in
     let result :=
       {| original := originalMeta;
          optimized := optimizedMeta;
          reduction := reduction;
          css := css;
          fontFamily := family;
          fontWeight := fontWeight |} in
     (if cache then
        let* fontCache := getGlobalCache cacheDir in
        FontCache_set fontCache inputPath result
      else ret tt) ;;;
     ret result)
    (fun error =>
       if is_FontOptimizationError error then throw error
       else throw (FontOptimizationError ("Font optimization failed: " +:+ exn_message error)
                     inputPath (Some error))).

(** The validation block of [optimizeFont] (its first [try] block). *)
Definition optimizeFont_validate (options : OptimizationOptions) : M unit :=
  try_catch
    (validateOptimizationOptions options ;;;
     validateFontFile (inputPath options))
    (fun error =>
       if is_validation_error error then throw error
       else throw (FontOptimizationError ("Validation failed: " +:+ exn_message error)
                     (inputPath options) (Some error))).

(** The cache lookup of [optimizeFont] *)
Definition optimizeFont_lookup (options : OptimizationOptions) : M (option OptimizationResult) :=
  if default true (cache options) then
    let* fontCache := getGlobalCache (cacheDir options) in
    FontCache_get fontCache (inputPath options)
  else ret None.

Definition optimizeFont (options : OptimizationOptions) : M OptimizationResult :=
  optimizeFont_validate options ;;;
  let* cached := optimizeFont_lookup options in
  match cached with
  | Some cached => ret cached
  | None => optimizeFont_miss options
  end.

Definition calculateAverageReduction (results : list OptimizationResult) : string :=
  let totalOriginal := fold_left (fun sum r => sum + fm_size (original r)) results 0 in
  let totalOptimized := fold_left (fun sum r => sum + fm_size (optimized r)) results 0 in
  calculateReduction totalOriginal totalOptimized.

(** The two lines of the header comment *)
Definition header_comments (results : list OptimizationResult) : list string :=
  [ "Total fonts: " +:+ pretty (length results);
    "Average size reduction: " +:+ calculateAverageReduction results +:+ "%" ].

Definition generateOptimizedCSS (results : list OptimizationResult) (outputPath : path)
  : M unit :=
  let fontFaces :=
    map (fun r =>
           {| ff_fontFamily := fontFamily r;
              ff_fontPath := "./" +:+ path_basename (fm_path (optimized r));
              ff_fontWeight := Some (fontWeight r);
              ff_fontStyle := None;
              ff_fontDisplay := Some "swap" |}) results in
  let comments := header_comments results in
  let css := generateCSSFile fontFaces comments in
  writeFileBuffer outputPath css.

End Code.


(** ** More of the code: the functions around the pipeline

    The rest of [utils/file.ts], [validation.ts] and [optimizer.ts]: the
    directory scan, the directory check, the batch, and the two parsers of
    a file name. *)

(** [new Error(message)]: a plain error, as the ones of the engine. *)
Definition PlainError (message : string) : exn := EngineError message.

(** [s.includes(key)]: [key] stands somewhere in [s]. *)
Fixpoint str_includes (s key : string) : bool :=
  String.prefix key s
  || match s with
     | EmptyString => false
     | String _ rest => str_includes rest key
     end.

(** [fs.readdir(p, { withFileTypes: true })]: the entries with their
    names and what [isFile()] answers. *)
Definition fs_readdir_withFileTypes (p : path) : M (list (string * bool)) :=
  fs_call "readdir" p (fun w =>
    if is_dir w p then
      (Ok (map (fun name => (name, is_file w (path_join p name))) (children w p)), w)
    else if is_file w p then (Throw (SystemError "ENOTDIR" "scandir" p), w)
    else (Throw (SystemError "ENOENT" "scandir" p), w)).

Section MoreCode.
Context {P : Platform}.

(** *** utils/file.ts *)

Definition getFontFiles (dirPath : path) : M (list path) :=
  let* found := fileExists dirPath in
  if negb found then throw (PlainError ("Directory not found: " +:+ path_str dirPath))
  else
  let* entries := fs_readdir_withFileTypes dirPath in
  let fontFiles :=
    fold_left
      (fun fontFiles (entry : string * bool) =>
         let (name, isFile) := entry in
         if isFile then
           let ext := toLowerCase (extname_of name) in
           if includes [".ttf"; ".otf"; ".woff"; ".woff2"] ext
           then fontFiles ++ [path_join dirPath name]
           else fontFiles
         else fontFiles)
      entries [] in
  ret fontFiles.

(** *** validation.ts *)

Definition validateDirectory (dirPath : path) : M unit :=
  if bool_decide (dirPath = []) then
    throw (ValidationError "Directory path is required" "dirPath" (APath dirPath))
  else
  let* found := fs_existsSync dirPath in
  if found then
    let* stats := fs_stat dirPath in
    (* [isDirectory()]: the world has regular files and directories only *)
    if st_isFile stats then
      throw (ValidationError ("Path exists but is not a directory: " +:+ path_str dirPath)
               "dirPath" (APath dirPath))
    else ret tt
  else ret tt.

(** *** optimizer.ts *)

(** [Partial<OptimizationOptions>]: every field may be left out. *)
Record PartialOptions := mkPartialOptions {
  p_inputPath : option path;
  p_outputDir : option path;
  p_fontFamily : option string;
  p_fontWeight : option Z;
  p_fontStyle : option string;
  p_subsets : option (list string);
  p_format : option string;
  p_fontDisplay : option string;
  p_useHash : option bool;
  p_cache : option bool;
  p_cacheDir : option path
}.

(** [{ inputPath, outputDir, ...options }]: a field that [options] has
    comes last and wins. *)
Definition spread_options (inputPath outputDir : path) (options : PartialOptions)
  : OptimizationOptions :=
  {| inputPath := default inputPath (p_inputPath options);
     outputDir := default outputDir (p_outputDir options);
     o_fontFamily := p_fontFamily options;
     o_fontWeight := p_fontWeight options;
     o_fontStyle := p_fontStyle options;
     subsets := p_subsets options;
     format := p_format options;
     fontDisplay := p_fontDisplay options;
     useHash := p_useHash options;
     cache := p_cache options;
     cacheDir := p_cacheDir options |}.

Definition optimizeFonts_step (outputDir : path) (options : PartialOptions)
    (results : list OptimizationResult) (inputPath : path) : M (list OptimizationResult) :=
  try_catch
    (let* result := optimizeFont (spread_options inputPath outputDir options) in
     ret (results ++ [result]))
    (fun error =>
       console "error" ("Error optimizing " +:+ path_str inputPath +:+ ": "
                        +:+ exn_message error) ;;;
       ret results).

Definition optimizeFonts (inputPaths : list path) (outputDir : path) (options : PartialOptions)
  : M (list OptimizationResult) :=
  for_of inputPaths (optimizeFonts_step outputDir options) [].

(** The entries of [weightMap], in the order of the object literal, which
    is the order of [Object.entries]. *)
Definition weightMap : list (string * Z) :=
  [ ("thin", 100); ("extralight", 200); ("ultralight", 200); ("light", 300);
    ("regular", 400); ("normal", 400); ("medium", 500); ("semibold", 600);
    ("demibold", 600); ("bold", 700); ("extrabold", 800); ("ultrabold", 800);
    ("black", 900); ("heavy", 900) ].

Definition parseFontWeight (filename : string) : Z :=
  let lower := toLowerCase filename in
  match find (fun entry => str_includes lower (fst entry)) weightMap with
  | Some (_, weight) => weight
  | None => 400
  end.

Definition parseFontStyle (filename : string) : string :=
  let lower := toLowerCase filename in
  if str_includes lower "italic" || str_includes lower "oblique" then "italic" else "normal".

End MoreCode.
(** ** Vocabulary of the statements *)

(** Two worlds with the same files, directories, clock and cache
    instance: they differ in the pending faults and the trace. *)
Definition same_fs (w w' : World) : Prop :=
  files w' = files w ∧ dirs w' = dirs w ∧ clock w' = clock w ∧ globalCache w' = globalCache w.

(** No regular file stands on the way to [p]: [fs.mkdir(p, { recursive:
    true })] can succeed. *)
Definition no_file_on (w : World) (p : path) : Prop :=
  ∀ q, q `prefix_of` p → is_file w q = false.

(** [w'] comes after [w] by events that all satisfy [Q]. *)
Definition only (Q : Event → Prop) (w w' : World) : Prop :=
  ∃ evs, trace w' = trace w ++ evs ∧ Forall Q evs.

(** No file of [w'] is new or changed with respect to [w]. *)
Definition no_new_file (w w' : World) : Prop := files w' ⊆ files w.

(** A computation whose final world is always related by [R] to the
    world it starts from. *)
Definition keeps (R : World → World → Prop) {A} (c : M A) : Prop :=
  ∀ w, R w (snd (c w)).

(** A relation between a world and a later one that the bookkeeping of
    the world does not break. *)
Class Stable (R : World → World → Prop) := {
  stable_refl : ∀ w, R w w;
  stable_trans : ∀ w1 w2 w3, R w1 w2 → R w2 w3 → R w1 w3;
  stable_pop : ∀ w, R w (pop_fault w)
}.

(** What [R] lets a step do to the world. *)
Definition allows_unlink (R : World → World → Prop) (p : path) : Prop :=
  ∀ w, R w (with_files (delete p (files w)) w).

Definition allows_write (R : World → World → Prop) (p : path) : Prop :=
  ∀ w data, R w (with_files (<[p := data]> (files w)) w).

Definition allows_mkdir (R : World → World → Prop) : Prop :=
  ∀ w d, is_file w d = false → R w (with_dirs ({[d]} ∪ dirs w) w).

Definition allows_rmdir (R : World → World → Prop) (p : path) : Prop :=
  ∀ w, R w (with_dirs (dirs w ∖ {[p]}) w).

Definition allows_instance (R : World → World → Prop) : Prop :=
  ∀ w g, R w (with_globalCache g w).

(** [R] lets the event [ev] happen. *)
Definition permits (R : World → World → Prop) (ev : Event) : Prop := ∀ w, R w (emit ev w).

(** Pending faults do not appear. *)
Definition nofault (w w' : World) : Prop := faults w = [] → faults w' = [].

(** A regular file at [q] stays one. *)
Definition stays_file (q : path) (w w' : World) : Prop :=
  is_file w q = true → is_file w' q = true.

(** A directory at [q] stays one. *)
Definition stays_dir (q : path) (w w' : World) : Prop :=
  is_dir w q = true → is_dir w' q = true.

(** The bytes at [p] are the same. *)
Definition same_content (p : path) (w w' : World) : Prop :=
  files w' !! p = files w !! p.

(** What is a file keeps being in the table of the files. *)
Definition keeps_files (w w' : World) : Prop :=
  ∀ p, is_Some (files w !! p) → is_Some (files w' !! p).

(** The cache instance is the same. *)
Definition same_instance (w w' : World) : Prop := globalCache w' = globalCache w.



(** The world after some more events. *)
Definition emits (evs : list Event) (w : World) : World :=
  fold_left (fun w ev => emit ev w) evs w.

(** The world has no pending fault and the regular file [p] with the
    bytes [data]. *)
Definition reads_file (p : path) (data : string) (w : World) : Prop :=
  faults w = [] ∧ is_dir w p = false ∧ files w !! p = Some data.

(** On the worlds of [C] the computation [c] has one outcome, and adds
    the same events, all of them in [Q]. *)
Definition determined (C : World → Prop) (Q : Event → Prop) {A} (c : M A) : Prop :=
  ∃ r evs, Forall Q evs ∧ ∀ w, C w → c w = (r, emits evs w).

Section Vocabulary.
Context {P : Platform}.

(** The events of a validation that stops in [validateOptimizationOptions]
    after the size check: the existence test, the [stat], and the
    warning for a large file. *)
Definition validation_reads (p : path) (size : Z) : list Event :=
  [EvFs "access" p true; EvFs "stat" p true]
  ++ (if size >? MAX_RECOMMENDED_SIZE
      then [EvConsole "warn" ("⚠️  Warning: Large font file detected (" +:+ formatFileSize size
                              +:+ "). This may take a while to optimize.")]
      else []).

(** The output format of a request is absent or one of the supported ones. *)
Definition format_ok (options : OptimizationOptions) : bool :=
  negb (truthy_str (format options))
  || includes SUPPORTED_OUTPUT_FORMATS (default EmptyString (format options)).

Definition is_cache_lookup (ev : Event) : bool :=
  match ev with EvCacheGet _ _ => true | _ => false end.

Definition is_engine_call (ev : Event) : bool :=
  match ev with EvSubset _ _ _ => true | _ => false end.

(** The calls that make or overwrite a file or a directory. *)
Definition makes_file (ev : Event) : bool :=
  match ev with
  | EvFs op _ _ => includes ["writeFile"; "mkdir"] op
  | _ => false
  end.

(** Neither a call of the engine nor a write. *)
Definition quiet (ev : Event) : Prop := is_engine_call ev = false ∧ makes_file ev = false.

(** The events of a cache lookup: the reads, and the removal of a stale
    entry. *)
Definition lookup_event (ev : Event) : bool :=
  match ev with
  | EvCacheGet _ _ => true
  | EvFs op _ _ => includes ["access"; "readFile"; "stat"; "unlink"] op
  | _ => false
  end.

(** The events of the validation: reads of the input, and the warning. *)
Definition validation_event (ev : Event) : bool :=
  match ev with
  | EvFs op _ _ => includes ["access"; "readFile"; "stat"] op
  | EvConsole _ _ => true
  | _ => false
  end.

Definition is_validation_event (ev : Event) : Prop := validation_event ev = true.

Definition not_engine (ev : Event) : Prop := is_engine_call ev = false.

(** The number of calls of the engine among some events. *)
Definition engine_calls (evs : list Event) : nat :=
  length (filter (fun ev => is_engine_call ev = true) evs).

(** The calls that change the file system. *)
Definition is_fs_write (ev : Event) : bool :=
  match ev with
  | EvFs op _ _ => includes ["writeFile"; "mkdir"; "unlink"; "rmdir"] op
  | _ => false
  end.

(** The subset names give no character: resolving them yields the empty
    list, or fails. *)
Definition no_characters (subs : list string) : Prop :=
  match getSubsetCharacters subs with
  | Ok (_ :: _) => False
  | _ => True
  end.

(** The request with another subset list. *)
Definition with_subsets (subs : option (list string)) (o : OptimizationOptions)
  : OptimizationOptions :=
  mkOptimizationOptions (inputPath o) (outputDir o) (o_fontFamily o) (o_fontWeight o)
    (o_fontStyle o) subs (format o) (fontDisplay o) (useHash o) (cache o) (cacheDir o).

(** The entry that [set] writes for a result. *)
Definition cache_entry_of (r : OptimizationResult) (hash : string) (now : Z) : CacheEntry :=
  {| inputHash := hash;
     timestamp := now;
     version := cacheVersion;
     result :=
       {| originalSize := fm_size (original r);
          optimizedSize := fm_size (optimized r);
          ce_reduction := reduction r;
          ce_fontFamily := fontFamily r;
          ce_fontWeight := fontWeight r;
          outputPath := fm_path (optimized r);
          cssContent := css r |} |}.

(** The scalar fields of the result kept in an entry. *)
Definition entry_scalars (e : CacheEntry) : Z * Z * string * string * string * Z :=
  (originalSize (result e), optimizedSize (result e), ce_reduction (result e),
   cssContent (result e), ce_fontFamily (result e), ce_fontWeight (result e)).

(** The events of a lookup that hits. *)
Definition hit_events (this inputPath : path) (entry : CacheEntry) : list Event :=
  [ EvCacheGet this inputPath;
    EvFs "access" (cachePath_of this inputPath) true;
    EvFs "readFile" (cachePath_of this inputPath) true;
    EvFs "readFile" inputPath true;
    EvFs "access" (outputPath (result entry)) true;
    EvFs "stat" inputPath true;
    EvFs "stat" (outputPath (result entry)) true ].

(** The cache of directory [this] holds a valid entry for [inputPath],
    with the scalar fields [sc]: the entry file parses, has the current
    version and the hash of the input's present bytes, and the artifact
    it names exists. *)
Definition cache_holds (w : World) (this inputPath : path)
    (sc : Z * Z * string * string * string * Z) : Prop :=
  ∃ data entry content,
    is_dir w (cachePath_of this inputPath) = false
    ∧ files w !! cachePath_of this inputPath = Some data
    ∧ JSON_parse data = Some entry
    ∧ version entry = cacheVersion
    ∧ is_dir w inputPath = false
    ∧ files w !! inputPath = Some content
    ∧ md5hex content = inputHash entry
    ∧ exists_node w (outputPath (result entry)) = true
    ∧ entry_scalars entry = sc.

(** The cache store of the current instance can take the entry of
    [inputPath]: no regular file stands on the way to its directory, and
    the place of the entry is not a directory. *)
Definition cache_usable (w : World) (inputPath : path) : Prop :=
  ∀ this, globalCache w = Some this →
    no_file_on w this ∧ is_dir w (cachePath_of this inputPath) = false.

(** The two conditions as tests, for concrete worlds. *)
Definition no_file_onb (w : World) (p : path) : bool :=
  forallb (fun n => negb (is_file w (take n p))) (seq 0 (S (length p))).

Definition cache_usableb (w : World) (inputPath : path) : bool :=
  match globalCache w with
  | Some this => no_file_onb w this && negb (is_dir w (cachePath_of this inputPath))
  | None => true
  end.

(** The request passes the validation block of [optimizeFont] in [w]. *)
Definition passes_validation (options : OptimizationOptions) (w : World) : Prop :=
  fst (optimizeFont_validate options w) = Ok tt.






End Vocabulary.


(** ** More vocabulary *)

(** The display value of a request is absent or one of the five. *)
Definition display_ok (options : OptimizationOptions) : bool :=
  negb (truthy_str (fontDisplay options))
  || includes ["auto"; "block"; "swap"; "fallback"; "optional"]
       (default EmptyString (fontDisplay options)).

(** The weight of a request is absent or between 100 and 900. *)
Definition weight_ok (options : OptimizationOptions) : bool :=
  match o_fontWeight options with
  | Some weight => negb ((weight <? 100) || (weight >? 900))
  | None => true
  end.

(** The style of a request is absent or one of the two. *)
Definition style_ok (options : OptimizationOptions) : bool :=
  negb (truthy_str (o_fontStyle options))
  || includes ["normal"; "italic"] (default EmptyString (o_fontStyle options)).

(** The fields of a request that the validation checks after the input
    file are all valid. *)
Definition fields_ok (options : OptimizationOptions) : bool :=
  negb (bool_decide (outputDir options = []))
  && format_ok options && weight_ok options && style_ok options && display_ok options.

(** What the loop of [getFontFiles] keeps of an entry. *)
Definition font_entry (dirPath : path) (entry : string * bool) : option path :=
  let (name, isFile) := entry in
  if isFile && includes [".ttf"; ".otf"; ".woff"; ".woff2"] (toLowerCase (extname_of name))
  then Some (path_join dirPath name) else None.


(** After [clear]: the file at [q] is gone when it is a regular file
    directly in the directory and one of the [names]. *)
Definition cleared_among (names : list string) (w : World) (this : path) (q : path) : bool :=
  match child_name this q with
  | Some name => bool_decide (name ∈ names) && negb (is_dir w q)
  | None => false
  end.

(** A message of [console.error]. *)
Definition is_error_log (ev : Event) : bool :=
  match ev with
  | EvConsole level _ => String.eqb level "error"
  | _ => false
  end.

Definition error_logs (evs : list Event) : nat :=
  length (filter (fun ev => is_error_log ev = true) evs).

Definition not_error_log (ev : Event) : Prop := is_error_log ev = false.
(** ** A small platform, to run the code on concrete worlds *)

Module Toy.

Definition entry_tuple (e : CacheEntry)
  : string * Z * string * (Z * Z * string * string * Z * path * string) :=
  (inputHash e, timestamp e, version e,
   (originalSize (result e), optimizedSize (result e), ce_reduction (result e),
    ce_fontFamily (result e), ce_fontWeight (result e), outputPath (result e),
    cssContent (result e))).

Definition tuple_entry (t : string * Z * string * (Z * Z * string * string * Z * path * string))
  : CacheEntry :=
  let '(h, ts, v, (os, ps, red, fam, wt, out, cssc)) := t in
  mkCacheEntry h ts v (mkCacheEntryResult os ps red fam wt out cssc).

Fixpoint pos_bits (p : positive) : string :=
  match p with
  | xH => EmptyString
  | xO q => String "0" (pos_bits q)
  | xI q => String "1" (pos_bits q)
  end.

Fixpoint bits_pos (s : string) : option positive :=
  match s with
  | EmptyString => Some xH
  | String c rest =>
      match bits_pos rest with
      | Some q =>
          if Ascii.eqb c "0" then Some (xO q)
          else if Ascii.eqb c "1" then Some (xI q)
          else None
      | None => None
      end
  end.

(** The entry as a text of binary digits, in place of JSON. *)
Definition stringify (e : CacheEntry) : string := pos_bits (encode (entry_tuple e)).

Definition parse (s : string) : option CacheEntry :=
  match bits_pos s with
  | Some p => option_map tuple_entry (decode p)
  | None => None
  end.

(** In place of MD5: the codes of the bytes, one after the other. *)
Definition digest (data : string) : string :=
  String.concat "-" (map (fun c => pretty (N_of_ascii c)) (list_ascii_of_string data)).

(** The engine keeps the first eight bytes; a font whose fifth byte is
    an exclamation mark is refused. *)
Definition engine (buffer : string) (text : list N) (targetFormat : string) : string + string :=
  if byte_is buffer 4 33 then inr "unsupported font" else inl (String.substring 0 8 buffer).

#[export] Instance platform : Platform := {|
  md5hex := digest;
  JSON_stringify := stringify;
  JSON_parse := parse;
  subsetFont := engine;
  generateFontFace := fun o => "@font-face { font-family: " +:+ ff_fontFamily o +:+ "; font-weight: "
                               +:+ pretty (default 400 (ff_fontWeight o)) +:+ " }";
  generateCSSFile := fun faces comments =>
    String.concat "; " comments +:+ " | " +:+ pretty (length faces);
  strerror := fun code => "failed"
|}.

Definition ttf_bytes : string :=
  String (ascii_of_nat 0) (String (ascii_of_nat 1) (String (ascii_of_nat 0)
    (String (ascii_of_nat 0) "glyph data of the font"))).

Definition font : path := ["fonts"; "vazir-bold.ttf"].

Definition world0 : World :=
  {| files := {[ font := ttf_bytes ]};
     dirs := {[ ["fonts"] ]};
     clock := 1000;
     faults := [];
     globalCache := None;
     trace := [] |}.

Definition request : OptimizationOptions :=
  {| inputPath := font;
     outputDir := ["out"];
     o_fontFamily := None;
     o_fontWeight := Some 700;
     o_fontStyle := None;
     subsets := Some ["numbers"];
     format := None;
     fontDisplay := None;
     useHash := None;
     cache := None;
     cacheDir := Some ["cache"] |}.

(** The directory of the cache of [request]. *)
Definition store : path := ["cache"].

(** The world after the first call of [optimizeFont request]. *)
Definition world1 : World := snd (optimizeFont request world0).

(** The result of that call. *)
Definition result1 : OptimizationResult :=
  {| original :=
       {| fm_path := font;
          fm_name := "vazir-bold.ttf";
          fm_extension := ".ttf";
          fm_size := 26;
          fm_sizeFormatted := "26 B" |};
     optimized :=
       {| fm_path := ["out"; "vazir-bold-0-1-0-0-.woff2"];
          fm_name := "vazir-bold-0-1-0-0-.woff2";
          fm_extension := ".woff2";
          fm_size := 8;
          fm_sizeFormatted := "8 B" |};
     reduction := "69.2";
     css := "@font-face { font-family: vazir-bold; font-weight: 700 }";
     fontFamily := "vazir-bold";
     fontWeight := 700 |}.


(** The request with a weight of 1000. *)
Definition heavy_request : OptimizationOptions :=
  {| inputPath := font;
     outputDir := ["out"];
     o_fontFamily := None;
     o_fontWeight := Some 1000;
     o_fontStyle := None;
     subsets := Some ["numbers"];
     format := None;
     fontDisplay := None;
     useHash := None;
     cache := None;
     cacheDir := Some store |}.

(** The request with an empty list of subsets. *)
Definition request_no_subsets : OptimizationOptions := with_subsets (Some []) request.

(** The font is a file of 0 bytes. *)
Definition empty_world : World :=
  {| files := {[ font := EmptyString ]};
     dirs := {[ ["fonts"] ]};
     clock := 1000;
     faults := [];
     globalCache := None;
     trace := [] |}.

(** After the first call, the bytes of the font are changed. *)
Definition stale_world : World :=
  with_files (<[ font := ttf_bytes +:+ "modified" ]> (files world1)) world1.

(** The font and an artifact, and no cache yet. *)
Definition artifact_world : World :=
  with_files (<[ fm_path (optimized result1) := "subset b" ]> (files world0)) world0.



End Toy.

(** ** More worlds and requests *)

Module Sample.

(** A directory of fonts with a text, a font of two bytes, a font whose
    extension is in upper case and a directory named like a font; and a
    regular file where an output directory is wanted. *)
Definition shelf : World :=
  {| files := {[ Toy.font := Toy.ttf_bytes;
                 ["fonts"; "notes.txt"] := "notes";
                 ["fonts"; "tiny.otf"] := "OT";
                 ["fonts"; "Shabnam.WOFF2"] := "wOF2 and the glyphs";
                 ["out"] := "not a directory" ]};
     dirs := {[ ["fonts"]; ["fonts"; "old.ttf"] ]};
     clock := 1000;
     faults := [];
     globalCache := None;
     trace := [] |}.

(** The request of [Toy.request] for another input. *)
Definition request_for (input : path) : OptimizationOptions :=
  {| inputPath := input;
     outputDir := outputDir Toy.request;
     o_fontFamily := o_fontFamily Toy.request;
     o_fontWeight := o_fontWeight Toy.request;
     o_fontStyle := o_fontStyle Toy.request;
     subsets := subsets Toy.request;
     format := format Toy.request;
     fontDisplay := fontDisplay Toy.request;
     useHash := useHash Toy.request;
     cache := cache Toy.request;
     cacheDir := cacheDir Toy.request |}.

(** The request of [Toy.request] without a cache directory. *)
Definition request_default_dir : OptimizationOptions :=
  {| inputPath := Toy.font;
     outputDir := ["out"];
     o_fontFamily := None;
     o_fontWeight := Some 700;
     o_fontStyle := None;
     subsets := Some ["numbers"];
     format := None;
     fontDisplay := None;
     useHash := None;
     cache := None;
     cacheDir := None |}.

(** The request of [Toy.request] with the cache switched off. *)
Definition request_uncached : OptimizationOptions :=
  {| inputPath := Toy.font;
     outputDir := ["out"];
     o_fontFamily := None;
     o_fontWeight := Some 700;
     o_fontStyle := None;
     subsets := Some ["numbers"];
     format := None;
     fontDisplay := None;
     useHash := None;
     cache := Some false;
     cacheDir := Some ["cache"] |}.

(** The shelf when the second call of the file system meets a fault. *)
Definition faulty_shelf : World := with_faults [None; Some "EIO"] shelf.

(** A font with the header of [Toy.ttf_bytes] and other glyphs. *)
Definition other_ttf : string :=
  String.substring 0 4 Toy.ttf_bytes +:+ "other glyphs".

Definition other_world : World :=
  with_files (<[ Toy.font := other_ttf ]> (files Toy.world0)) Toy.world0.

End Sample.
(** * Properties *)

(** ** How computations run *)

Lemma bind_run {A B} (c : M A) (k : A → M B) w a w1 :
  c w = (Ok a, w1) → bind c k w = k a w1.
Proof. intros H. unfold bind. now rewrite H. Qed.

Lemma bind_throw {A B} (c : M A) (k : A → M B) w e w1 :
  c w = (Throw e, w1) → bind c k w = (Throw e, w1).
Proof. intros H. unfold bind. now rewrite H. Qed.

Lemma bind_Ok_inv {A B} (c : M A) (k : A → M B) w b w' :
  bind c k w = (Ok b, w') → ∃ a w1, c w = (Ok a, w1) ∧ k a w1 = (Ok b, w').
Proof.
  unfold bind. destruct (c w) as [[a|e] w1]; intros H; [eauto | discriminate].
Qed.

Lemma try_catch_run {A} (body : M A) handler w a w1 :
  body w = (Ok a, w1) → try_catch body handler w = (Ok a, w1).
Proof. intros H. unfold try_catch. now rewrite H. Qed.

Lemma try_catch_throw {A} (body : M A) handler w e w1 :
  body w = (Throw e, w1) → try_catch body handler w = handler e w1.
Proof. intros H. unfold try_catch. now rewrite H. Qed.

Lemma pop_fault_nofault w : faults w = [] → pop_fault w = w.
Proof. intros H. unfold pop_fault. now rewrite H. Qed.

Lemma next_fault_nofault w : faults w = [] → next_fault w = None.
Proof. intros H. unfold next_fault. now rewrite H. Qed.

Lemma fs_call_run {A} op p (sem : World → Result A * World) w :
  faults w = [] →
  fs_call op p sem w =
    match sem w with
    | (Ok a, w2) => (Ok a, emit (EvFs op p true) w2)
    | (Throw e, w2) => (Throw e, emit (EvFs op p false) w2)
    end.
Proof.
  intros H. unfold fs_call. now rewrite (next_fault_nofault w H), (pop_fault_nofault w H).
Qed.

Lemma fs_call_Ok {A} op p (sem : World → Result A * World) w a w' :
  fs_call op p sem w = (Ok a, w') →
  next_fault w = None ∧ ∃ w2, sem (pop_fault w) = (Ok a, w2) ∧ w' = emit (EvFs op p true) w2.
Proof.
  unfold fs_call. destruct (next_fault w); [discriminate |].
  destruct (sem (pop_fault w)) as [[x|e] w2]; intros H; inversion H; subst. eauto.
Qed.

Lemma same_fs_refl w : same_fs w w.
Proof. now repeat split. Qed.

Lemma same_fs_trans w1 w2 w3 : same_fs w1 w2 → same_fs w2 w3 → same_fs w1 w3.
Proof. unfold same_fs. intros (?&?&?&?) (?&?&?&?). repeat split; congruence. Qed.

Lemma same_fs_pop w : same_fs w (pop_fault w).
Proof. unfold pop_fault. destruct (faults w); now repeat split. Qed.

Lemma same_fs_emit ev w w' : same_fs w w' → same_fs w (emit ev w').
Proof. unfold same_fs. now cbn. Qed.

Lemma same_fs_is_dir w w' p : same_fs w w' → is_dir w' p = is_dir w p.
Proof. intros (_ & Hd & _). unfold is_dir. now rewrite Hd. Qed.

Lemma same_fs_is_file w w' p : same_fs w w' → is_file w' p = is_file w p.
Proof.
  intros H. unfold is_file. rewrite (same_fs_is_dir _ _ _ H).
  destruct H as (Hf & _). now rewrite Hf.
Qed.

Lemma same_fs_exists w w' p : same_fs w w' → exists_node w' p = exists_node w p.
Proof.
  intros H. unfold exists_node.
  now rewrite (same_fs_is_dir _ _ _ H), (same_fs_is_file _ _ _ H).
Qed.

(** *** The primitives on a world without pending faults *)

Section Primitives.
Context {P : Platform}.

Lemma fs_access_run p w :
  faults w = [] →
  fs_access p w =
    if exists_node w p then (Ok tt, emit (EvFs "access" p true) w)
    else (Throw (SystemError "ENOENT" "access" p), emit (EvFs "access" p false) w).
Proof.
  intros H. unfold fs_access. rewrite fs_call_run by exact H. now destruct (exists_node w p).
Qed.

Lemma fileExists_run p w :
  faults w = [] →
  fileExists p w = (Ok (exists_node w p), emit (EvFs "access" p (exists_node w p)) w).
Proof.
  intros H. unfold fileExists, try_catch, bind. rewrite fs_access_run by exact H.
  now destruct (exists_node w p).
Qed.

Lemma fs_existsSync_run p w :
  faults w = [] →
  fs_existsSync p w = (Ok (exists_node w p), emit (EvFs "access" p (exists_node w p)) w).
Proof. exact (fileExists_run p w). Qed.

Lemma fs_stat_run p w data :
  faults w = [] → is_dir w p = false → files w !! p = Some data →
  fs_stat p w = (Ok (mkStats true (Z.of_nat (String.length data))), emit (EvFs "stat" p true) w).
Proof.
  intros H Hd Hf. unfold fs_stat. rewrite fs_call_run by exact H. now rewrite Hd, Hf.
Qed.

Lemma fs_stat_run_exists p w :
  faults w = [] → exists_node w p = true →
  ∃ stats, fs_stat p w = (Ok stats, emit (EvFs "stat" p true) w).
Proof.
  intros H He. unfold fs_stat. rewrite fs_call_run by exact H.
  unfold exists_node, is_file in He. destruct (is_dir w p); [eauto |].
  cbn in He. apply bool_decide_eq_true in He as [d Hd]. rewrite Hd. eauto.
Qed.

Lemma fs_readFile_run p w data :
  faults w = [] → is_dir w p = false → files w !! p = Some data →
  fs_readFile p w = (Ok data, emit (EvFs "readFile" p true) w).
Proof.
  intros H Hd Hf. unfold fs_readFile. rewrite fs_call_run by exact H. now rewrite Hd, Hf.
Qed.

Lemma fs_writeFile_run p data w :
  faults w = [] → is_dir w p = false → is_dir w (path_dirname p) = true →
  fs_writeFile p data w =
    (Ok tt, emit (EvFs "writeFile" p true) (with_files (<[p := data]> (files w)) w)).
Proof.
  intros H Hd Hp. unfold fs_writeFile. rewrite fs_call_run by exact H. now rewrite Hd, Hp.
Qed.

Lemma fs_unlink_run p w data :
  faults w = [] → is_dir w p = false → files w !! p = Some data →
  fs_unlink p w = (Ok tt, emit (EvFs "unlink" p true) (with_files (delete p (files w)) w)).
Proof.
  intros H Hd Hf. unfold fs_unlink. rewrite fs_call_run by exact H. now rewrite Hd, Hf.
Qed.

Lemma is_file_intro w p data :
  is_dir w p = false → files w !! p = Some data → is_file w p = true.
Proof.
  intros Hd Hf. unfold is_file. rewrite Hd, Hf. reflexivity.
Qed.

Lemma exists_node_emit ev w p : exists_node (emit ev w) p = exists_node w p.
Proof. reflexivity. Qed.

Lemma is_dir_emit ev w p : is_dir (emit ev w) p = is_dir w p.
Proof. reflexivity. Qed.

Lemma exists_node_file w p data :
  files w !! p = Some data → exists_node w p = true.
Proof.
  intros Hf. unfold exists_node, is_file. destruct (is_dir w p); [done |].
  cbn. apply bool_decide_eq_true. eauto.
Qed.

Lemma is_dir_with_dirs w d q :
  is_dir (with_dirs ({[d]} ∪ dirs w) w) q = is_dir w q || bool_decide (q = d).
Proof.
  unfold is_dir. cbn.
  destruct (bool_decide (q = [])) eqn:E1; [reflexivity |].
  destruct (decide (q = d)) as [->|Hne].
  - rewrite (bool_decide_eq_true_2 (d = d)) by reflexivity.
    rewrite orb_true_r. apply bool_decide_eq_true.
    apply elem_of_union. left. now apply elem_of_singleton.
  - rewrite (bool_decide_eq_false_2 (q = d)) by exact Hne. rewrite orb_false_r. cbn.
    apply bool_decide_ext. rewrite elem_of_union, elem_of_singleton. tauto.
Qed.

Lemma is_file_with_dirs_false w d q :
  is_file w q = false → is_file (with_dirs ({[d]} ∪ dirs w) w) q = false.
Proof.
  unfold is_file. rewrite is_dir_with_dirs. cbn [files with_dirs].
  destruct (is_dir w q); cbn; [reflexivity |].
  intros ->. now rewrite andb_false_r.
Qed.

Lemma mkdir_p_run w done todo :
  no_file_on w (done ++ todo) →
  ∃ w', mkdir_p w done todo = (Ok tt, w')
        ∧ files w' = files w ∧ clock w' = clock w ∧ faults w' = faults w
        ∧ globalCache w' = globalCache w ∧ trace w' = trace w
        ∧ ∀ q, is_dir w' q = true ↔
               is_dir w q = true
               ∨ (q `prefix_of` (done ++ todo) ∧ (length done < length q)%nat).
Proof.
  revert w done. induction todo as [|s rest IH]; intros w done Hno.
  - exists w. cbn. repeat split; try tauto.
    intros [H|[Hp Hl]]; [exact H |].
    apply prefix_length in Hp. rewrite app_nil_r in Hp. lia.
  - cbn [mkdir_p]. rewrite Hno by (exists rest; now rewrite <- app_assoc).
    destruct (IH (with_dirs ({[done ++ [s]]} ∪ dirs w) w) (done ++ [s])) as (w' & Hrun & Hrest).
    { intros q Hq. apply is_file_with_dirs_false. apply Hno.
      now rewrite <- app_assoc in Hq. }
    exists w'. split; [exact Hrun |].
    destruct Hrest as (Hf & Hc & Hfl & Hg & Ht & Hdir).
    repeat split; try assumption.
    + intros H. apply Hdir in H. rewrite is_dir_with_dirs in H.
      rewrite <- app_assoc in H. cbn [app] in H.
      destruct H as [H|[Hp Hl]].
      * apply orb_true_iff in H as [H|H]; [now left |].
        apply bool_decide_eq_true in H. subst q. right. split.
        -- exists rest. now rewrite <- app_assoc.
        -- rewrite length_app. cbn. lia.
      * right. split; [exact Hp |]. rewrite length_app in Hl. cbn in Hl. lia.
    + intros H. apply Hdir. rewrite is_dir_with_dirs.
      rewrite <- app_assoc. cbn [app].
      destruct H as [H|[Hp Hl]]; [left; now rewrite H |].
      destruct (decide (q = done ++ [s])) as [->|Hne].
      * left. rewrite bool_decide_eq_true_2 by reflexivity. apply orb_true_r.
      * right. split; [exact Hp |].
        rewrite length_app. cbn.
        destruct Hp as [k Hk].
        assert (Hlen : length q ≠ S (length done)).
        { intros Hlen. apply Hne.
          assert (Hq : q = take (length q) (done ++ s :: rest)).
          { rewrite Hk. now rewrite take_app_length. }
          rewrite Hq, Hlen.
          replace (done ++ s :: rest) with ((done ++ [s]) ++ rest)
            by (now rewrite <- app_assoc).
          replace (S (length done)) with (length (done ++ [s]))
            by (rewrite length_app; cbn; lia).
          now rewrite take_app_length. }
        lia.
Qed.

Lemma ensureDir_run p w :
  faults w = [] → no_file_on w p →
  ∃ w', ensureDir p w = (Ok tt, w')
        ∧ files w' = files w ∧ clock w' = clock w ∧ faults w' = []
        ∧ globalCache w' = globalCache w
        ∧ trace w' = trace w ++ [EvFs "mkdir" p true]
        ∧ ∀ q, is_dir w' q = true ↔ is_dir w q = true ∨ (q `prefix_of` p ∧ q ≠ []).
Proof.
  intros Hf Hno. destruct (mkdir_p_run w [] p Hno) as (w1 & Hrun & H1 & H2 & H3 & H4 & H5 & H6).
  exists (emit (EvFs "mkdir" p true) w1). split.
  - unfold ensureDir. apply try_catch_run. unfold fs_mkdir_recursive.
    rewrite fs_call_run by exact Hf. now rewrite Hrun.
  - cbn. repeat split; try congruence.
    + intros H. apply H6 in H. destruct H as [H|[Hp Hl]]; [now left | right].
      split; [exact Hp |]. intros ->. cbn in Hl. lia.
    + intros H. apply H6. destruct H as [H|[Hp Hl]]; [now left | right].
      split; [exact Hp |]. destruct q; [congruence | cbn; lia].
Qed.

End Primitives.

(** *** Relations that every step of a computation keeps *)

Section Keeps.
Context {R : World → World → Prop} `{!Stable R}.

Lemma keeps_run {A} (c : M A) w r w' : keeps R c → c w = (r, w') → R w w'.
Proof. intros H E. specialize (H w). now rewrite E in H. Qed.

Lemma keeps_ret {A} (a : A) : keeps R (ret a).
Proof. intros w. apply stable_refl. Qed.

Lemma keeps_throw {A} e : keeps R (@throw A e).
Proof. intros w. apply stable_refl. Qed.

Lemma keeps_lift {A} (r : Result A) : keeps R (lift r).
Proof. intros w. apply stable_refl. Qed.

Lemma keeps_gets {A} (f : World → A) : keeps R (gets f).
Proof. intros w. apply stable_refl. Qed.

Lemma keeps_bind {A B} (c : M A) (k : A → M B) :
  keeps R c → (∀ a, keeps R (k a)) → keeps R (bind c k).
Proof.
  intros Hc Hk w. unfold bind. specialize (Hc w).
  destruct (c w) as [[a|e] w1]; cbn in Hc |- *; [| exact Hc].
  eapply stable_trans; [exact Hc | apply Hk].
Qed.

Lemma keeps_try_catch {A} (body : M A) handler :
  keeps R body → (∀ e, keeps R (handler e)) → keeps R (try_catch body handler).
Proof.
  intros Hb Hh w. unfold try_catch. specialize (Hb w).
  destruct (body w) as [[a|e] w1]; cbn in Hb |- *; [exact Hb |].
  eapply stable_trans; [exact Hb | apply Hh].
Qed.

Lemma keeps_emit ev : permits R ev → keeps R (modify (emit ev)).
Proof. intros H w. apply H. Qed.

Lemma keeps_console level msg : permits R (EvConsole level msg) → keeps R (console level msg).
Proof. apply keeps_emit. Qed.

Lemma keeps_fs_call {A} op p (sem : World → Result A * World) :
  (∀ b, permits R (EvFs op p b)) → (∀ w, R w (snd (sem w))) → keeps R (fs_call op p sem).
Proof.
  intros Hev Hsem w. unfold fs_call. destruct (next_fault w); cbn.
  - eapply stable_trans; [apply stable_pop | apply Hev].
  - specialize (Hsem (pop_fault w)).
    destruct (sem (pop_fault w)) as [[a|e] w2]; cbn in Hsem |- *;
      (eapply stable_trans; [apply stable_pop |]);
      (eapply stable_trans; [exact Hsem | apply Hev]).
Qed.

Lemma keeps_for_of {A S} (l : list A) (body : S → A → M S) :
  (∀ acc x, keeps R (body acc x)) → ∀ acc, keeps R (for_of l body acc).
Proof.
  intros Hb. induction l as [|x l IH]; intros acc; cbn [for_of].
  - apply keeps_ret.
  - apply keeps_bind; [apply Hb | exact IH].
Qed.

Lemma keeps_fs_access p : (∀ b, permits R (EvFs "access" p b)) → keeps R (fs_access p).
Proof.
  intros H. apply keeps_fs_call; [exact H |]. intros w.
  destruct (exists_node w p); apply stable_refl.
Qed.

Lemma keeps_fileExists p : (∀ b, permits R (EvFs "access" p b)) → keeps R (fileExists p).
Proof.
  intros H. apply keeps_try_catch.
  - apply keeps_bind; [now apply keeps_fs_access | intros; apply keeps_ret].
  - intros; apply keeps_ret.
Qed.

Lemma keeps_fs_stat p : (∀ b, permits R (EvFs "stat" p b)) → keeps R (fs_stat p).
Proof.
  intros H. apply keeps_fs_call; [exact H |]. intros w.
  destruct (is_dir w p); [apply stable_refl |]. destruct (files w !! p); apply stable_refl.
Qed.

Lemma keeps_fs_readFile p : (∀ b, permits R (EvFs "readFile" p b)) → keeps R (fs_readFile p).
Proof.
  intros H. apply keeps_fs_call; [exact H |]. intros w.
  destruct (is_dir w p); [apply stable_refl |]. destruct (files w !! p); apply stable_refl.
Qed.

Lemma keeps_fs_readdir p : (∀ b, permits R (EvFs "readdir" p b)) → keeps R (fs_readdir p).
Proof.
  intros H. apply keeps_fs_call; [exact H |]. intros w.
  destruct (is_dir w p); [apply stable_refl |]. destruct (is_file w p); apply stable_refl.
Qed.

Lemma keeps_fs_rmdir p :
  (∀ b, permits R (EvFs "rmdir" p b)) → allows_rmdir R p → keeps R (fs_rmdir p).
Proof.
  intros H Hrm. apply keeps_fs_call; [exact H |]. intros w.
  destruct (is_dir w p).
  - destruct (children w p); [apply Hrm | apply stable_refl].
  - destruct (is_file w p); apply stable_refl.
Qed.

Lemma keeps_fs_unlink p :
  (∀ b, permits R (EvFs "unlink" p b)) → allows_unlink R p → keeps R (fs_unlink p).
Proof.
  intros H Hun. apply keeps_fs_call; [exact H |]. intros w.
  destruct (is_dir w p); [apply stable_refl |].
  destruct (files w !! p); [apply Hun | apply stable_refl].
Qed.

Lemma keeps_fs_writeFile p data :
  (∀ b, permits R (EvFs "writeFile" p b)) → allows_write R p → keeps R (fs_writeFile p data).
Proof.
  intros H Hwr. apply keeps_fs_call; [exact H |]. intros w.
  destruct (is_dir w p); [apply stable_refl |].
  destruct (is_dir w (path_dirname p)); [apply Hwr |].
  destruct (is_file w (path_dirname p)); apply stable_refl.
Qed.

Lemma mkdir_p_keeps w done todo : allows_mkdir R → R w (snd (mkdir_p w done todo)).
Proof.
  intros Hmk. revert w done. induction todo as [|s rest IH]; intros w done; cbn [mkdir_p].
  - apply stable_refl.
  - destruct (is_file w (done ++ [s])) eqn:E; [apply stable_refl |].
    eapply stable_trans; [apply Hmk, E | apply IH].
Qed.

Lemma keeps_fs_mkdir p :
  (∀ b, permits R (EvFs "mkdir" p b)) → allows_mkdir R → keeps R (fs_mkdir_recursive p).
Proof.
  intros H Hmk. apply keeps_fs_call; [exact H |]. intros w. now apply mkdir_p_keeps.
Qed.

Lemma keeps_ensureDir p :
  (∀ b, permits R (EvFs "mkdir" p b)) → allows_mkdir R → keeps R (ensureDir p).
Proof.
  intros H Hmk. apply keeps_try_catch; [now apply keeps_fs_mkdir |].
  intros e. case_bool_decide; [apply keeps_throw | apply keeps_ret].
Qed.

Lemma keeps_writeFileBuffer p data :
  (∀ b, permits R (EvFs "mkdir" (path_dirname p) b)) → allows_mkdir R →
  (∀ b, permits R (EvFs "writeFile" p b)) → allows_write R p →
  keeps R (writeFileBuffer p data).
Proof.
  intros H1 H2 H3 H4. apply keeps_bind; [now apply keeps_ensureDir |].
  intros _. now apply keeps_fs_writeFile.
Qed.

Lemma keeps_getFileHash `{Platform} p :
  (∀ b, permits R (EvFs "readFile" p b)) → keeps R (getFileHash p).
Proof.
  intros Hp. apply keeps_bind; [now apply keeps_fs_readFile | intros; apply keeps_ret].
Qed.

Lemma keeps_getGlobalCache cacheDir : allows_instance R → keeps R (getGlobalCache cacheDir).
Proof.
  intros Hg w. unfold getGlobalCache. destruct (globalCache w).
  - destruct (truthy_path cacheDir && negb (bool_decide (Some p = cacheDir)));
      [apply Hg | apply stable_refl].
  - apply Hg.
Qed.

End Keeps.

Lemma Forall_app_2' {A} (Q : A → Prop) l1 l2 : Forall Q l1 → Forall Q l2 → Forall Q (l1 ++ l2).
Proof. intros H1 H2. apply Forall_app. now split. Qed.

Lemma only_stable Q : Stable (only Q).
Proof.
  split.
  - intros w. exists []. now rewrite app_nil_r.
  - intros w1 w2 w3 (e1 & H1 & F1) (e2 & H2 & F2). exists (e1 ++ e2).
    split; [now rewrite H2, H1, app_assoc | now apply Forall_app_2'].
  - intros w. exists []. split; [| constructor]. rewrite app_nil_r. unfold pop_fault.
    now destruct (faults w).
Qed.

#[export] Existing Instance only_stable.

Lemma only_same_trace (Q : Event → Prop) w w' : trace w' = trace w → only Q w w'.
Proof. intros H. exists []. now rewrite app_nil_r. Qed.

Lemma only_allows_unlink Q p : allows_unlink (only Q) p.
Proof. intros w. now apply only_same_trace. Qed.

Lemma only_allows_write Q p : allows_write (only Q) p.
Proof. intros w data. now apply only_same_trace. Qed.

Lemma only_allows_mkdir Q : allows_mkdir (only Q).
Proof. intros w d _. now apply only_same_trace. Qed.

Lemma only_allows_rmdir Q p : allows_rmdir (only Q) p.
Proof. intros w. now apply only_same_trace. Qed.

Lemma only_allows_instance Q : allows_instance (only Q).
Proof. intros w g. now apply only_same_trace. Qed.

Lemma only_permits (Q : Event → Prop) ev : Q ev → permits (only Q) ev.
Proof. intros H w. exists [ev]. split; [reflexivity | now constructor]. Qed.

Lemma no_new_file_stable : Stable no_new_file.
Proof.
  split; unfold no_new_file.
  - intros w. reflexivity.
  - intros w1 w2 w3 H1 H2. etransitivity; eassumption.
  - intros w. unfold pop_fault. now destruct (faults w).
Qed.

#[export] Existing Instance no_new_file_stable.

Lemma no_new_file_allows_unlink p : allows_unlink no_new_file p.
Proof. intros w. unfold no_new_file. cbn. apply delete_subseteq. Qed.

Lemma no_new_file_allows_mkdir : allows_mkdir no_new_file.
Proof. intros w d _. unfold no_new_file. reflexivity. Qed.

Lemma no_new_file_allows_rmdir p : allows_rmdir no_new_file p.
Proof. intros w. unfold no_new_file. reflexivity. Qed.

Lemma no_new_file_allows_instance : allows_instance no_new_file.
Proof. intros w g. unfold no_new_file. reflexivity. Qed.

Lemma no_new_file_permits ev : permits no_new_file ev.
Proof. intros w. unfold no_new_file. reflexivity. Qed.

(** *** More relations *)

Lemma nofault_stable : Stable nofault.
Proof.
  split; unfold nofault.
  - auto.
  - auto.
  - intros w H. now rewrite pop_fault_nofault.
Qed.

#[export] Existing Instance nofault_stable.

Lemma stays_file_stable q : Stable (stays_file q).
Proof.
  split; unfold stays_file.
  - auto.
  - auto.
  - intros w H. now rewrite (same_fs_is_file _ _ _ (same_fs_pop w)).
Qed.

#[export] Existing Instance stays_file_stable.

Lemma stays_dir_stable q : Stable (stays_dir q).
Proof.
  split; unfold stays_dir.
  - auto.
  - auto.
  - intros w H. now rewrite (same_fs_is_dir _ _ _ (same_fs_pop w)).
Qed.

#[export] Existing Instance stays_dir_stable.

Lemma same_content_stable p : Stable (same_content p).
Proof.
  split; unfold same_content.
  - auto.
  - intros w1 w2 w3 H1 H2. congruence.
  - intros w. now destruct (same_fs_pop w) as (-> & _).
Qed.

#[export] Existing Instance same_content_stable.

Lemma keeps_files_stable : Stable keeps_files.
Proof.
  split; unfold keeps_files.
  - auto.
  - auto.
  - intros w p. now destruct (same_fs_pop w) as (-> & _).
Qed.

#[export] Existing Instance keeps_files_stable.

Lemma same_instance_stable : Stable same_instance.
Proof.
  split; unfold same_instance.
  - auto.
  - intros w1 w2 w3 H1 H2. congruence.
  - intros w. now destruct (same_fs_pop w) as (_ & _ & _ & ->).
Qed.

#[export] Existing Instance same_instance_stable.

Lemma same_fs_stable : Stable same_fs.
Proof.
  split.
  - apply same_fs_refl.
  - apply same_fs_trans.
  - apply same_fs_pop.
Qed.

#[export] Existing Instance same_fs_stable.

Lemma same_fs_permits ev : permits same_fs ev.
Proof. intros w. apply same_fs_emit, same_fs_refl. Qed.

Lemma nofault_same_faults w w' : faults w' = faults w → nofault w w'.
Proof. unfold nofault. congruence. Qed.

Lemma is_file_insert w p data q :
  is_file w q = true → is_file (with_files (<[p := data]> (files w)) w) q = true.
Proof.
  unfold is_file. intros H. apply andb_true_iff in H as [H1 H2].
  apply andb_true_iff. split; [exact H1 |].
  apply bool_decide_eq_true in H2. apply bool_decide_eq_true. cbn.
  destruct (decide (p = q)) as [->|Hne].
  - rewrite lookup_insert_eq. eauto.
  - now rewrite lookup_insert_ne.
Qed.

Lemma is_file_add_dir w d q :
  is_file w d = false → is_file w q = true →
  is_file (with_dirs ({[d]} ∪ dirs w) w) q = true.
Proof.
  intros Hd Hq. unfold is_file. rewrite is_dir_with_dirs. cbn [files with_dirs].
  assert (q ≠ d) by (intros ->; congruence).
  rewrite (bool_decide_eq_false_2 (q = d)) by assumption. rewrite orb_false_r. exact Hq.
Qed.

Lemma stays_file_allows_write q p : allows_write (stays_file q) p.
Proof. intros w data. unfold stays_file. apply is_file_insert. Qed.

Lemma stays_file_allows_mkdir q : allows_mkdir (stays_file q).
Proof. intros w d Hd. unfold stays_file. now apply is_file_add_dir. Qed.

Lemma stays_dir_allows_write q p : allows_write (stays_dir q) p.
Proof. intros w data. unfold stays_dir. auto. Qed.

Lemma stays_dir_allows_mkdir q : allows_mkdir (stays_dir q).
Proof.
  intros w d _. unfold stays_dir. rewrite is_dir_with_dirs. intros ->. reflexivity.
Qed.

Lemma same_content_allows_write p p' : p' ≠ p → allows_write (same_content p) p'.
Proof. intros Hne w data. unfold same_content. cbn. now rewrite lookup_insert_ne. Qed.


Lemma keeps_files_allows_write p : allows_write keeps_files p.
Proof.
  intros w data q Hq. cbn. destruct (decide (p = q)) as [->|Hne].
  - rewrite lookup_insert_eq. eauto.
  - now rewrite lookup_insert_ne.
Qed.

Lemma nofault_permits ev : permits nofault ev.
Proof. intros w. unfold nofault. auto. Qed.

Lemma stays_file_permits q ev : permits (stays_file q) ev.
Proof. intros w. unfold stays_file. auto. Qed.

Lemma stays_dir_permits q ev : permits (stays_dir q) ev.
Proof. intros w. unfold stays_dir. auto. Qed.

Lemma same_content_permits p ev : permits (same_content p) ev.
Proof. intros w. reflexivity. Qed.

Lemma keeps_files_permits ev : permits keeps_files ev.
Proof. intros w. unfold keeps_files. auto. Qed.

Lemma nofault_allows_unlink p : allows_unlink nofault p.
Proof. intros w. now apply nofault_same_faults. Qed.

Lemma nofault_allows_write p : allows_write nofault p.
Proof. intros w data. now apply nofault_same_faults. Qed.

Lemma nofault_allows_mkdir : allows_mkdir nofault.
Proof. intros w d _. now apply nofault_same_faults. Qed.

Lemma nofault_allows_instance : allows_instance nofault.
Proof. intros w g. now apply nofault_same_faults. Qed.

(** *** The cache and the validation keep such relations *)

Section KeepsCache.
Context {P : Platform} {R : World → World → Prop} `{!Stable R}.

Lemma keeps_JSON_parse_entry data : keeps R (JSON_parse_entry data).
Proof. unfold JSON_parse_entry. destruct (JSON_parse data); [apply keeps_ret | apply keeps_throw]. Qed.

Hypothesis lookup_permitted : ∀ ev, lookup_event ev = true → permits R ev.

Lemma keeps_FontCache_delete this inputPath :
  allows_unlink R (cachePath_of this inputPath) →
  keeps R (FontCache_delete this inputPath).
Proof.
  intros Hun. apply keeps_try_catch; [| intros; apply keeps_ret].
  apply keeps_bind; [apply keeps_fileExists; intros; now apply lookup_permitted |].
  intros found. destruct found; [| apply keeps_ret].
  apply keeps_fs_unlink; [intros; now apply lookup_permitted | exact Hun].
Qed.

Lemma keeps_entryToResult entry inputPath : keeps R (entryToResult entry inputPath).
Proof.
  apply keeps_bind; [apply keeps_fs_stat; intros; now apply lookup_permitted |]. intros s1.
  apply keeps_bind; [apply keeps_fs_stat; intros; now apply lookup_permitted |]. intros s2.
  apply keeps_ret.
Qed.

Lemma keeps_FontCache_get this inputPath :
  allows_unlink R (cachePath_of this inputPath) →
  keeps R (FontCache_get this inputPath).
Proof.
  intros Hun.
  assert (Hdrop : keeps R (FontCache_delete this inputPath ;;; ret (@None OptimizationResult))).
  { apply keeps_bind; [now apply keeps_FontCache_delete | intros; apply keeps_ret]. }
  apply keeps_try_catch; [| intros; apply keeps_ret].
  apply keeps_bind; [apply keeps_emit; now apply lookup_permitted |]. intros _.
  apply keeps_bind; [apply keeps_fileExists; intros; now apply lookup_permitted |].
  intros found. destruct (negb found); [apply keeps_ret |].
  apply keeps_bind; [apply keeps_fs_readFile; intros; now apply lookup_permitted |].
  intros data. apply keeps_bind; [apply keeps_JSON_parse_entry |]. intros entry.
  destruct (negb (String.eqb (version entry) cacheVersion)); [exact Hdrop |].
  apply keeps_bind; [apply keeps_getFileHash; intros; now apply lookup_permitted |].
  intros h. destruct (negb (String.eqb (inputHash entry) h)); [exact Hdrop |].
  apply keeps_bind; [apply keeps_fileExists; intros; now apply lookup_permitted |].
  intros artifact. destruct (negb artifact); [exact Hdrop |].
  apply keeps_bind; [apply keeps_entryToResult | intros; apply keeps_ret].
Qed.

Lemma keeps_optimizeFont_lookup options :
  allows_instance R →
  (∀ this, allows_unlink R (cachePath_of this (inputPath options))) →
  keeps R (optimizeFont_lookup options).
Proof.
  intros Hg Hun.
  unfold optimizeFont_lookup. destruct (default true (cache options)); [| apply keeps_ret].
  apply keeps_bind; [now apply keeps_getGlobalCache | intros; now apply keeps_FontCache_get].
Qed.

End KeepsCache.

Section KeepsValidation.
Context {P : Platform} {R : World → World → Prop} `{!Stable R}.

Hypothesis validation_permitted : ∀ ev, validation_event ev = true → permits R ev.

Lemma keeps_validateOptimizationOptions_fields options :
  keeps R (validateOptimizationOptions_fields options).
Proof.
  unfold validateOptimizationOptions_fields.
  case_bool_decide; [apply keeps_throw |].
  destruct (truthy_str (format options) && _); [apply keeps_throw |].
  apply keeps_bind.
  { destruct (o_fontWeight options) as [weight|]; [| apply keeps_ret].
    destruct ((weight <? 100) || (weight >? 900)); [apply keeps_throw | apply keeps_ret]. }
  intros _. destruct (truthy_str (o_fontStyle options) && _); [apply keeps_throw |].
  cbv zeta. destruct (truthy_str (fontDisplay options) && _); [apply keeps_throw | apply keeps_ret].
Qed.

Lemma keeps_validateOptimizationOptions options : keeps R (validateOptimizationOptions options).
Proof.
  unfold validateOptimizationOptions.
  case_bool_decide; [apply keeps_throw |].
  apply keeps_bind.
  { unfold fs_existsSync. apply keeps_fileExists. intros; now apply validation_permitted. }
  intros found. destruct (negb found); [apply keeps_throw |].
  cbv zeta. destruct (negb (includes SUPPORTED_FORMATS _)); [apply keeps_throw |].
  apply keeps_bind; [apply keeps_fs_stat; intros; now apply validation_permitted |].
  intros stats. destruct (negb (st_isFile stats)); [apply keeps_throw |].
  destruct (st_size stats =? 0); [apply keeps_throw |].
  apply keeps_bind; [| intros; apply keeps_validateOptimizationOptions_fields].
  destruct (st_size stats >? MAX_RECOMMENDED_SIZE); [| apply keeps_ret].
  apply keeps_console. now apply validation_permitted.
Qed.

Lemma keeps_validateFontFile filePath : keeps R (validateFontFile filePath).
Proof.
  unfold validateFontFile.
  apply keeps_bind; [apply keeps_fs_readFile; intros; now apply validation_permitted |].
  intros buffer. cbv zeta.
  repeat match goal with
         | |- keeps R (if ?b then _ else _) => destruct b
         end; first [apply keeps_throw | apply keeps_ret].
Qed.

Lemma keeps_optimizeFont_validate options : keeps R (optimizeFont_validate options).
Proof.
  apply keeps_try_catch.
  - apply keeps_bind; [apply keeps_validateOptimizationOptions |].
    intros; apply keeps_validateFontFile.
  - intros e. destruct (is_validation_error e); apply keeps_throw.
Qed.

End KeepsValidation.

Section KeepsPipeline.
Context {P : Platform} {R : World → World → Prop} `{!Stable R}.

Hypothesis events_permitted : ∀ ev, is_engine_call ev = false → permits R ev.

Lemma keeps_getFontMetadata filePath : keeps R (getFontMetadata filePath).
Proof.
  apply keeps_bind; [apply keeps_fs_stat; intros; now apply events_permitted |].
  intros; apply keeps_ret.
Qed.

Lemma keeps_FontCache_set this inputPath r :
  allows_mkdir R → allows_write R (cachePath_of this inputPath) →
  keeps R (FontCache_set this inputPath r).
Proof.
  intros Hmk Hwr. apply keeps_try_catch.
  2:{ intros e. apply keeps_console. now apply events_permitted. }
  apply keeps_bind; [apply keeps_emit; now apply events_permitted |]. intros _.
  apply keeps_bind; [apply keeps_ensureDir; [intros; now apply events_permitted | exact Hmk] |].
  intros _. apply keeps_bind.
  { apply keeps_getFileHash. intros; now apply events_permitted. }
  intros h. apply keeps_bind; [apply keeps_gets |]. intros now.
  apply keeps_fs_writeFile; [intros; now apply events_permitted | exact Hwr].
Qed.

Lemma lookup_event_not_engine ev : lookup_event ev = true → is_engine_call ev = false.
Proof. destruct ev; cbn; congruence. Qed.

Lemma validation_event_not_engine ev : validation_event ev = true → is_engine_call ev = false.
Proof. destruct ev; cbn; congruence. Qed.

Lemma keeps_validate options : keeps R (optimizeFont_validate options).
Proof.
  apply keeps_optimizeFont_validate. intros ev Hev.
  now apply events_permitted, validation_event_not_engine.
Qed.

Lemma keeps_get this inputPath :
  allows_unlink R (cachePath_of this inputPath) → keeps R (FontCache_get this inputPath).
Proof.
  apply keeps_FontCache_get. intros ev Hev.
  now apply events_permitted, lookup_event_not_engine.
Qed.

End KeepsPipeline.

(** *** The primitives under any pending faults: what a success tells *)

Section Inversion.
Context {P : Platform}.

Lemma same_fs_emit_pop ev w : same_fs w (emit ev (pop_fault w)).
Proof. apply same_fs_emit, same_fs_pop. Qed.

Lemma trace_pop w : trace (pop_fault w) = trace w.
Proof. unfold pop_fault. now destruct (faults w). Qed.

Lemma faults_pop w : faults (pop_fault w) = tail (faults w).
Proof. unfold pop_fault. destruct (faults w) eqn:E; [exact E | reflexivity]. Qed.

Lemma tail_nil_eq {A} (l l' : list A) : l' = tail l → l = [] → l' = [].
Proof. intros H1 H2. subst. reflexivity. Qed.

Lemma fs_access_inv p w r w' :
  fs_access p w = (r, w') →
  same_fs w w' ∧ faults w' = tail (faults w)
  ∧ ((r = Ok tt ∧ exists_node w p = true ∧ trace w' = trace w ++ [EvFs "access" p true])
     ∨ ((∃ e, r = Throw e) ∧ trace w' = trace w ++ [EvFs "access" p false])).
Proof.
  unfold fs_access, fs_call. destruct (next_fault w).
  - intros H. inversion H; subst. split; [apply same_fs_emit_pop |].
    split; [apply faults_pop |].
    right. split; [eauto |]. cbn. now rewrite trace_pop.
  - destruct (exists_node (pop_fault w) p) eqn:E; intros H; inversion H; subst;
      (split; [apply same_fs_emit_pop |]); (split; [apply faults_pop |]).
    + left. rewrite (same_fs_exists _ _ _ (same_fs_pop w)) in E.
      repeat split; [exact E |]. cbn. now rewrite trace_pop.
    + right. split; [eauto |]. cbn. now rewrite trace_pop.
Qed.

Lemma fileExists_inv p w r w' :
  fileExists p w = (r, w') →
  ∃ b, r = Ok b ∧ same_fs w w' ∧ faults w' = tail (faults w)
       ∧ trace w' = trace w ++ [EvFs "access" p b]
       ∧ (b = true → exists_node w p = true).
Proof.
  unfold fileExists, try_catch, bind.
  destruct (fs_access p w) as [[[]|e] w1] eqn:E; intros H; inversion H; subst;
    apply fs_access_inv in E as (Hs & Hf & [(Hr & He & Ht)|((e' & Hr) & Ht)]);
    try discriminate.
  - exists true. split; [reflexivity |]. split; [exact Hs |]. split; [exact Hf |].
    split; [exact Ht |]. intros _. exact He.
  - exists false. split; [reflexivity |]. split; [exact Hs |]. split; [exact Hf |].
    split; [exact Ht |]. discriminate.
Qed.

Lemma fs_readFile_Ok p w data w' :
  fs_readFile p w = (Ok data, w') →
  is_dir w p = false ∧ files w !! p = Some data
  ∧ same_fs w w' ∧ faults w' = tail (faults w)
  ∧ trace w' = trace w ++ [EvFs "readFile" p true].
Proof.
  intros H. apply fs_call_Ok in H as (_ & w2 & Hsem & ->).
  pose proof (same_fs_pop w) as Hp.
  rewrite (same_fs_is_dir _ _ _ Hp) in Hsem. destruct Hp as (Hpf & _). rewrite Hpf in Hsem.
  destruct (is_dir w p); [discriminate |].
  destruct (files w !! p) as [d|]; [| discriminate].
  inversion Hsem; subst. repeat split; try apply same_fs_emit_pop; try apply faults_pop.
  cbn. now rewrite trace_pop.
Qed.

Lemma fs_stat_Ok p w stats w' :
  fs_stat p w = (Ok stats, w') →
  same_fs w w' ∧ faults w' = tail (faults w)
  ∧ trace w' = trace w ++ [EvFs "stat" p true]
  ∧ (st_isFile stats = true →
     is_dir w p = false
     ∧ ∃ data, files w !! p = Some data ∧ st_size stats = Z.of_nat (String.length data)).
Proof.
  intros H. apply fs_call_Ok in H as (_ & w2 & Hsem & ->).
  pose proof (same_fs_pop w) as Hp.
  rewrite (same_fs_is_dir _ _ _ Hp) in Hsem. destruct Hp as (Hpf & _). rewrite Hpf in Hsem.
  destruct (is_dir w p).
  - inversion Hsem; subst.
    repeat split; try apply same_fs_emit_pop; try apply faults_pop; try discriminate.
    cbn. now rewrite trace_pop.
  - destruct (files w !! p) as [d|]; [| discriminate].
    inversion Hsem; subst.
    repeat split; try apply same_fs_emit_pop; try apply faults_pop; eauto.
    cbn. now rewrite trace_pop.
Qed.

Lemma getFileHash_Ok p w h w' :
  getFileHash p w = (Ok h, w') →
  ∃ content, h = md5hex content ∧ is_dir w p = false ∧ files w !! p = Some content
             ∧ same_fs w w' ∧ faults w' = tail (faults w)
             ∧ trace w' = trace w ++ [EvFs "readFile" p true].
Proof.
  unfold getFileHash. intros H. apply bind_Ok_inv in H as (content & w1 & Hread & Hret).
  inversion Hret; subst. apply fs_readFile_Ok in Hread as (H1 & H2 & H3 & H4 & H5).
  exists content. split; [reflexivity |]. repeat (split; [assumption |]). assumption.
Qed.

End Inversion.

(** ** Validation (validation.ts) and the first block of [optimizeFont] *)

Section Validation.
Context {P : Platform}.

Lemma length_nonempty (data : string) :
  data ≠ EmptyString → (Z.of_nat (String.length data) =? 0) = false.
Proof. destruct data; [congruence | intros _; apply Z.eqb_neq; cbn; lia]. Qed.

Lemma is_dir_nonroot w p : is_dir w p = false → p ≠ [].
Proof. unfold is_dir. intros H ->. now rewrite bool_decide_eq_true_2 in H. Qed.

Lemma validate_throw_run options w e w' :
  validateOptimizationOptions options w = (Throw e, w') →
  is_validation_error e = true →
  optimizeFont options w = (Throw e, w').
Proof.
  intros H He. unfold optimizeFont, optimizeFont_validate.
  apply bind_throw. erewrite try_catch_throw.
  2:{ apply bind_throw. exact H. }
  now rewrite He.
Qed.

(** The checks of [validateOptimizationOptions] on the input file, up to
    the size check, on a regular file. *)
Lemma validate_input_run options w data :
  faults w = [] →
  is_dir w (inputPath options) = false →
  files w !! inputPath options = Some data →
  includes SUPPORTED_FORMATS (toLowerCase (path_extname (inputPath options))) = true →
  validateOptimizationOptions options w =
    (if Z.of_nat (String.length data) =? 0 then
       throw (InvalidFontError ("Font file is empty: " +:+ path_str (inputPath options))
                (inputPath options) "File size is 0 bytes")
     else
       (if Z.of_nat (String.length data) >? MAX_RECOMMENDED_SIZE then
          console "warn" ("⚠️  Warning: Large font file detected ("
                          +:+ formatFileSize (Z.of_nat (String.length data))
                          +:+ "). This may take a while to optimize.")
        else ret tt) ;;;
       validateOptimizationOptions_fields options)
      (emit (EvFs "stat" (inputPath options) true)
         (emit (EvFs "access" (inputPath options) true) w)).
Proof.
  intros Hf Hd Hdata Hext. unfold validateOptimizationOptions.
  rewrite bool_decide_eq_false_2 by (eapply is_dir_nonroot; eauto).
  erewrite bind_run by (apply fs_existsSync_run; exact Hf).
  rewrite (exists_node_file _ _ _ Hdata). cbn [negb].
  rewrite Hext. cbn [negb].
  erewrite bind_run by (apply (fs_stat_run _ _ data); [exact Hf | exact Hd | exact Hdata]).
  cbn [st_isFile st_size negb]. reflexivity.
Qed.

(** C6. A request whose input is a file of 0 bytes with a recognized font
    extension makes [optimizeFont] throw an [InvalidFontError], which is
    not a [FontOptimizationError] (the transformation failure); it is
    thrown by the validation, after the existence test and the [stat] of
    the input and nothing else: no cache lookup, no call of the engine,
    no write, and the file system is as before. *)
Theorem optimizeFont_empty_file_is_invalid_font options w :
  faults w = [] →
  is_dir w (inputPath options) = false →
  files w !! inputPath options = Some EmptyString →
  includes SUPPORTED_FORMATS (toLowerCase (path_extname (inputPath options))) = true →
  ∃ e w',
    optimizeFont options w = (Throw e, w')
    ∧ e = InvalidFontError ("Font file is empty: " +:+ path_str (inputPath options))
            (inputPath options) "File size is 0 bytes"
    ∧ exn_name e = "InvalidFontError"
    ∧ is_FontOptimizationError e = false
    ∧ same_fs w w'
    ∧ trace w' = trace w ++ [EvFs "access" (inputPath options) true;
                             EvFs "stat" (inputPath options) true].
Proof.
  intros Hf Hd Hdata Hext. eexists _, _. split; [| split; [reflexivity |]].
  - apply validate_throw_run; [| reflexivity].
    rewrite (validate_input_run options w EmptyString) by assumption.
    reflexivity.
  - cbn. repeat split. now rewrite <- app_assoc.
Qed.

(** C7. A request whose input file and output directory and format are
    valid but whose weight is below 100 or above 900 makes [optimizeFont]
    throw a [ValidationError] whose field is ["fontWeight"]; nothing has
    been done but the reads of the validation: no cache lookup, no call
    of the engine, no write. *)
Theorem optimizeFont_weight_out_of_range options w data weight :
  faults w = [] →
  is_dir w (inputPath options) = false →
  files w !! inputPath options = Some data →
  data ≠ EmptyString →
  includes SUPPORTED_FORMATS (toLowerCase (path_extname (inputPath options))) = true →
  outputDir options ≠ [] →
  format_ok options = true →
  o_fontWeight options = Some weight →
  weight < 100 ∨ weight > 900 →
  ∃ message w',
    optimizeFont options w = (Throw (ValidationError message "fontWeight" (ANum weight)), w')
    ∧ same_fs w w'
    ∧ trace w' = trace w
                 ++ validation_reads (inputPath options) (Z.of_nat (String.length data))
    ∧ Forall (fun ev => is_cache_lookup ev = false ∧ is_engine_call ev = false
                        ∧ is_fs_write ev = false)
             (validation_reads (inputPath options) (Z.of_nat (String.length data))).
Proof.
  intros Hf Hd Hdata Hne Hext Hout Hfmt Hw Hrange.
  assert (Hbad : (weight <? 100) || (weight >? 900) = true).
  { apply orb_true_iff. destruct Hrange; [left; now apply Z.ltb_lt | right; lia]. }
  eexists _, (emits (validation_reads (inputPath options) (Z.of_nat (String.length data))) w).
  split.
  - apply validate_throw_run; [| reflexivity].
    rewrite (validate_input_run options w data) by assumption.
    rewrite (length_nonempty data Hne).
    unfold validateOptimizationOptions_fields.
    rewrite bool_decide_eq_false_2 by assumption.
    unfold format_ok in Hfmt.
    assert (Hfmt' : truthy_str (format options)
                    && negb (includes SUPPORTED_OUTPUT_FORMATS
                               (default EmptyString (format options))) = false).
    { destruct (truthy_str (format options)); [| reflexivity].
      cbn in Hfmt |- *. now rewrite Hfmt. }
    rewrite Hfmt', Hw, Hbad.
    unfold validation_reads.
    destruct (Z.of_nat (String.length data) >? MAX_RECOMMENDED_SIZE); reflexivity.
  - unfold validation_reads.
    destruct (Z.of_nat (String.length data) >? MAX_RECOMMENDED_SIZE);
      cbn; (split; [now repeat split |]); (split; [now rewrite <- ?app_assoc |]);
      repeat constructor.
Qed.

End Validation.

(** ** The stylesheet of an empty list of results (optimizer.ts) *)

Section Stylesheet.
Context {P : Platform}.

Lemma writeFileBuffer_run p data w :
  faults w = [] → is_dir w p = false → no_file_on w (path_dirname p) →
  ∃ w', writeFileBuffer p data w = (Ok tt, w')
        ∧ files w' = <[p := data]> (files w) ∧ clock w' = clock w ∧ faults w' = []
        ∧ globalCache w' = globalCache w
        ∧ trace w' = trace w ++ [EvFs "mkdir" (path_dirname p) true; EvFs "writeFile" p true]
        ∧ ∀ q, is_dir w' q = true ↔
               is_dir w q = true ∨ (q `prefix_of` path_dirname p ∧ q ≠ []).
Proof.
  intros Hf Hd Hno.
  destruct (ensureDir_run (path_dirname p) w Hf Hno) as (w1 & Hrun & H1 & H2 & H3 & H4 & H5 & H6).
  assert (Hd1 : is_dir w1 p = false).
  { destruct (is_dir w1 p) eqn:E; [| reflexivity].
    apply H6 in E. destruct E as [E|[Hp Hne]]; [congruence |].
    exfalso. apply prefix_length in Hp. unfold path_dirname in Hp.
    destruct p as [|s p] using rev_ind; [now apply Hne, prefix_nil_inv |].
    rewrite removelast_last, length_app in Hp. cbn in Hp. lia. }
  assert (Hp1 : is_dir w1 (path_dirname p) = true).
  { apply H6. destruct (decide (path_dirname p = [])) as [E|E].
    - left. rewrite E. reflexivity.
    - right. split; [reflexivity | exact E]. }
  eexists. split.
  - unfold writeFileBuffer. erewrite bind_run by exact Hrun.
    apply fs_writeFile_run; assumption.
  - cbn. rewrite H1, H5, <- app_assoc. repeat split; try assumption; apply H6.
Qed.

(** C10. [generateOptimizedCSS] on an empty list of results does not
    fail: both totals are 0, [calculateReduction 0 0] divides zero by
    zero, and the header comment of the stylesheet that is written says
    "Average size reduction: NaN%". *)
Theorem generateOptimizedCSS_empty_reports_NaN :
  calculateReduction 0 0 = "NaN"
  ∧ calculateAverageReduction [] = "NaN"
  ∧ header_comments [] = ["Total fonts: 0"; "Average size reduction: NaN%"]
  ∧ ∀ outputPath w,
      faults w = [] → is_dir w outputPath = false → no_file_on w (path_dirname outputPath) →
      ∃ w', generateOptimizedCSS [] outputPath w = (Ok tt, w')
            ∧ files w' =
                <[outputPath :=
                    generateCSSFile [] ["Total fonts: 0"; "Average size reduction: NaN%"]]>
                  (files w).
Proof.
  split; [reflexivity |]. split; [reflexivity |]. split; [reflexivity |].
  intros outputPath w Hf Hd Hno.
  destruct (writeFileBuffer_run outputPath
              (generateCSSFile [] ["Total fonts: 0"; "Average size reduction: NaN%"])
              w Hf Hd Hno) as (w' & Hrun & Hfiles & _).
  exists w'. split; [exact Hrun | exact Hfiles].
Qed.

End Stylesheet.

(** ** The cache (utils/cache.ts) on a world without pending faults *)

Section Cache.
Context {P : Platform}.

Lemma FontCache_delete_run this inputPath w :
  faults w = [] →
  is_dir w (cachePath_of this inputPath) = false →
  ∃ w', FontCache_delete this inputPath w = (Ok tt, w')
        ∧ files w' = delete (cachePath_of this inputPath) (files w)
        ∧ dirs w' = dirs w ∧ clock w' = clock w ∧ faults w' = []
        ∧ globalCache w' = globalCache w.
Proof.
  intros Hf Hd. unfold FontCache_delete.
  destruct (files w !! cachePath_of this inputPath) as [data|] eqn:E.
  - eexists. split.
    + apply try_catch_run. erewrite bind_run by (apply fileExists_run; exact Hf).
      rewrite (exists_node_file _ _ _ E).
      apply (fs_unlink_run _ _ data); [exact Hf | exact Hd | exact E].
    + cbn. now repeat split.
  - eexists. split.
    + apply try_catch_run. erewrite bind_run by (apply fileExists_run; exact Hf).
      unfold exists_node, is_file. rewrite Hd, E. cbn. reflexivity.
    + cbn. repeat split; try assumption. symmetry. now apply delete_id.
Qed.

(** What [get] does once it has found the entry stale: delete it and
    report a miss. *)
Lemma drop_stale_run this inputPath w :
  faults w = [] →
  is_dir w (cachePath_of this inputPath) = false →
  ∃ w', (FontCache_delete this inputPath ;;; ret (@None OptimizationResult)) w = (Ok None, w')
        ∧ files w' = delete (cachePath_of this inputPath) (files w)
        ∧ dirs w' = dirs w ∧ clock w' = clock w ∧ faults w' = []
        ∧ globalCache w' = globalCache w.
Proof.
  intros Hf Hd.
  destruct (FontCache_delete_run this inputPath w Hf Hd) as (w' & Hrun & Hrest).
  exists w'. split; [| exact Hrest].
  erewrite bind_run by exact Hrun. reflexivity.
Qed.

(** The entry that [set] writes for a result. *)
Lemma JSON_parse_entry_run data entry w :
  JSON_parse data = Some entry → JSON_parse_entry data w = (Ok entry, w).
Proof. intros H. unfold JSON_parse_entry. now rewrite H. Qed.

(** C1. When the entry of an input path is stale, because the input
    file's bytes no longer have the hash kept in the entry or because the
    artifact the entry names is gone, [get] returns [None] and the entry
    file is removed; no other file changes. *)
Theorem FontCache_get_drops_stale_entry this inputPath w data entry content :
  faults w = [] →
  is_dir w (cachePath_of this inputPath) = false →
  files w !! cachePath_of this inputPath = Some data →
  JSON_parse data = Some entry →
  is_dir w inputPath = false →
  files w !! inputPath = Some content →
  md5hex content ≠ inputHash entry ∨ exists_node w (outputPath (result entry)) = false →
  ∃ w', FontCache_get this inputPath w = (Ok None, w')
        ∧ files w' = delete (cachePath_of this inputPath) (files w)
        ∧ dirs w' = dirs w.
Proof.
  intros Hf Hcd Hc Hparse Hid Hi Hstale.
  unfold FontCache_get.
  set (w1 := emit (EvCacheGet this inputPath) w).
  set (w2 := emit (EvFs "access" (cachePath_of this inputPath) true) w1).
  set (w3 := emit (EvFs "readFile" (cachePath_of this inputPath) true) w2).
  assert (Hhead : ∀ k : CacheEntry → M (option OptimizationResult),
            (modify (emit (EvCacheGet this inputPath)) ;;;
             let* found := fileExists (cachePath_of this inputPath) in
             if negb found then ret None else
             let* data := fs_readFile (cachePath_of this inputPath) in
             let* entry := JSON_parse_entry data in
             k entry) w = k entry w3).
  { intros k. erewrite bind_run by reflexivity.
    erewrite bind_run by (apply fileExists_run; exact Hf).
    rewrite exists_node_emit, (exists_node_file _ _ _ Hc). cbn [negb].
    erewrite bind_run by (apply (fs_readFile_run _ _ data); [exact Hf | exact Hcd | exact Hc]).
    erewrite bind_run by (apply JSON_parse_entry_run; exact Hparse).
    reflexivity. }
  destruct (String.eqb (version entry) cacheVersion) eqn:Hv.
  - destruct (String.eqb (inputHash entry) (md5hex content)) eqn:Hh.
    + (* the hash still matches: the artifact is gone *)
      apply String.eqb_eq in Hh.
      destruct Hstale as [Hne|Hgone]; [congruence |].
      set (w4 := emit (EvFs "readFile" inputPath true) w3).
      set (w5 := emit (EvFs "access" (outputPath (result entry)) false) w4).
      destruct (drop_stale_run this inputPath w5 Hf Hcd) as (w' & Hrun & H1 & H2 & _).
      exists w'. split; [| split; [exact H1 | exact H2]].
      apply try_catch_run. rewrite Hhead. rewrite Hv. cbn [negb].
      unfold getFileHash.
      erewrite bind_run.
      2:{ erewrite bind_run
            by (apply (fs_readFile_run _ _ content); [exact Hf | exact Hid | exact Hi]).
          reflexivity. }
      rewrite Hh, String.eqb_refl. cbn [negb].
      erewrite bind_run by (apply fileExists_run; exact Hf).
      subst w5 w4 w3 w2 w1. rewrite !exists_node_emit, Hgone. cbn [negb]. exact Hrun.
    + (* the hash differs *)
      set (w4 := emit (EvFs "readFile" inputPath true) w3).
      destruct (drop_stale_run this inputPath w4 Hf Hcd) as (w' & Hrun & H1 & H2 & _).
      exists w'. split; [| split; [exact H1 | exact H2]].
      apply try_catch_run. rewrite Hhead. rewrite Hv. cbn [negb].
      unfold getFileHash.
      erewrite bind_run.
      2:{ erewrite bind_run
            by (apply (fs_readFile_run _ _ content); [exact Hf | exact Hid | exact Hi]).
          reflexivity. }
      rewrite Hh. cbn [negb]. exact Hrun.
  - (* an entry of another cache version is dropped as well *)
    destruct (drop_stale_run this inputPath w3 Hf Hcd) as (w' & Hrun & H1 & H2 & _).
    exists w'. split; [| split; [exact H1 | exact H2]].
    apply try_catch_run. rewrite Hhead. rewrite Hv. cbn [negb]. exact Hrun.
Qed.

Lemma FontCache_get_hit_run this inputPath w data entry content :
  faults w = [] →
  is_dir w (cachePath_of this inputPath) = false →
  files w !! cachePath_of this inputPath = Some data →
  JSON_parse data = Some entry →
  version entry = cacheVersion →
  is_dir w inputPath = false →
  files w !! inputPath = Some content →
  md5hex content = inputHash entry →
  exists_node w (outputPath (result entry)) = true →
  ∃ r, FontCache_get this inputPath w = (Ok (Some r), emits (hit_events this inputPath entry) w)
       ∧ scalars r = entry_scalars entry.
Proof.
  intros Hf Hcd Hc Hparse Hv Hid Hi Hh Hout.
  destruct (fs_stat_run_exists (outputPath (result entry))
              (emits (firstn 6 (hit_events this inputPath entry)) w) Hf Hout)
    as (ostats & Hostat).
  eexists. split.
  - unfold FontCache_get. apply try_catch_run.
    erewrite bind_run by reflexivity.
    erewrite bind_run by (apply fileExists_run; exact Hf).
    rewrite exists_node_emit, (exists_node_file _ _ _ Hc). cbn [negb].
    erewrite bind_run by (apply (fs_readFile_run _ _ data); [exact Hf | exact Hcd | exact Hc]).
    erewrite bind_run by (apply JSON_parse_entry_run; exact Hparse).
    rewrite Hv, String.eqb_refl. cbn [negb].
    unfold getFileHash.
    erewrite bind_run.
    2:{ erewrite bind_run
          by (apply (fs_readFile_run _ _ content); [exact Hf | exact Hid | exact Hi]).
        reflexivity. }
    rewrite Hh, String.eqb_refl. cbn [negb].
    erewrite bind_run by (apply fileExists_run; exact Hf).
    rewrite !exists_node_emit, Hout. cbn [negb].
    erewrite bind_run.
    2:{ unfold entryToResult.
        erewrite bind_run
          by (apply (fs_stat_run _ _ content); [exact Hf | exact Hid | exact Hi]).
        erewrite bind_run by exact Hostat.
        reflexivity. }
    reflexivity.
  - reflexivity.
Qed.

Lemma cache_holds_hit w this inputPath sc :
  faults w = [] →
  cache_holds w this inputPath sc →
  ∃ r w', FontCache_get this inputPath w = (Ok (Some r), w')
          ∧ scalars r = sc
          ∧ same_fs w w' ∧ faults w' = []
          ∧ ∃ entry, trace w' = trace w ++ hit_events this inputPath entry.
Proof.
  intros Hf (data & entry & content & H1 & H2 & H3 & H4 & H5 & H6 & H7 & H8 & H9).
  destruct (FontCache_get_hit_run this inputPath w data entry content) as (r & Hrun & Hsc);
    try assumption.
  exists r, (emits (hit_events this inputPath entry) w).
  split; [exact Hrun |]. split; [congruence |]. split; [now repeat split |].
  split; [exact Hf |]. exists entry. cbn. now rewrite <- !app_assoc.
Qed.

Lemma path_dirname_join dir name : path_dirname (path_join dir name) = dir.
Proof. unfold path_dirname, path_join. apply removelast_last. Qed.

Lemma join_not_prefix dir name : ¬ path_join dir name `prefix_of` dir.
Proof.
  intros H. apply prefix_length in H. unfold path_join in H. rewrite length_app in H.
  cbn in H. lia.
Qed.

Lemma FontCache_set_run this inputPath r w content :
  faults w = [] →
  no_file_on w this →
  is_dir w (cachePath_of this inputPath) = false →
  is_dir w inputPath = false →
  files w !! inputPath = Some content →
  ∃ w', FontCache_set this inputPath r w = (Ok tt, w')
        ∧ files w' =
            <[cachePath_of this inputPath :=
                JSON_stringify (cache_entry_of r (md5hex content) (clock w))]> (files w)
        ∧ clock w' = clock w ∧ faults w' = [] ∧ globalCache w' = globalCache w
        ∧ (∀ q, is_dir w' q = true ↔ is_dir w q = true ∨ (q `prefix_of` this ∧ q ≠ []))
        ∧ trace w' = trace w ++ [EvCacheSet this inputPath; EvFs "mkdir" this true;
                                 EvFs "readFile" inputPath true;
                                 EvFs "writeFile" (cachePath_of this inputPath) true].
Proof.
  intros Hf Hno Hcd Hid Hi.
  destruct (ensureDir_run this (emit (EvCacheSet this inputPath) w) Hf Hno)
    as (w1 & Hrun & H1 & H2 & H3 & H4 & H5 & H6).
  assert (Hcd1 : is_dir w1 (cachePath_of this inputPath) = false).
  { destruct (is_dir w1 (cachePath_of this inputPath)) eqn:E; [| reflexivity].
    apply H6 in E. destruct E as [E|[E _]].
    - rewrite is_dir_emit in E. congruence.
    - now apply join_not_prefix in E. }
  assert (Hid1 : is_dir w1 inputPath = false).
  { destruct (is_dir w1 inputPath) eqn:E; [| reflexivity].
    apply H6 in E. destruct E as [E|[E _]].
    - rewrite is_dir_emit in E. congruence.
    - specialize (Hno _ E). rewrite (is_file_intro _ _ _ Hid Hi) in Hno. discriminate. }
  assert (Hthis : is_dir w1 this = true).
  { apply H6. destruct (decide (this = [])) as [->|Hne]; [now left | right]. now split. }
  eexists. split.
  - unfold FontCache_set. apply try_catch_run.
    erewrite bind_run by reflexivity.
    erewrite bind_run by exact Hrun.
    unfold getFileHash.
    erewrite bind_run.
    2:{ erewrite bind_run.
        2:{ apply (fs_readFile_run _ _ content); [exact H3 | exact Hid1 |].
            rewrite H1. exact Hi. }
        reflexivity. }
    erewrite bind_run by reflexivity.
    apply fs_writeFile_run; [exact H3 | exact Hcd1 |].
    unfold cachePath_of. rewrite path_dirname_join. exact Hthis.
  - cbn. rewrite H1, H2, H5. cbn. rewrite <- !app_assoc. cbn.
    repeat split; try assumption; apply H6.
Qed.

End Cache.

(** ** What a hit tells, under any pending faults *)

Section Hit.
Context {P : Platform}.

Lemma same_fs_files w w' p : same_fs w w' → files w' !! p = files w !! p.
Proof. intros (H & _). now rewrite H. Qed.

Lemma cache_holds_same_fs w w' this inputPath sc :
  files w' = files w → dirs w' = dirs w →
  cache_holds w this inputPath sc → cache_holds w' this inputPath sc.
Proof.
  intros Hf Hd (data & entry & content & H). exists data, entry, content.
  unfold exists_node, is_file, is_dir in *. now rewrite Hf, Hd.
Qed.

Lemma drop_stale_not_Some this inputPath w r w' :
  (FontCache_delete this inputPath ;;; ret (@None OptimizationResult)) w ≠ (Ok (Some r), w').
Proof.
  intros H. apply bind_Ok_inv in H as (a & w1 & _ & H). discriminate.
Qed.

Lemma entryToResult_Ok entry inputPath w r w' :
  entryToResult entry inputPath w = (Ok r, w') →
  scalars r = entry_scalars entry
  ∧ same_fs w w'
  ∧ faults w' = tail (tail (faults w))
  ∧ trace w' = trace w ++ [EvFs "stat" inputPath true;
                           EvFs "stat" (outputPath (result entry)) true].
Proof.
  unfold entryToResult. intros H.
  apply bind_Ok_inv in H as (s1 & w1 & Hs1 & H).
  apply bind_Ok_inv in H as (s2 & w2 & Hs2 & H).
  inversion H; subst. clear H.
  apply fs_stat_Ok in Hs1 as (Ha1 & Ha2 & Ha3 & _).
  apply fs_stat_Ok in Hs2 as (Hb1 & Hb2 & Hb3 & _).
  split; [reflexivity |]. split; [eapply same_fs_trans; eassumption |].
  split.
  - now rewrite Hb2, Ha2.
  - rewrite Hb3, Ha3, <- app_assoc. reflexivity.
Qed.

(** A lookup answers only when the cache holds a valid entry; it then
    changes nothing, and every one of its file-system calls succeeded. *)
Lemma FontCache_get_Some_inv this inputPath w r w' :
  FontCache_get this inputPath w = (Ok (Some r), w') →
  cache_holds w this inputPath (scalars r)
  ∧ same_fs w w'
  ∧ (faults w = [] → faults w' = [])
  ∧ ∃ entry, trace w' = trace w ++ hit_events this inputPath entry.
Proof.
  unfold FontCache_get, try_catch.
  match goal with |- context [match ?body w with _ => _ end] =>
    destruct (body w) as [[o|e] w0] eqn:Hbody end; [| discriminate].
  intros H. inversion H; subst o w0. clear H.
  apply bind_Ok_inv in Hbody as ([] & w1 & Hemit & Hbody).
  inversion Hemit; subst w1. clear Hemit.
  apply bind_Ok_inv in Hbody as (found & w2 & Hfound & Hbody).
  apply fileExists_inv in Hfound as (b & Hb & Hs2 & Hf2 & Ht2 & He2).
  inversion Hb; subst b. clear Hb.
  destruct found; cbn [negb] in Hbody; [| discriminate].
  apply bind_Ok_inv in Hbody as (data & w3 & Hread & Hbody).
  apply fs_readFile_Ok in Hread as (Hd3 & Hdata3 & Hs3 & Hf3 & Ht3).
  apply bind_Ok_inv in Hbody as (entry & w3' & Hparse & Hbody).
  unfold JSON_parse_entry in Hparse.
  destruct (JSON_parse data) as [entry'|] eqn:Hjson; [| discriminate].
  inversion Hparse; subst entry' w3'. clear Hparse.
  destruct (String.eqb (version entry) cacheVersion) eqn:Hv; cbn [negb] in Hbody.
  2:{ now apply drop_stale_not_Some in Hbody. }
  apply bind_Ok_inv in Hbody as (h & w4 & Hhash & Hbody).
  apply getFileHash_Ok in Hhash as (content & -> & Hd4 & Hc4 & Hs4 & Hf4 & Ht4).
  destruct (String.eqb (inputHash entry) (md5hex content)) eqn:Hh; cbn [negb] in Hbody.
  2:{ now apply drop_stale_not_Some in Hbody. }
  apply bind_Ok_inv in Hbody as (artifact & w5 & Hart & Hbody).
  apply fileExists_inv in Hart as (b & Hb & Hs5 & Hf5 & Ht5 & He5).
  inversion Hb; subst b. clear Hb.
  destruct artifact; cbn [negb] in Hbody.
  2:{ now apply drop_stale_not_Some in Hbody. }
  apply bind_Ok_inv in Hbody as (r' & w6 & Hres & Hbody).
  inversion Hbody; subst r' w6. clear Hbody.
  apply entryToResult_Ok in Hres as (Hsc & Hs6 & Hf6 & Ht6).
  apply String.eqb_eq in Hv, Hh.
  assert (S2 : same_fs w w2) by exact Hs2.
  assert (S3 : same_fs w w3) by (eapply same_fs_trans; eassumption).
  assert (S4 : same_fs w w4) by (eapply same_fs_trans; eassumption).
  assert (S5 : same_fs w w5) by (eapply same_fs_trans; eassumption).
  assert (S6 : same_fs w w') by (eapply same_fs_trans; eassumption).
  split; [| split; [exact S6 | split]].
  - exists data, entry, content.
    rewrite (same_fs_is_dir _ _ _ S2) in Hd3. rewrite (same_fs_files _ _ _ S2) in Hdata3.
    rewrite (same_fs_is_dir _ _ _ S3) in Hd4. rewrite (same_fs_files _ _ _ S3) in Hc4.
    specialize (He5 eq_refl). rewrite (same_fs_exists _ _ _ S4) in He5.
    repeat (split; [first [assumption | congruence] |]). congruence.
  - intros Hnil.
    assert (F2 : faults w2 = []) by (now apply (tail_nil_eq _ _ Hf2)).
    assert (F3 : faults w3 = []) by (now apply (tail_nil_eq _ _ Hf3)).
    assert (F4 : faults w4 = []) by (now apply (tail_nil_eq _ _ Hf4)).
    assert (F5 : faults w5 = []) by (now apply (tail_nil_eq _ _ Hf5)).
    rewrite Hf6, F5. reflexivity.
  - exists entry. rewrite Ht6, Ht5, Ht4, Ht3, Ht2. cbn. rewrite <- !app_assoc. reflexivity.
Qed.

End Hit.

(** ** The round trip of the cache *)

Section RoundTrip.
Context {P : Platform}.

(** What [JSON.parse] makes of the text [JSON.stringify] wrote for an
    entry: the entry (its fields are strings and integers). *)
Hypothesis JSON_roundtrip : ∀ e : CacheEntry, JSON_parse (JSON_stringify e) = Some e.

(** C2. [set(path, result)] followed at once by [get(path)], when the
    input file has the same bytes as before and the artifact the result
    names exists, returns a result with the same scalar fields: sizes,
    reduction, css, family, weight.  (The cache directory can be made and
    no directory stands at the place of the entry file.) *)
Theorem FontCache_set_get_roundtrip this inputPath r w content w1 :
  faults w = [] →
  no_file_on w this →
  is_dir w (cachePath_of this inputPath) = false →
  is_dir w inputPath = false →
  files w !! inputPath = Some content →
  FontCache_set this inputPath r w = (Ok tt, w1) →
  files w1 !! inputPath = Some content →
  exists_node w1 (fm_path (optimized r)) = true →
  ∃ r' w2, FontCache_get this inputPath w1 = (Ok (Some r'), w2)
           ∧ scalars r' = scalars r.
Proof.
  intros Hf Hno Hcd Hid Hi Hset Hsame Hout.
  destruct (FontCache_set_run this inputPath r w content Hf Hno Hcd Hid Hi)
    as (w' & Hrun & Hfiles & Hclock & Hf' & Hg & Hdirs & Htrace).
  rewrite Hrun in Hset. inversion Hset; subst w'. clear Hset.
  assert (Hcd1 : is_dir w1 (cachePath_of this inputPath) = false).
  { destruct (is_dir w1 (cachePath_of this inputPath)) eqn:E; [| reflexivity].
    apply Hdirs in E. destruct E as [E|[E _]]; [congruence |].
    now apply join_not_prefix in E. }
  assert (Hid1 : is_dir w1 inputPath = false).
  { destruct (is_dir w1 inputPath) eqn:E; [| reflexivity].
    apply Hdirs in E. destruct E as [E|[E _]]; [congruence |].
    specialize (Hno _ E). rewrite (is_file_intro _ _ _ Hid Hi) in Hno. discriminate. }
  destruct (FontCache_get_hit_run this inputPath w1
              (JSON_stringify (cache_entry_of r (md5hex content) (clock w)))
              (cache_entry_of r (md5hex content) (clock w)) content)
    as (r' & Hget & Hsc); try assumption; try reflexivity.
  - rewrite Hfiles. apply lookup_insert_eq.
  - apply JSON_roundtrip.
  - exists r', (emits (hit_events this inputPath (cache_entry_of r (md5hex content) (clock w))) w1).
    split; [exact Hget | exact Hsc].
Qed.

End RoundTrip.

(** ** Sweeping by age: [cleanOld] *)

Section CleanOld.
Context {P : Platform}.

Lemma child_name_join dir name : child_name dir (path_join dir name) = Some name.
Proof.
  unfold child_name, path_join. destruct (dir ++ [name]) eqn:E.
  - now apply app_eq_nil in E as [_ E].
  - rewrite <- E. unfold path_dirname, path_basename.
    rewrite removelast_last, last_last.
    now rewrite bool_decide_eq_true_2 by reflexivity.
Qed.

Lemma child_name_Some dir p name : child_name dir p = Some name → p = path_join dir name.
Proof.
  unfold child_name, path_join. destruct p as [|s q] eqn:E; [discriminate |].
  rewrite <- E. case_bool_decide as Hd; [| discriminate].
  intros H. inversion H. subst dir. unfold path_dirname, path_basename.
  apply app_removelast_last. now rewrite E.
Qed.

Lemma elem_of_children w dir name :
  name ∈ children w dir ↔
  is_Some (files w !! path_join dir name) ∨ path_join dir name ∈ dirs w.
Proof.
  unfold children. rewrite list_elem_of_omap. split.
  - intros (p & Hp & Hn). apply child_name_Some in Hn. subst p.
    apply elem_of_elements, elem_of_union in Hp as [Hp|Hp]; [left | now right].
    now apply elem_of_dom.
  - intros H. exists (path_join dir name). split; [| apply child_name_join].
    apply elem_of_elements, elem_of_union. destruct H as [H|H]; [left | now right].
    now apply elem_of_dom.
Qed.

Lemma NoDup_omap_inj {A B} (f : A → option B) (l : list A) :
  (∀ x y b, f x = Some b → f y = Some b → x = y) →
  NoDup l → NoDup (omap f l).
Proof.
  intros Hinj. induction 1 as [|x l Hx Hl IH]; cbn; [constructor |].
  destruct (f x) as [b|] eqn:E; [| exact IH].
  constructor; [| exact IH].
  rewrite list_elem_of_omap. intros (y & Hy & Hfy).
  assert (x = y) by (eapply Hinj; eauto). now subst y.
Qed.

Lemma NoDup_children w dir : NoDup (children w dir).
Proof.
  unfold children. apply NoDup_omap_inj; [| apply NoDup_elements].
  intros x y b Hx Hy. apply child_name_Some in Hx, Hy. congruence.
Qed.











End CleanOld.

(** ** The validation depends on the input file only *)

Section Determined.
Context {P : Platform}.
Variable C : World → Prop.
Variable Q : Event → Prop.
Hypothesis C_emit : ∀ ev w, C w → C (emit ev w).

Lemma C_emits evs : ∀ w, C w → C (emits evs w).
Proof.
  induction evs as [|ev evs IH]; intros w H; [exact H |].
  cbn. apply IH, C_emit, H.
Qed.

Lemma emits_app e1 e2 w : emits (e1 ++ e2) w = emits e2 (emits e1 w).
Proof. unfold emits. apply fold_left_app. Qed.

Lemma determined_ret {A} (a : A) : determined C Q (ret a).
Proof. exists (Ok a), []. split; [constructor | reflexivity]. Qed.

Lemma determined_throw {A} e : determined C Q (@throw A e).
Proof. exists (Throw e), []. split; [constructor | reflexivity]. Qed.

Lemma determined_bind {A B} (c : M A) (k : A → M B) :
  determined C Q c → (∀ a, determined C Q (k a)) → determined C Q (bind c k).
Proof.
  intros (r & e1 & F1 & H1) Hk. destruct r as [a|e].
  - destruct (Hk a) as (r2 & e2 & F2 & H2). exists r2, (e1 ++ e2).
    split; [now apply Forall_app_2' |]. intros w Hw.
    erewrite bind_run by (apply H1; exact Hw).
    rewrite emits_app. apply H2. now apply C_emits.
  - exists (Throw e), e1. split; [exact F1 |]. intros w Hw.
    apply bind_throw. now apply H1.
Qed.

Lemma determined_try_catch {A} (body : M A) handler :
  determined C Q body → (∀ e, determined C Q (handler e)) →
  determined C Q (try_catch body handler).
Proof.
  intros (r & e1 & F1 & H1) Hh. destruct r as [a|e].
  - exists (Ok a), e1. split; [exact F1 |]. intros w Hw.
    apply try_catch_run. now apply H1.
  - destruct (Hh e) as (r2 & e2 & F2 & H2). exists r2, (e1 ++ e2).
    split; [now apply Forall_app_2' |]. intros w Hw.
    erewrite try_catch_throw by (apply H1; exact Hw).
    rewrite emits_app. apply H2. now apply C_emits.
Qed.

Lemma determined_console level msg :
  Q (EvConsole level msg) → determined C Q (console level msg).
Proof.
  intros HQ. exists (Ok tt), [EvConsole level msg]. split; [now constructor | reflexivity].
Qed.

End Determined.

Section DeterminedValidation.
Context {P : Platform}.
Variables (p : path) (data : string).

Lemma reads_file_emit ev w : reads_file p data w → reads_file p data (emit ev w).
Proof. intros H. exact H. Qed.

Lemma determined_fs_existsSync : determined (reads_file p data) is_validation_event (fs_existsSync p).
Proof.
  exists (Ok true), [EvFs "access" p true]. split; [now constructor |].
  intros w (Hf & Hd & Hdata). rewrite fs_existsSync_run by exact Hf.
  now rewrite (exists_node_file _ _ _ Hdata).
Qed.

Lemma determined_fs_stat : determined (reads_file p data) is_validation_event (fs_stat p).
Proof.
  exists (Ok (mkStats true (Z.of_nat (String.length data)))), [EvFs "stat" p true].
  split; [now constructor |].
  intros w (Hf & Hd & Hdata). now apply fs_stat_run.
Qed.

Lemma determined_fs_readFile : determined (reads_file p data) is_validation_event (fs_readFile p).
Proof.
  exists (Ok data), [EvFs "readFile" p true]. split; [now constructor |].
  intros w (Hf & Hd & Hdata). now apply fs_readFile_run.
Qed.

Lemma determined_validateOptimizationOptions_fields options :
  determined (reads_file p data) is_validation_event (validateOptimizationOptions_fields options).
Proof.
  unfold validateOptimizationOptions_fields.
  case_bool_decide; [apply determined_throw |].
  destruct (truthy_str (format options) && _); [apply determined_throw |].
  apply determined_bind; [apply reads_file_emit | |].
  { destruct (o_fontWeight options) as [weight|]; [| apply determined_ret].
    destruct ((weight <? 100) || (weight >? 900));
      [apply determined_throw | apply determined_ret]. }
  intros _. destruct (truthy_str (o_fontStyle options) && _); [apply determined_throw |].
  cbv zeta. destruct (truthy_str (fontDisplay options) && _);
    [apply determined_throw | apply determined_ret].
Qed.

Lemma determined_validateFontFile : determined (reads_file p data) is_validation_event (validateFontFile p).
Proof.
  unfold validateFontFile.
  apply determined_bind; [apply reads_file_emit | apply determined_fs_readFile |].
  intros buffer. cbv zeta.
  repeat match goal with
         | |- determined _ _ (if ?b then _ else _) => destruct b
         end; first [apply determined_throw | apply determined_ret].
Qed.

Lemma determined_optimizeFont_validate options :
  inputPath options = p → determined (reads_file p data) is_validation_event (optimizeFont_validate options).
Proof.
  intros Hp. unfold optimizeFont_validate.
  apply determined_try_catch; [apply reads_file_emit | |].
  2:{ intros e. destruct (is_validation_error e); apply determined_throw. }
  apply determined_bind; [apply reads_file_emit | |].
  2:{ intros _. rewrite Hp. apply determined_validateFontFile. }
  unfold validateOptimizationOptions. rewrite Hp.
  case_bool_decide; [apply determined_throw |].
  apply determined_bind; [apply reads_file_emit | apply determined_fs_existsSync |].
  intros found. destruct (negb found); [apply determined_throw |].
  cbv zeta. destruct (negb (includes SUPPORTED_FORMATS _)); [apply determined_throw |].
  apply determined_bind; [apply reads_file_emit | apply determined_fs_stat |].
  intros stats. destruct (negb (st_isFile stats)); [apply determined_throw |].
  destruct (st_size stats =? 0); [apply determined_throw |].
  apply determined_bind; [apply reads_file_emit | |].
  - destruct (st_size stats >? MAX_RECOMMENDED_SIZE); [| apply determined_ret].
    now apply determined_console.
  - intros _. apply determined_validateOptimizationOptions_fields.
Qed.

End DeterminedValidation.

Section ValidationFacts.
Context {P : Platform}.

(** A request that passes the validation has a regular file with a font
    extension as its input. *)
Lemma optimizeFont_validate_Ok_inv options w w' :
  optimizeFont_validate options w = (Ok tt, w') →
  is_dir w (inputPath options) = false
  ∧ (∃ data, files w !! inputPath options = Some data)
  ∧ includes SUPPORTED_FORMATS (toLowerCase (path_extname (inputPath options))) = true.
Proof.
  unfold optimizeFont_validate, try_catch.
  match goal with |- context [match ?body w with _ => _ end] =>
    destruct (body w) as [[[]|e] w0] eqn:Hbody end.
  2:{ destruct (is_validation_error e); discriminate. }
  intros _. apply bind_Ok_inv in Hbody as ([] & w1 & Hopt & _).
  unfold validateOptimizationOptions in Hopt.
  case_bool_decide; [discriminate |].
  apply bind_Ok_inv in Hopt as (found & w2 & Hfound & Hopt).
  destruct (negb found); [discriminate |].
  cbv zeta in Hopt.
  destruct (includes SUPPORTED_FORMATS (toLowerCase (path_extname (inputPath options))));
    cbn [negb] in Hopt; [| discriminate].
  apply bind_Ok_inv in Hopt as (stats & w3 & Hstat & Hopt).
  destruct (st_isFile stats) eqn:Hfile; cbn [negb] in Hopt; [| discriminate].
  apply fs_stat_Ok in Hstat as (Hs & _ & _ & Hfacts).
  destruct (Hfacts Hfile) as (Hd & data & Hdata & _).
  apply fileExists_inv in Hfound as (b & _ & Hs2 & _).
  rewrite (same_fs_is_dir _ _ _ Hs2) in Hd. rewrite (same_fs_files _ _ _ Hs2) in Hdata.
  split; [exact Hd |]. split; [eauto | reflexivity].
Qed.

Lemma emits_same_fs evs : ∀ w, same_fs w (emits evs w).
Proof.
  induction evs as [|ev evs IH]; intros w; [apply same_fs_refl |].
  cbn. eapply same_fs_trans; [| apply IH]. apply same_fs_emit, same_fs_refl.
Qed.

Lemma emits_faults evs : ∀ w, faults (emits evs w) = faults w.
Proof. induction evs as [|ev evs IH]; intros w; [reflexivity |]. cbn. now rewrite IH. Qed.

Lemma emits_trace evs : ∀ w, trace (emits evs w) = trace w ++ evs.
Proof.
  induction evs as [|ev evs IH]; intros w; [now rewrite app_nil_r |].
  cbn. rewrite IH. cbn. now rewrite <- app_assoc.
Qed.

(** A request accepted in one world is accepted in every world where its
    input file has the same bytes. *)
Lemma optimizeFont_validate_transfer options w0 w0' w1 :
  faults w0 = [] → faults w1 = [] →
  optimizeFont_validate options w0 = (Ok tt, w0') →
  files w1 !! inputPath options = files w0 !! inputPath options →
  is_dir w1 (inputPath options) = false →
  ∃ evs, Forall is_validation_event evs
         ∧ optimizeFont_validate options w1 = (Ok tt, emits evs w1).
Proof.
  intros Hf0 Hf1 Hok Hsame Hd1.
  destruct (optimizeFont_validate_Ok_inv _ _ _ Hok) as (Hd0 & (data & Hdata) & _).
  destruct (determined_optimizeFont_validate (inputPath options) data options eq_refl)
    as (r & evs & Hev & Hrun).
  assert (H0 := Hrun w0 (conj Hf0 (conj Hd0 Hdata))).
  rewrite Hok in H0. inversion H0; subst r.
  exists evs. split; [exact Hev |]. apply Hrun.
  split; [exact Hf1 |]. split; [exact Hd1 |]. now rewrite Hsame.
Qed.

End ValidationFacts.

(** ** A request whose subsets give no character *)

Section NoCharacters.
Context {P : Platform}.

Lemma includes_cases (l : list string) op : includes l op = true → In op l.
Proof.
  unfold includes. intros H. apply existsb_exists in H as (x & Hx & He).
  apply String.eqb_eq in He. now subst.
Qed.

Lemma lookup_event_quiet ev : lookup_event ev = true → quiet ev.
Proof.
  destruct ev as [op p b| | | |]; unfold lookup_event, quiet, is_engine_call, makes_file;
    try discriminate; try (intros _; now split).
  intros H. apply includes_cases in H. cbn in H.
  destruct H as [<-|[<-|[<-|[<-|[]]]]]; now split.
Qed.

Lemma validation_event_quiet ev : validation_event ev = true → quiet ev.
Proof.
  destruct ev as [op p b| | | |]; unfold validation_event, quiet, is_engine_call, makes_file;
    try discriminate; try (intros _; now split).
  intros H. apply includes_cases in H. cbn in H.
  destruct H as [<-|[<-|[<-|[]]]]; now split.
Qed.

Lemma getSubsetCharacters_from_unrecognized subs : ∀ characters,
  Forall (fun s => assoc s SUBSET_CONFIGS = None) subs →
  getSubsetCharacters_from characters subs = Ok characters
  ∨ ∃ e, getSubsetCharacters_from characters subs = Throw e.
Proof.
  induction subs as [|s subs IH]; intros characters H; [now left |].
  apply Forall_cons in H as [Hs H]. cbn [getSubsetCharacters_from].
  unfold SUBSET_CONFIGS_get. rewrite Hs.
  destruct (existsb (String.eqb s) Object_prototype_keys); [right; eauto | now apply IH].
Qed.

(** An empty list of subsets, or one that names no subset of the
    table, gives no character. *)
Lemma unrecognized_no_characters subs :
  Forall (fun s => assoc s SUBSET_CONFIGS = None) subs → no_characters subs.
Proof.
  intros H. unfold no_characters, getSubsetCharacters.
  destruct (getSubsetCharacters_from_unrecognized subs [] H) as [E|[e E]]; now rewrite E.
Qed.

(** Without characters, the part of [optimizeFont] that runs on a miss
    always throws. *)
Lemma optimizeFont_miss_no_characters options w :
  no_characters (default DEFAULT_SUBSETS (subsets options)) →
  ∃ e w', optimizeFont_miss options w = (Throw e, w').
Proof.
  intros Hno. unfold optimizeFont_miss, try_catch.
  match goal with |- context [match ?body w with _ => _ end] =>
    assert (Hbody : ∃ e w1, body w = (Throw e, w1)) end.
  { unfold bind at 1. destruct (getFontMetadata (inputPath options) w) as [[meta|e] w1]; [| eauto].
    unfold bind at 1. destruct (readFileBuffer (inputPath options) w1) as [[buffer|e] w2]; [| eauto].
    destruct (Nat.eqb (String.length buffer) 0); [unfold throw; eauto |].
    unfold no_characters in Hno. unfold bind at 1. unfold lift.
    destruct (getSubsetCharacters (default DEFAULT_SUBSETS (subsets options)))
      as [[|c chars]|e]; [| contradiction |].
    - cbn [length Nat.eqb]. unfold throw. eauto.
    - eauto. }
  destruct Hbody as (e & w1 & ->).
  destruct (is_FontOptimizationError e); unfold throw; eauto.
Qed.

Section MissKeeps.
Context {R : World → World → Prop} `{!Stable R}.
Hypothesis reads_permitted : ∀ ev, validation_event ev = true → permits R ev.

Lemma keeps_optimizeFont_miss_no_characters options :
  no_characters (default DEFAULT_SUBSETS (subsets options)) →
  keeps R (optimizeFont_miss options).
Proof.
  intros Hno. unfold optimizeFont_miss.
  apply keeps_try_catch.
  2:{ intros e. destruct (is_FontOptimizationError e); apply keeps_throw. }
  apply keeps_bind.
  { apply keeps_bind; [apply keeps_fs_stat; intros; now apply reads_permitted |].
    intros; apply keeps_ret. }
  intros meta. apply keeps_bind.
  { apply keeps_fs_readFile; intros; now apply reads_permitted. }
  intros buffer. destruct (Nat.eqb (String.length buffer) 0); [apply keeps_throw |].
  unfold no_characters in Hno.
  destruct (getSubsetCharacters (default DEFAULT_SUBSETS (subsets options)))
    as [[|c chars]|e]; [| contradiction |].
  - intros w. unfold bind, lift. cbn [length Nat.eqb]. apply stable_refl.
  - intros w. unfold bind, lift. apply stable_refl.
Qed.

End MissKeeps.

Lemma keeps_optimizeFont_no_characters (R : World → World → Prop) `{!Stable R} options :
  (∀ ev, validation_event ev = true → permits R ev) →
  (∀ ev, lookup_event ev = true → permits R ev) →
  allows_instance R →
  (∀ this, allows_unlink R (cachePath_of this (inputPath options))) →
  no_characters (default DEFAULT_SUBSETS (subsets options)) →
  keeps R (optimizeFont options).
Proof.
  intros Hv Hl Hg Hun Hno. unfold optimizeFont.
  apply keeps_bind; [now apply keeps_optimizeFont_validate |]. intros _.
  apply keeps_bind; [now apply keeps_optimizeFont_lookup |]. intros cached.
  destruct cached; [apply keeps_ret | now apply keeps_optimizeFont_miss_no_characters].
Qed.

(** C8 (amended). A request whose subset names give no character (an
    empty list, or names that are not in the table) is never transformed:
    [optimizeFont] does not call the engine and writes no file.  It
    throws, unless caching is enabled and the cache holds a valid entry
    for the input path: a result that is returned has the scalar fields
    of such an entry.
    The validation itself does not look at the subset list. *)
Theorem optimizeFont_without_characters options w res w' :
  no_characters (default DEFAULT_SUBSETS (subsets options)) →
  optimizeFont options w = (res, w') →
  only quiet w w'
  ∧ no_new_file w w'
  ∧ (∀ r, res = Ok r →
          default true (cache options) = true
          ∧ ∃ this, cache_holds w this (inputPath options) (scalars r))
  ∧ (default true (cache options) = false → ∃ e, res = Throw e)
  ∧ (∀ subs, optimizeFont_validate (with_subsets subs options)
             = optimizeFont_validate options).
Proof.
  intros Hno Hrun.
  assert (Hhit : ∀ r, res = Ok r →
            default true (cache options) = true
            ∧ ∃ this, cache_holds w this (inputPath options) (scalars r)).
  { intros r ->. unfold optimizeFont in Hrun.
    apply bind_Ok_inv in Hrun as ([] & w1 & Hval & Hrun).
    apply bind_Ok_inv in Hrun as (cached & w2 & Hlook & Hrun).
    destruct cached as [c|].
    - inversion Hrun; subst c w2. clear Hrun. unfold optimizeFont_lookup in Hlook.
      destruct (default true (cache options)); [| discriminate].
      split; [reflexivity |].
      apply bind_Ok_inv in Hlook as (this & w3 & Hg & Hget).
      exists this.
      apply FontCache_get_Some_inv in Hget as (Hholds & _).
      assert (Hs : same_fs w w1).
      { eapply keeps_run; [| exact Hval]. apply keeps_optimizeFont_validate.
        intros; apply same_fs_permits. }
      destruct Hs as (Hf1 & Hd1 & _).
      assert (Hf3 : files w3 = files w1 ∧ dirs w3 = dirs w1).
      { unfold getGlobalCache in Hg. destruct (globalCache w1).
        - destruct (truthy_path (cacheDir options) && _); inversion Hg; subst; now split.
        - inversion Hg; subst; now split. }
      destruct Hf3 as (Hf3 & Hd3).
      apply (cache_holds_same_fs w3); [congruence | congruence | exact Hholds].
    - destruct (optimizeFont_miss_no_characters options w2 Hno) as (e & w3 & E).
      rewrite E in Hrun. discriminate. }
  split; [| split; [| split; [exact Hhit | split]]].
  - eapply keeps_run; [| exact Hrun].
    apply (keeps_optimizeFont_no_characters (only quiet));
      [| | apply only_allows_instance | intros; apply only_allows_unlink | exact Hno];
      intros ev Hev; apply only_permits.
    + now apply validation_event_quiet.
    + now apply lookup_event_quiet.
  - eapply keeps_run; [| exact Hrun].
    apply (keeps_optimizeFont_no_characters no_new_file);
      [| | apply no_new_file_allows_instance | intros; apply no_new_file_allows_unlink
       | exact Hno];
      intros ev _; apply no_new_file_permits.
  - intros Hoff. destruct res as [r|e]; [| eauto].
    destruct (Hhit r eq_refl) as (Hon & _). congruence.
  - intros subs. reflexivity.
Qed.

End NoCharacters.

(** ** Two calls of [optimizeFont] *)

Section TwoCalls.
Context {P : Platform}.

Lemma getGlobalCache_inv cacheDir w this w' :
  getGlobalCache cacheDir w = (Ok this, w') →
  globalCache w' = Some this
  ∧ (truthy_path cacheDir = true → cacheDir = Some this)
  ∧ files w' = files w ∧ dirs w' = dirs w ∧ faults w' = faults w ∧ trace w' = trace w.
Proof.
  unfold getGlobalCache. destruct (globalCache w) as [g|] eqn:Hg.
  - destruct (truthy_path cacheDir) eqn:Ht; cbn [andb].
    + case_bool_decide as Heq; cbn [negb]; intros H; inversion H; subst.
      * rewrite Hg. now repeat split.
      * cbn. repeat split. intros _. destruct cacheDir; [reflexivity | discriminate].
    + intros H. inversion H; subst. rewrite Hg. repeat split. discriminate.
  - intros H. inversion H; subst. cbn. repeat split.
    intros Ht. destruct cacheDir; [reflexivity | discriminate].
Qed.

Lemma getGlobalCache_same cacheDir w this :
  globalCache w = Some this →
  (truthy_path cacheDir = true → cacheDir = Some this) →
  getGlobalCache cacheDir w = (Ok this, w).
Proof.
  intros Hg Hres. unfold getGlobalCache. rewrite Hg.
  destruct (truthy_path cacheDir); cbn [andb]; [| reflexivity].
  rewrite (Hres eq_refl). now rewrite bool_decide_eq_true_2.
Qed.

(** The name of an entry file has no font extension. *)
Lemma last_dot_cons c s :
  last_dot (String c s) =
    match last_dot s with
    | Some (a, b) => Some (String c a, b)
    | None => if Ascii.eqb c "." then Some (EmptyString, String c s) else None
    end.
Proof. reflexivity. Qed.

Lemma last_dot_json k : last_dot (k +:+ ".json") = Some (k, ".json").
Proof.
  induction k as [|c k IH]; [reflexivity |].
  change (String c k +:+ ".json") with (String c (k +:+ ".json")).
  now rewrite last_dot_cons, IH.
Qed.

Lemma extname_json k :
  extname_of (k +:+ ".json") = EmptyString ∨ extname_of (k +:+ ".json") = ".json".
Proof.
  unfold extname_of. destruct (String.eqb (k +:+ ".json") ".."); [now left |].
  rewrite last_dot_json. destruct k; [now left | now right].
Qed.

Lemma cachePath_not_font this inputPath :
  includes SUPPORTED_FORMATS (toLowerCase (path_extname inputPath)) = true →
  cachePath_of this inputPath ≠ inputPath.
Proof.
  intros Hext Heq. rewrite <- Heq in Hext. unfold cachePath_of, path_join in Hext.
  unfold path_extname, path_basename in Hext. rewrite last_last in Hext.
  destruct (extname_json (getCacheKey inputPath)) as [E|E]; rewrite E in Hext; discriminate.
Qed.

(** [set], seen from the world it leaves: when there the cache directory
    is free of regular files on its way, no directory stands at the entry
    file and the input is a regular file, the entry has been written. *)
Lemma FontCache_set_final this inputPath r w w' content :
  faults w = [] →
  FontCache_set this inputPath r w = (Ok tt, w') →
  cachePath_of this inputPath ≠ inputPath →
  no_file_on w' this →
  is_dir w' (cachePath_of this inputPath) = false →
  is_dir w' inputPath = false →
  files w' !! inputPath = Some content →
  files w' = <[cachePath_of this inputPath :=
                 JSON_stringify (cache_entry_of r (md5hex content) (clock w))]> (files w)
  ∧ faults w' = [] ∧ globalCache w' = globalCache w.
Proof.
  intros Hf Hset Hne Hno Hcd Hid Hi.
  assert (Hev : ∀ (R : World → World → Prop), (∀ ev, permits R ev) →
            ∀ ev, is_engine_call ev = false → permits R ev) by auto.
  assert (Hno0 : no_file_on w this).
  { intros q Hq. destruct (is_file w q) eqn:E; [| reflexivity].
    assert (K : stays_file q w w').
    { eapply keeps_run; [| exact Hset]. apply keeps_FontCache_set.
      - apply Hev, stays_file_permits.
      - apply stays_file_allows_mkdir.
      - apply stays_file_allows_write. }
    specialize (Hno q Hq). now rewrite (K E) in Hno. }
  assert (Hdir : ∀ q, is_dir w' q = false → is_dir w q = false).
  { intros q Hq. destruct (is_dir w q) eqn:E; [| reflexivity].
    assert (K : stays_dir q w w').
    { eapply keeps_run; [| exact Hset]. apply keeps_FontCache_set.
      - apply Hev, stays_dir_permits.
      - apply stays_dir_allows_mkdir.
      - apply stays_dir_allows_write. }
    rewrite (K E) in Hq. discriminate. }
  assert (Hi0 : files w !! inputPath = Some content).
  { assert (K : same_content inputPath w w').
    { eapply keeps_run; [| exact Hset]. apply keeps_FontCache_set.
      - apply Hev, same_content_permits.
      - intros w0 d _. reflexivity.
      - now apply same_content_allows_write. }
    unfold same_content in K. now rewrite <- K. }
  destruct (FontCache_set_run this inputPath r w content Hf Hno0 (Hdir _ Hcd) (Hdir _ Hid) Hi0)
    as (w'' & Hrun & Hfiles & Hclock & Hf' & Hg & _).
  rewrite Hrun in Hset. inversion Hset; subst w''. now repeat split.
Qed.

Lemma fs_writeFile_Ok p data w w' :
  fs_writeFile p data w = (Ok tt, w') →
  files w' = <[p := data]> (files w) ∧ dirs w' = dirs w.
Proof.
  intros H. apply fs_call_Ok in H as (_ & w2 & Hsem & ->).
  destruct (same_fs_pop w) as (Hpf & Hpd & _).
  destruct (is_dir (pop_fault w) p); [discriminate |].
  destruct (is_dir (pop_fault w) (path_dirname p)).
  - inversion Hsem; subst. cbn. now rewrite Hpf, Hpd.
  - destruct (is_file (pop_fault w) (path_dirname p)); discriminate.
Qed.

Lemma engine_calls_app e1 e2 : engine_calls (e1 ++ e2) = (engine_calls e1 + engine_calls e2)%nat.
Proof. unfold engine_calls. now rewrite filter_app, length_app. Qed.

Lemma engine_calls_none evs : Forall not_engine evs → engine_calls evs = 0%nat.
Proof.
  unfold engine_calls. induction 1 as [|ev evs Hev _ IH]; [reflexivity |].
  rewrite filter_cons. unfold not_engine in Hev. rewrite decide_False by congruence. exact IH.
Qed.

Lemma engine_calls_only w w' :
  only not_engine w w' → engine_calls (trace w') = engine_calls (trace w).
Proof.
  intros (evs & -> & Hev). rewrite engine_calls_app, (engine_calls_none evs Hev). lia.
Qed.

Lemma not_engine_permits ev : is_engine_call ev = false → permits (only not_engine) ev.
Proof. intros H. now apply only_permits. Qed.

Lemma getFontMetadata_Ok filePath w meta w' :
  getFontMetadata filePath w = (Ok meta, w') →
  fm_path meta = filePath ∧ same_fs w w'.
Proof.
  unfold getFontMetadata. intros H. apply bind_Ok_inv in H as (stats & w1 & Hstat & H).
  inversion H; subst. split; [reflexivity |]. now apply fs_stat_Ok in Hstat.
Qed.

(** What a successful pass through the transformation leaves: the
    artifact in place, one call of the engine, and the call of [set]. *)
Lemma optimizeFont_miss_Ok_inv options w r w' :
  optimizeFont_miss options w = (Ok r, w') →
  ∃ w5,
    nofault w w5
    ∧ engine_calls (trace w5) = S (engine_calls (trace w))
    ∧ is_Some (files w5 !! fm_path (optimized r))
    ∧ (if default true (cache options)
       then ∃ this wg,
              getGlobalCache (cacheDir options) w5 = (Ok this, wg)
              ∧ FontCache_set this (inputPath options) r wg = (Ok tt, w')
       else w' = w5).
Proof.
  unfold optimizeFont_miss, try_catch.
  match goal with |- context [match ?body w with _ => _ end] =>
    destruct (body w) as [[r0|e] w0] eqn:Hbody end.
  2:{ destruct (is_FontOptimizationError e); discriminate. }
  intros H. inversion H; subst r0 w0. clear H.
  cbv zeta in Hbody.
  apply bind_Ok_inv in Hbody as (meta & w1 & Hmeta & Hbody).
  apply bind_Ok_inv in Hbody as (buffer & w2 & Hread & Hbody).
  destruct (Nat.eqb (String.length buffer) 0); [discriminate |].
  apply bind_Ok_inv in Hbody as (chars & w2' & Hlift & Hbody).
  unfold lift in Hlift. inversion Hlift; subst w2'. clear Hlift.
  destruct (Nat.eqb (length chars) 0); [discriminate |].
  apply bind_Ok_inv in Hbody as (sb & w3 & Heng & Hbody).
  unfold try_catch in Heng.
  match type of Heng with context [call_subsetFont ?b ?t ?f w2] =>
    destruct (call_subsetFont b t f w2) as [[sb'|e] w3'] eqn:Hcall end; [| discriminate].
  inversion Heng; subst sb' w3'. clear Heng.
  unfold call_subsetFont, bind, modify in Hcall.
  match type of Hcall with context [subsetFont ?b ?t ?f] =>
    destruct (subsetFont b t f) as [sb'|msg]; [| discriminate];
    set (ev := EvSubset b t f) in * end.
  inversion Hcall; subst sb' w3. clear Hcall.
  destruct (Nat.eqb (String.length sb) 0); [discriminate |].
  apply bind_Ok_inv in Hbody as ([] & w4 & Hwrite & Hbody).
  apply bind_Ok_inv in Hbody as (ometa & w5 & Hometa & Hbody).
  apply bind_Ok_inv in Hbody as ([] & w6 & Hcache & Hbody).
  inversion Hbody; subst r w6. clear Hbody. cbn [optimized].
  assert (Hev : ∀ (R : World → World → Prop), (∀ ev, permits R ev) →
            ∀ ev, is_engine_call ev = false → permits R ev) by auto.
  exists w5. split; [| split; [| split]].
  - (* no pending fault appears *)
    assert (K1 : nofault w w1).
    { eapply keeps_run; [| exact Hmeta]. apply keeps_getFontMetadata, Hev, nofault_permits. }
    assert (K2 : nofault w1 w2).
    { eapply keeps_run; [| exact Hread]. apply keeps_fs_readFile. intros; apply nofault_permits. }
    assert (K4 : nofault (emit ev w2) w4).
    { eapply keeps_run; [| exact Hwrite]. apply keeps_writeFileBuffer.
      - intros; apply nofault_permits.
      - apply nofault_allows_mkdir.
      - intros; apply nofault_permits.
      - apply nofault_allows_write. }
    assert (K5 : nofault w4 w5).
    { eapply keeps_run; [| exact Hometa]. apply keeps_getFontMetadata, Hev, nofault_permits. }
    unfold nofault in *. intros Hf. apply K5, K4, K2, K1, Hf.
  - (* one call of the engine *)
    assert (K1 : only not_engine w w1).
    { eapply keeps_run; [| exact Hmeta]. apply keeps_getFontMetadata, not_engine_permits. }
    assert (K2 : only not_engine w1 w2).
    { eapply keeps_run; [| exact Hread]. apply keeps_fs_readFile.
      intros; now apply not_engine_permits. }
    assert (K4 : only not_engine (emit ev w2) w4).
    { eapply keeps_run; [| exact Hwrite]. apply keeps_writeFileBuffer.
      - intros; now apply not_engine_permits.
      - apply only_allows_mkdir.
      - intros; now apply not_engine_permits.
      - apply only_allows_write. }
    assert (K5 : only not_engine w4 w5).
    { eapply keeps_run; [| exact Hometa]. apply keeps_getFontMetadata, not_engine_permits. }
    rewrite (engine_calls_only _ _ K5), (engine_calls_only _ _ K4).
    cbn [trace emit]. rewrite engine_calls_app.
    rewrite (engine_calls_only _ _ K2), (engine_calls_only _ _ K1).
    subst ev. unfold engine_calls at 2. rewrite filter_cons, filter_nil.
    rewrite decide_True by reflexivity. cbn [length]. lia.
  - (* the artifact is there *)
    apply getFontMetadata_Ok in Hometa as (-> & Hs5).
    rewrite (same_fs_files _ _ _ Hs5).
    unfold writeFileBuffer in Hwrite.
    apply bind_Ok_inv in Hwrite as ([] & w3' & _ & Hwrite).
    apply fs_writeFile_Ok in Hwrite as (-> & _). rewrite lookup_insert_eq. eauto.
  - destruct (default true (cache options)).
    + apply bind_Ok_inv in Hcache as (this & wg & Hg & Hset). eauto.
    + now inversion Hcache.
Qed.

Lemma stays_file_allows_unlink q p : p ≠ q → allows_unlink (stays_file q) p.
Proof.
  intros Hne w. unfold stays_file, is_file. cbn. now rewrite lookup_delete_ne.
Qed.

Lemma stays_file_allows_instance q : allows_instance (stays_file q).
Proof. intros w g. unfold stays_file. auto. Qed.

Lemma same_instance_permits ev : permits same_instance ev.
Proof. intros w. reflexivity. Qed.

Lemma same_instance_allows_mkdir : allows_mkdir same_instance.
Proof. intros w d _. reflexivity. Qed.

Lemma same_instance_allows_write p : allows_write same_instance p.
Proof. intros w data. reflexivity. Qed.

Lemma keeps_optimizeFont_miss (R : World → World → Prop) `{!Stable R} options :
  (∀ ev, permits R ev) → allows_mkdir R → (∀ p, allows_write R p) → allows_instance R →
  keeps R (optimizeFont_miss options).
Proof.
  intros Hev Hmk Hwr Hg. unfold optimizeFont_miss.
  apply keeps_try_catch.
  2:{ intros e. destruct (is_FontOptimizationError e); apply keeps_throw. }
  apply keeps_bind; [apply keeps_getFontMetadata; auto |]. intros meta. cbv zeta.
  apply keeps_bind; [apply keeps_fs_readFile; auto |]. intros buffer.
  destruct (Nat.eqb (String.length buffer) 0); [apply keeps_throw |].
  apply keeps_bind; [apply keeps_lift |]. intros chars.
  destruct (Nat.eqb (length chars) 0); [apply keeps_throw |].
  apply keeps_bind.
  { apply keeps_try_catch; [| intros e; apply keeps_throw].
    apply keeps_bind; [apply keeps_emit, Hev |]. intros _.
    match goal with |- keeps R (match ?x with _ => _ end) => destruct x end;
      [apply keeps_ret | apply keeps_throw]. }
  intros sb. destruct (Nat.eqb (String.length sb) 0); [apply keeps_throw |].
  apply keeps_bind; [apply keeps_writeFileBuffer; auto |]. intros _.
  apply keeps_bind; [apply keeps_getFontMetadata; auto |]. intros ometa.
  apply keeps_bind; [| intros; apply keeps_ret].
  destruct (default true (cache options)); [| apply keeps_ret].
  apply keeps_bind; [now apply keeps_getGlobalCache |]. intros this.
  apply keeps_FontCache_set; auto.
Qed.

Lemma is_file_inv w p : is_file w p = true → is_dir w p = false ∧ is_Some (files w !! p).
Proof.
  unfold is_file. intros H. apply andb_true_iff in H as [H1 H2].
  apply negb_true_iff in H1. now apply bool_decide_eq_true in H2.
Qed.

Lemma hit_events_not_engine this inputPath entry :
  Forall not_engine (hit_events this inputPath entry).
Proof. unfold hit_events. repeat constructor. Qed.

Lemma validation_events_not_engine evs :
  Forall is_validation_event evs → Forall not_engine evs.
Proof.
  intros H. eapply Forall_impl; [exact H |].
  intros ev Hev. now apply validation_event_not_engine.
Qed.

(** *** The second call *)

(** With a valid entry in the cache of the current instance, a request
    that passes the validation gets the scalars of the entry, and the
    engine is not called. *)
Lemma second_call_hits options w this sc :
  faults w = [] →
  default true (cache options) = true →
  globalCache w = Some this →
  (truthy_path (cacheDir options) = true → cacheDir options = Some this) →
  cache_holds w this (inputPath options) sc →
  passes_validation options w →
  ∃ r w', optimizeFont options w = (Ok r, w')
          ∧ scalars r = sc
          ∧ engine_calls (trace w') = engine_calls (trace w)
          ∧ same_fs w w'.
Proof.
  intros Hf Hc Hg Hdir Hholds Hpass. unfold passes_validation in Hpass.
  destruct (optimizeFont_validate options w) as [res wv] eqn:Hval. cbn in Hpass. subst res.
  destruct (optimizeFont_validate_Ok_inv _ _ _ Hval) as (Hd & _ & _).
  destruct (optimizeFont_validate_transfer options w wv w Hf Hf Hval eq_refl Hd)
    as (evs & Hevs & Hval').
  pose proof (emits_same_fs evs w) as Hs.
  unfold optimizeFont. rewrite (bind_run _ _ _ _ _ Hval').
  unfold optimizeFont_lookup. rewrite Hc.
  assert (Hg' : globalCache (emits evs w) = Some this).
  { destruct Hs as (_ & _ & _ & ->). exact Hg. }
  destruct (cache_holds_hit (emits evs w) this (inputPath options) sc)
    as (r & w' & Hget & Hsc & Hs' & _ & entry & Htr).
  { now rewrite emits_faults. }
  { destruct Hs as (Hfs & Hds & _). now apply (cache_holds_same_fs w). }
  assert (Hlook : (let* fontCache := getGlobalCache (cacheDir options) in
                   FontCache_get fontCache (inputPath options)) (emits evs w)
                  = (Ok (Some r), w')).
  { rewrite (bind_run _ _ _ _ _ (getGlobalCache_same (cacheDir options) _ this Hg' Hdir)).
    exact Hget. }
  rewrite (bind_run _ _ _ _ _ Hlook).
  exists r, w'. split; [reflexivity |]. split; [exact Hsc |]. split.
  - rewrite Htr, emits_trace, !engine_calls_app.
    rewrite (engine_calls_none _ (hit_events_not_engine _ _ _)).
    rewrite (engine_calls_none _ (validation_events_not_engine _ Hevs)). lia.
  - eapply same_fs_trans; eassumption.
Qed.

(** *** The first call *)

Hypothesis JSON_roundtrip : ∀ e : CacheEntry, JSON_parse (JSON_stringify e) = Some e.

(** After a first call that succeeds, on an input whose bytes are the
    same as before and with a usable store, the cache of the current
    instance holds a valid entry with the scalars of the result. *)
Lemma first_call_caches options w0 r1 w1 :
  faults w0 = [] →
  default true (cache options) = true →
  optimizeFont options w0 = (Ok r1, w1) →
  files w1 !! inputPath options = files w0 !! inputPath options →
  cache_usable w1 (inputPath options) →
  ∃ this,
    globalCache w1 = Some this
    ∧ (truthy_path (cacheDir options) = true → cacheDir options = Some this)
    ∧ faults w1 = []
    ∧ cache_holds w1 this (inputPath options) (scalars r1)
    ∧ passes_validation options w1
    ∧ (engine_calls (trace w1) ≤ S (engine_calls (trace w0)))%nat.
Proof.
  intros Hf Hc Hrun Hsame Huse. unfold optimizeFont in Hrun.
  apply bind_Ok_inv in Hrun as ([] & wv & Hval & Hrun).
  apply bind_Ok_inv in Hrun as (cached & wl & Hlook & Hrun).
  destruct (optimizeFont_validate_Ok_inv _ _ _ Hval) as (Hd0 & (data & Hdata) & Hext).
  assert (Hne : ∀ this, cachePath_of this (inputPath options) ≠ inputPath options)
    by (intros; now apply cachePath_not_font).
  assert (Hfile0 : is_file w0 (inputPath options) = true) by now apply (is_file_intro _ _ data).
  (* the validation *)
  assert (V1 : nofault w0 wv).
  { eapply keeps_run; [| exact Hval]. apply keeps_optimizeFont_validate.
    intros; apply nofault_permits. }
  assert (V2 : only not_engine w0 wv).
  { eapply keeps_run; [| exact Hval]. apply keeps_optimizeFont_validate.
    intros ev Hev. now apply not_engine_permits, validation_event_not_engine. }
  assert (V3 : stays_file (inputPath options) w0 wv).
  { eapply keeps_run; [| exact Hval]. apply keeps_optimizeFont_validate.
    intros; apply stays_file_permits. }
  (* the lookup *)
  assert (L1 : nofault wv wl).
  { eapply keeps_run; [| exact Hlook]. apply keeps_optimizeFont_lookup.
    - intros; apply nofault_permits.
    - apply nofault_allows_instance.
    - intros; apply nofault_allows_unlink. }
  assert (L2 : only not_engine wv wl).
  { eapply keeps_run; [| exact Hlook]. apply keeps_optimizeFont_lookup.
    - intros ev Hev. now apply not_engine_permits, lookup_event_not_engine.
    - apply only_allows_instance.
    - intros; apply only_allows_unlink. }
  assert (L3 : stays_file (inputPath options) wv wl).
  { eapply keeps_run; [| exact Hlook]. apply keeps_optimizeFont_lookup.
    - intros; apply stays_file_permits.
    - apply stays_file_allows_instance.
    - intros; now apply stays_file_allows_unlink. }
  assert (Hdone : ∀ this,
            globalCache w1 = Some this →
            (truthy_path (cacheDir options) = true → cacheDir options = Some this) →
            faults w1 = [] → is_dir w1 (inputPath options) = false →
            cache_holds w1 this (inputPath options) (scalars r1) →
            (engine_calls (trace w1) ≤ S (engine_calls (trace w0)))%nat →
            ∃ this,
              globalCache w1 = Some this
              ∧ (truthy_path (cacheDir options) = true → cacheDir options = Some this)
              ∧ faults w1 = []
              ∧ cache_holds w1 this (inputPath options) (scalars r1)
              ∧ passes_validation options w1
              ∧ (engine_calls (trace w1) ≤ S (engine_calls (trace w0)))%nat).
  { intros this H1 H2 H3 H4 H5 H6. exists this. repeat (split; [assumption |]).
    split; [| exact H6].
    destruct (optimizeFont_validate_transfer options w0 wv w1 Hf H3 Hval Hsame H4)
      as (evs & _ & E).
    unfold passes_validation. now rewrite E. }
  destruct cached as [c|].
  - (* the first call was answered by the cache *)
    inversion Hrun; subst c wl. clear Hrun.
    unfold optimizeFont_lookup in Hlook. rewrite Hc in Hlook.
    apply bind_Ok_inv in Hlook as (this & wg & Hg & Hget).
    apply getGlobalCache_inv in Hg as (Hgc & Hgdir & _).
    apply FontCache_get_Some_inv in Hget as (Hholds & Hs & _ & _).
    apply (Hdone this).
    + destruct Hs as (_ & _ & _ & ->). exact Hgc.
    + exact Hgdir.
    + apply L1, V1, Hf.
    + now apply is_file_inv, L3, V3.
    + destruct Hs as (Hfs & Hds & _). now apply (cache_holds_same_fs wg).
    + rewrite (engine_calls_only _ _ L2), (engine_calls_only _ _ V2). lia.
  - (* the first call transformed the font *)
    assert (M3 : stays_file (inputPath options) wl w1).
    { eapply keeps_run; [| exact Hrun].
      apply (keeps_optimizeFont_miss (stays_file (inputPath options))).
      - intros; apply stays_file_permits.
      - apply stays_file_allows_mkdir.
      - intros; apply stays_file_allows_write.
      - apply stays_file_allows_instance. }
    apply optimizeFont_miss_Ok_inv in Hrun as (w5 & Hnf & Heng & [sb Hout] & Hcache).
    rewrite Hc in Hcache. destruct Hcache as (this & wg & Hg & Hset).
    apply getGlobalCache_inv in Hg as (Hgc & Hgdir & Hgf & Hgd & Hgfl & Hgt).
    assert (S1 : same_instance wg w1).
    { eapply keeps_run; [| exact Hset]. apply keeps_FontCache_set.
      - intros; apply same_instance_permits.
      - apply same_instance_allows_mkdir.
      - apply same_instance_allows_write. }
    assert (S2 : only not_engine wg w1).
    { eapply keeps_run; [| exact Hset]. apply keeps_FontCache_set.
      - intros; now apply not_engine_permits.
      - apply only_allows_mkdir.
      - apply only_allows_write. }
    assert (Hg1 : globalCache w1 = Some this) by (rewrite S1; exact Hgc).
    destruct (Huse this Hg1) as (Hno & Hcd).
    destruct (is_file_inv w1 (inputPath options)) as (Hd1 & _); [apply M3, L3, V3, Hfile0 |].
    assert (Hdata1 : files w1 !! inputPath options = Some data) by (rewrite Hsame; exact Hdata).
    assert (Hfg : faults wg = []) by (rewrite Hgfl; apply Hnf, L1, V1, Hf).
    destruct (FontCache_set_final this (inputPath options) r1 wg w1 data
                Hfg Hset (Hne this) Hno Hcd Hd1 Hdata1) as (Hfiles & Hf1 & _).
    apply (Hdone this); try assumption.
    + exists (JSON_stringify (cache_entry_of r1 (md5hex data) (clock wg))),
        (cache_entry_of r1 (md5hex data) (clock wg)), data.
      split; [exact Hcd |]. split; [rewrite Hfiles; apply lookup_insert_eq |].
      split; [apply JSON_roundtrip |]. split; [reflexivity |].
      split; [exact Hd1 |]. split; [exact Hdata1 |]. split; [reflexivity |].
      split; [| reflexivity].
      cbn [cache_entry_of result outputPath].
      destruct (decide (cachePath_of this (inputPath options) = fm_path (optimized r1)))
        as [E|E].
      * eapply exists_node_file. rewrite Hfiles, <- E. apply lookup_insert_eq.
      * eapply exists_node_file. rewrite Hfiles, lookup_insert_ne, Hgf by exact E. exact Hout.
    + rewrite (engine_calls_only _ _ S2), Hgt, Heng.
      rewrite (engine_calls_only _ _ L2), (engine_calls_only _ _ V2). lia.
Qed.

(** C3. Two calls of [optimizeFont] in a row with the same request and
    caching enabled, where the first call succeeds, the bytes of the input
    file after it are those before it, no storage fault is pending and the
    cache store is usable: the second call succeeds with the same scalar
    fields (sizes, reduction, css, family, weight), the engine is not
    called during the second call, and at most once during the first. *)
Theorem optimizeFont_twice_same_scalars options w0 r1 w1 :
  faults w0 = [] →
  default true (cache options) = true →
  optimizeFont options w0 = (Ok r1, w1) →
  files w1 !! inputPath options = files w0 !! inputPath options →
  cache_usable w1 (inputPath options) →
  ∃ r2 w2,
    optimizeFont options w1 = (Ok r2, w2)
    ∧ scalars r2 = scalars r1
    ∧ engine_calls (trace w2) = engine_calls (trace w1)
    ∧ (engine_calls (trace w1) ≤ S (engine_calls (trace w0)))%nat.
Proof.
  intros Hf Hc Hrun Hsame Huse.
  destruct (first_call_caches options w0 r1 w1 Hf Hc Hrun Hsame Huse)
    as (this & Hg & Hdir & Hf1 & Hholds & Hpass & Heng).
  destruct (second_call_hits options w1 this (scalars r1) Hf1 Hc Hg Hdir Hholds Hpass)
    as (r2 & w2 & Hrun2 & Hsc & Heng2 & _).
  exists r2, w2. auto.
Qed.


End TwoCalls.

(** ** Storage failures *)

Section Degrade.
Context {P : Platform}.


Lemma try_catch_Ok_or {A} (body : M A) handler w :
  (∀ e w1, ∃ a w2, handler e w1 = (Ok a, w2)) →
  ∃ a w', try_catch body handler w = (Ok a, w').
Proof.
  intros Hh. unfold try_catch. destruct (body w) as [[a|e] w1]; [eauto | apply Hh].
Qed.


Lemma FontCache_get_total this inputPath w :
  ∃ o w', FontCache_get this inputPath w = (Ok o, w').
Proof. apply try_catch_Ok_or. intros; unfold ret; eauto. Qed.






(** *** A store that cannot be listed *)

Lemma fs_call_fault {A} op p (sem : World → Result A * World) w code rest :
  faults w = Some code :: rest →
  fs_call op p sem w = (Throw (SystemError code op p), emit (EvFs op p false) (pop_fault w)).
Proof. intros H. unfold fs_call, next_fault. now rewrite H. Qed.






(** *** An entry that cannot be read does not empty the statistics *)






End Degrade.

(** * More properties of the code *)

(** ** Texts *)

Lemma string_app_cons c (a b : string) : String c a +:+ b = String c (a +:+ b).
Proof. reflexivity. Qed.

Lemma string_app_assoc (a b c : string) : (a +:+ b) +:+ c = a +:+ (b +:+ c).
Proof.
  induction a as [|x a IH]; [reflexivity |]. rewrite !string_app_cons. now f_equal.
Qed.

Lemma string_prefix_spec (k s : string) :
  String.prefix k s = true ↔ ∃ post, s = k +:+ post.
Proof.
  revert s. induction k as [|c k IH]; intros s.
  - split; [intros _; now exists s | intros _; now destruct s].
  - destruct s as [|d s]; cbn.
    + split; [discriminate | intros (post & H); discriminate].
    + destruct (Ascii.ascii_dec c d) as [->|Hne].
      * rewrite IH. split; intros (post & H); exists post;
          rewrite string_app_cons in *; congruence.
      * split; [discriminate | intros (post & H); rewrite string_app_cons in H; congruence].
Qed.

Lemma str_includes_spec (s k : string) :
  str_includes s k = true ↔ ∃ pre post, s = pre +:+ k +:+ post.
Proof.
  induction s as [|c s IH].
  - cbn [str_includes]. rewrite orb_false_r, string_prefix_spec. split.
    + intros (post & H). now exists EmptyString, post.
    + intros ([|x pre] & post & H); [now exists post | discriminate].
  - cbn [str_includes]. rewrite orb_true_iff, string_prefix_spec, IH. split.
    + intros [(post & H) | (pre & post & H)].
      * now exists EmptyString, post.
      * exists (String c pre), post. rewrite string_app_cons. now rewrite H.
    + intros ([|x pre] & post & H).
      * left. now exists post.
      * right. exists pre, post. rewrite string_app_cons in H. congruence.
Qed.

(** A text that includes a key includes the end of the key. *)
Lemma str_includes_key_suffix (s a b : string) :
  str_includes s (a +:+ b) = true → str_includes s b = true.
Proof.
  rewrite !str_includes_spec. intros (pre & post & ->).
  exists (pre +:+ a), post. now rewrite !string_app_assoc.
Qed.

(** ** The checks of the fields of a request (validation.ts) *)

Section Fields.
Context {P : Platform}.

Lemma validateOptimizationOptions_fields_ok options w :
  fields_ok options = true →
  validateOptimizationOptions_fields options w = (Ok tt, w).
Proof.
  unfold fields_ok, format_ok, weight_ok, style_ok, display_ok.
  intros H. repeat (apply andb_true_iff in H as [H ?]).
  unfold validateOptimizationOptions_fields.
  destruct (bool_decide (outputDir options = [])); [discriminate |].
  destruct (truthy_str (format options));
    [destruct (includes SUPPORTED_OUTPUT_FORMATS _); [| discriminate] |];
    cbn [negb andb].
  all: unfold bind.
  all: destruct (o_fontWeight options) as [weight|];
    [destruct ((weight <? 100) || (weight >? 900)); [discriminate |] |];
    cbn [ret negb].
  all: destruct (truthy_str (o_fontStyle options));
    [destruct (includes ["normal"; "italic"] _); [| discriminate] |];
    cbn [negb andb].
  all: destruct (truthy_str (fontDisplay options));
    [destruct (includes _ (default EmptyString (fontDisplay options))); [| discriminate] |];
    reflexivity.
Qed.

End Fields.

(** ** The parsers of a file name (optimizer.ts) *)

Section FileNames.
Context {P : Platform}.

Lemma find_some_in {A} (f : A → bool) l x : find f l = Some x → In x l ∧ f x = true.
Proof. apply find_some. Qed.

Lemma parseFontWeight_from_table filename :
  parseFontWeight filename = 400
  ∨ ∃ key, In (key, parseFontWeight filename) weightMap
           ∧ str_includes (toLowerCase filename) key = true
           ∧ find (fun entry => str_includes (toLowerCase filename) (fst entry)) weightMap
             = Some (key, parseFontWeight filename).
Proof.
  unfold parseFontWeight.
  destruct (find _ weightMap) as [[key weight]|] eqn:E; [| now left].
  right. exists key. apply find_some in E as H. now destruct H.
Qed.

(** X1.  The weight read off a file name is one of the nine CSS weights, so
    the weight check of [validateOptimizationOptions] never refuses it;
    the style read off a file name is one of the two that the style
    check accepts. *)
Theorem parsed_weight_and_style_pass_validation filename :
  100 ≤ parseFontWeight filename ≤ 900
  ∧ (parseFontWeight filename) mod 100 = 0
  ∧ (parseFontWeight filename <? 100) || (parseFontWeight filename >? 900) = false
  ∧ includes ["normal"; "italic"] (parseFontStyle filename) = true
  ∧ ∀ options w,
      outputDir options ≠ [] → format_ok options = true → display_ok options = true →
      o_fontWeight options = Some (parseFontWeight filename) →
      o_fontStyle options = Some (parseFontStyle filename) →
      validateOptimizationOptions_fields options w = (Ok tt, w).
Proof.
  assert (Hw : 100 ≤ parseFontWeight filename ≤ 900 ∧ (parseFontWeight filename) mod 100 = 0).
  { destruct (parseFontWeight_from_table filename) as [-> | (key & Hin & _)]; [now cbn |].
    cbn in Hin.
    repeat (destruct Hin as [Hin | Hin]; [inversion Hin; now cbn |]). contradiction. }
  assert (Hs : includes ["normal"; "italic"] (parseFontStyle filename) = true).
  { unfold parseFontStyle. now destruct (_ || _). }
  assert (Hb : (parseFontWeight filename <? 100) || (parseFontWeight filename >? 900) = false).
  { apply orb_false_iff. split; [apply Z.ltb_ge | rewrite Z.gtb_ltb; apply Z.ltb_ge]; lia. }
  split; [apply Hw |]. split; [apply Hw |]. split; [exact Hb |]. split; [exact Hs |].
  intros options w Hout Hfmt Hdisp Hweight Hstyle.
  apply validateOptimizationOptions_fields_ok.
  unfold fields_ok. rewrite Hfmt, Hdisp.
  rewrite (bool_decide_eq_false_2 _ Hout).
  unfold weight_ok, style_ok. rewrite Hweight, Hstyle, Hb.
  change (default EmptyString (Some (parseFontStyle filename)))
    with (parseFontStyle filename).
  rewrite Hs. now rewrite orb_true_r.
Qed.

(** X2.  The entries [extrabold] and [ultrabold] of the table are never
    reached: a name that has one of them has [bold], which comes first.
    A name with [bold] in it gets 700 at most, and no name gets 800. *)
Theorem parseFontWeight_never_800 filename :
  (str_includes (toLowerCase filename) "bold" = true → parseFontWeight filename ≤ 700)
  ∧ parseFontWeight filename ≠ 800.
Proof.
  assert (Hbold : str_includes (toLowerCase filename) "bold" = true →
                  parseFontWeight filename ≤ 700).
  { intros Hb. unfold parseFontWeight, weightMap.
    cbn [find fst].
    repeat match goal with
           | |- context [if str_includes ?s ?k then _ else _] =>
               destruct (str_includes s k) eqn:?; [cbn; lia |]
           end.
    congruence. }
  split; [exact Hbold |].
  intros H800.
  destruct (parseFontWeight_from_table filename) as [E | (key & Hin & Hinc & _)];
    [congruence |].
  rewrite H800 in Hin. cbn in Hin.
  repeat (destruct Hin as [Hin | Hin]; [try discriminate Hin |]); [| | contradiction].
  - inversion Hin; subst key.
    apply (str_includes_key_suffix _ "extra" "bold") in Hinc. specialize (Hbold Hinc). lia.
  - inversion Hin; subst key.
    apply (str_includes_key_suffix _ "ultra" "bold") in Hinc. specialize (Hbold Hinc). lia.
Qed.

End FileNames.

(** ** The checks of the input, in their order (validation.ts, optimizer.ts) *)

Section InputChecks.
Context {P : Platform}.

Lemma fs_existsSync_fault p w code rest :
  faults w = Some code :: rest →
  fs_existsSync p w = (Ok false, emit (EvFs "access" p false) (pop_fault w)).
Proof.
  intros H. unfold fs_existsSync, try_catch, bind, fs_access.
  now rewrite (fs_call_fault _ _ _ _ _ _ H).
Qed.

(** X3.  An input path that is not there, or whose existence test meets a
    storage fault, is refused as not found, whatever else the request
    says: the existence test comes first and is all that is done. *)
Theorem optimizeFont_missing_input options w :
  inputPath options ≠ [] →
  (faults w = [] ∧ exists_node w (inputPath options) = false)
  ∨ (∃ code rest, faults w = Some code :: rest) →
  ∃ w',
    optimizeFont options w
    = (Throw (ValidationError ("Font file not found: " +:+ path_str (inputPath options))
                "inputPath" (APath (inputPath options))), w')
    ∧ same_fs w w'
    ∧ trace w' = trace w ++ [EvFs "access" (inputPath options) false].
Proof.
  intros Hne Hcase.
  assert (Hex : ∃ w', fs_existsSync (inputPath options) w = (Ok false, w')
                      ∧ same_fs w w'
                      ∧ trace w' = trace w ++ [EvFs "access" (inputPath options) false]).
  { destruct Hcase as [(Hf & He) | (code & rest & Hf)].
    - eexists. split; [rewrite fs_existsSync_run by exact Hf; rewrite He; reflexivity |].
      split; [apply same_fs_emit, same_fs_refl | reflexivity].
    - eexists. split; [apply (fs_existsSync_fault _ _ _ _ Hf) |].
      split; [apply same_fs_emit_pop |]. cbn. now rewrite trace_pop. }
  destruct Hex as (w' & Hex & Hs & Ht). exists w'. split; [| now split].
  apply validate_throw_run; [| reflexivity].
  unfold validateOptimizationOptions.
  rewrite bool_decide_eq_false_2 by exact Hne.
  now rewrite (bind_run _ _ _ _ _ Hex).
Qed.

(** X4.  An input that exists but whose extension, in lower case, is not one
    of the four is refused for its format before anything else is looked
    at: it may even be a directory, and no [stat] is made. *)
Theorem optimizeFont_unsupported_input_format options w :
  faults w = [] →
  inputPath options ≠ [] →
  exists_node w (inputPath options) = true →
  includes SUPPORTED_FORMATS (toLowerCase (path_extname (inputPath options))) = false →
  ∃ w',
    optimizeFont options w
    = (Throw (UnsupportedFormatError
                ("Unsupported font format: " +:+ toLowerCase (path_extname (inputPath options)))
                (toLowerCase (path_extname (inputPath options))) SUPPORTED_FORMATS), w')
    ∧ same_fs w w'
    ∧ trace w' = trace w ++ [EvFs "access" (inputPath options) true].
Proof.
  intros Hf Hne He Hext. eexists. split; [| split].
  - apply validate_throw_run; [| reflexivity].
    unfold validateOptimizationOptions.
    rewrite bool_decide_eq_false_2 by exact Hne.
    erewrite bind_run by (apply fs_existsSync_run; exact Hf).
    rewrite He. cbn [negb]. rewrite Hext. reflexivity.
  - apply same_fs_emit, same_fs_refl.
  - reflexivity.
Qed.

(** X5.  A directory whose name ends like a font is refused as not a file. *)
Theorem optimizeFont_directory_input options w :
  faults w = [] →
  inputPath options ≠ [] →
  is_dir w (inputPath options) = true →
  includes SUPPORTED_FORMATS (toLowerCase (path_extname (inputPath options))) = true →
  ∃ w',
    optimizeFont options w
    = (Throw (ValidationError ("Input path is not a file: " +:+ path_str (inputPath options))
                "inputPath" (APath (inputPath options))), w')
    ∧ same_fs w w'
    ∧ trace w' = trace w ++ [EvFs "access" (inputPath options) true;
                             EvFs "stat" (inputPath options) true].
Proof.
  intros Hf Hne Hd Hext.
  assert (He : exists_node w (inputPath options) = true) by (unfold exists_node; now rewrite Hd).
  eexists. split; [| split].
  - apply validate_throw_run; [| reflexivity].
    unfold validateOptimizationOptions.
    rewrite bool_decide_eq_false_2 by exact Hne.
    erewrite bind_run by (apply fs_existsSync_run; exact Hf).
    rewrite He. cbn [negb]. rewrite Hext. cbn [negb].
    erewrite bind_run.
    2:{ unfold fs_stat. rewrite fs_call_run by exact Hf. rewrite is_dir_emit, Hd. reflexivity. }
    reflexivity.
  - apply same_fs_emit, same_fs_emit, same_fs_refl.
  - cbn. now rewrite <- app_assoc.
Qed.

(** X6.  A storage fault that strikes after the existence test, at the [stat]
    of the input, is none of the three validation errors: it leaves
    [optimizeFont] wrapped in a [FontOptimizationError] that says
    "Validation failed" and carries the system error. *)
Theorem optimizeFont_fault_in_validation options w code rest :
  faults w = None :: Some code :: rest →
  inputPath options ≠ [] →
  exists_node w (inputPath options) = true →
  includes SUPPORTED_FORMATS (toLowerCase (path_extname (inputPath options))) = true →
  ∃ w',
    optimizeFont options w
    = (Throw (FontOptimizationError
                ("Validation failed: "
                 +:+ exn_message (SystemError code "stat" (inputPath options)))
                (inputPath options)
                (Some (SystemError code "stat" (inputPath options)))), w')
    ∧ same_fs w w'
    ∧ faults w' = rest
    ∧ trace w' = trace w ++ [EvFs "access" (inputPath options) true;
                             EvFs "stat" (inputPath options) false].
Proof.
  intros Hf Hne He Hext.
  set (w1 := emit (EvFs "access" (inputPath options) true) (pop_fault w)).
  assert (Hex : fs_existsSync (inputPath options) w = (Ok true, w1)).
  { unfold fs_existsSync, try_catch, bind, fs_access, fs_call, next_fault. rewrite Hf.
    rewrite (same_fs_exists _ _ _ (same_fs_pop w)), He. reflexivity. }
  assert (Hf1 : faults w1 = Some code :: rest).
  { subst w1. cbn. unfold pop_fault. now rewrite Hf. }
  set (e := SystemError code "stat" (inputPath options)).
  assert (Hval : validateOptimizationOptions options w
                 = (Throw e, emit (EvFs "stat" (inputPath options) false) (pop_fault w1))).
  { unfold validateOptimizationOptions.
    rewrite bool_decide_eq_false_2 by exact Hne.
    rewrite (bind_run _ _ _ _ _ Hex). cbn [negb]. rewrite Hext. cbn [negb].
    apply bind_throw. unfold fs_stat. apply (fs_call_fault _ _ _ _ _ _ Hf1). }
  eexists. split; [| split; [| split]].
  - unfold optimizeFont, optimizeFont_validate.
    apply bind_throw. erewrite try_catch_throw by (apply bind_throw; exact Hval).
    reflexivity.
  - apply same_fs_emit. eapply same_fs_trans; [| apply same_fs_pop].
    subst w1. apply same_fs_emit_pop.
  - cbn. unfold pop_fault. now rewrite Hf1.
  - cbn. rewrite trace_pop. subst w1. cbn. rewrite trace_pop. now rewrite <- app_assoc.
Qed.

(** *** The signature *)

Lemma get_substring_4 (d1 d2 : string) i :
  String.substring 0 4 d1 = String.substring 0 4 d2 → (i < 4)%nat →
  String.get i d1 = String.get i d2.
Proof.
  intros H Hi.
  destruct d1 as [|a1 [|a2 [|a3 [|a4 r1]]]], d2 as [|b1 [|b2 [|b3 [|b4 r2]]]];
    cbn in H; try discriminate H; inversion H; subst;
    destruct i as [|[|[|[|i]]]]; try lia; reflexivity.
Qed.

Lemma signature_is_substring_4 (d1 d2 : string) b0 b1 b2 b3 :
  String.substring 0 4 d1 = String.substring 0 4 d2 →
  signature_is d1 b0 b1 b2 b3 = signature_is d2 b0 b1 b2 b3.
Proof.
  intros H. unfold signature_is, byte_is.
  now rewrite !(get_substring_4 d1 d2 _ H) by lia.
Qed.

(** X7.  [validateFontFile] looks at the first four bytes and at nothing
    else: two files at the same path that start with the same four bytes
    get the same verdict. *)
Theorem validateFontFile_reads_four_bytes filePath w1 w2 d1 d2 :
  faults w1 = [] → faults w2 = [] →
  is_dir w1 filePath = false → is_dir w2 filePath = false →
  files w1 !! filePath = Some d1 → files w2 !! filePath = Some d2 →
  String.substring 0 4 d1 = String.substring 0 4 d2 →
  fst (validateFontFile filePath w1) = fst (validateFontFile filePath w2).
Proof.
  intros Hf1 Hf2 Hd1 Hd2 H1 H2 Hsub. unfold validateFontFile.
  rewrite (bind_run _ _ _ _ _ (fs_readFile_run _ _ _ Hf1 Hd1 H1)).
  rewrite (bind_run _ _ _ _ _ (fs_readFile_run _ _ _ Hf2 Hd2 H2)).
  cbv zeta.
  rewrite !(signature_is_substring_4 d1 d2 _ _ _ _ Hsub).
  repeat match goal with
         | |- context [if ?b then _ else _] => destruct b
         end; reflexivity.
Qed.

Lemma signature_is_short (data : string) b0 b1 b2 b3 :
  (String.length data < 4)%nat → signature_is data b0 b1 b2 b3 = false.
Proof.
  intros H. unfold signature_is, byte_is.
  destruct data as [|a1 [|a2 [|a3 [|a4 r]]]]; cbn in H; try lia; cbn;
    now rewrite ?andb_false_r.
Qed.

(** X8.  A font file of one to three bytes, under one of the four
    extensions, cannot carry a signature: with valid fields in the
    request, [optimizeFont] throws an [InvalidFontError] after the three
    reads of the validation, before any cache lookup. *)
Theorem optimizeFont_truncated_font options w data :
  faults w = [] →
  is_dir w (inputPath options) = false →
  files w !! inputPath options = Some data →
  (0 < String.length data < 4)%nat →
  includes SUPPORTED_FORMATS (toLowerCase (path_extname (inputPath options))) = true →
  fields_ok options = true →
  ∃ message reason w',
    optimizeFont options w = (Throw (InvalidFontError message (inputPath options) reason), w')
    ∧ same_fs w w'
    ∧ trace w' = trace w ++ [EvFs "access" (inputPath options) true;
                             EvFs "stat" (inputPath options) true;
                             EvFs "readFile" (inputPath options) true].
Proof.
  intros Hf Hd Hdata Hlen Hext Hfields.
  set (w2 := emit (EvFs "stat" (inputPath options) true)
               (emit (EvFs "access" (inputPath options) true) w)).
  assert (Hval : validateOptimizationOptions options w = (Ok tt, w2)).
  { rewrite (validate_input_run options w data) by assumption.
    rewrite length_nonempty by (destruct data; [cbn in Hlen; lia | discriminate]).
    assert (Hsmall : (Z.of_nat (String.length data) >? MAX_RECOMMENDED_SIZE) = false).
    { rewrite Z.gtb_ltb. apply Z.ltb_ge. unfold MAX_RECOMMENDED_SIZE. lia. }
    rewrite Hsmall. unfold bind at 1. cbn [ret].
    now apply validateOptimizationOptions_fields_ok. }
  set (w3 := emit (EvFs "readFile" (inputPath options) true) w2).
  assert (Hfile : ∃ message reason,
            validateFontFile (inputPath options) w2
            = (Throw (InvalidFontError message (inputPath options) reason), w3)).
  { unfold validateFontFile.
    erewrite bind_run by (apply (fs_readFile_run _ _ data); [exact Hf | exact Hd | exact Hdata]).
    cbv zeta. rewrite !signature_is_short by lia. cbn [orb negb].
    unfold SUPPORTED_FORMATS, includes in Hext. cbn [existsb] in Hext.
    destruct (String.eqb (toLowerCase (path_extname (inputPath options))) ".ttf"); [eauto |].
    destruct (String.eqb (toLowerCase (path_extname (inputPath options))) ".otf"); [eauto |].
    destruct (String.eqb (toLowerCase (path_extname (inputPath options))) ".woff"); [eauto |].
    destruct (String.eqb (toLowerCase (path_extname (inputPath options))) ".woff2");
      [eauto | discriminate]. }
  destruct Hfile as (message & reason & Hfile).
  exists message, reason, w3. split; [| split].
  - unfold optimizeFont, optimizeFont_validate.
    apply bind_throw. erewrite try_catch_throw.
    2:{ rewrite (bind_run _ _ _ _ _ Hval). exact Hfile. }
    reflexivity.
  - subst w3 w2. repeat apply same_fs_emit. apply same_fs_refl.
  - subst w3 w2. cbn. now rewrite <- !app_assoc.
Qed.

(** *** A directory to write to *)

(** X9.  [validateDirectory] accepts a path exactly when it is not empty and
    no regular file stands at it (the directory may be missing); it
    changes nothing. *)
Theorem validateDirectory_accepts dirPath w :
  faults w = [] →
  ∃ r w',
    validateDirectory dirPath w = (r, w')
    ∧ same_fs w w'
    ∧ (r = Ok tt ↔ dirPath ≠ [] ∧ is_file w dirPath = false).
Proof.
  intros Hf. unfold validateDirectory. case_bool_decide as Hp.
  - eexists _, w. split; [reflexivity |]. split; [apply same_fs_refl |].
    split; [discriminate | intros [H _]; contradiction].
  - erewrite bind_run by (apply fs_existsSync_run; exact Hf).
    destruct (exists_node w dirPath) eqn:He.
    + unfold exists_node in He. destruct (is_dir w dirPath) eqn:Hd.
      * erewrite bind_run.
        2:{ unfold fs_stat. rewrite fs_call_run by exact Hf. rewrite is_dir_emit, Hd.
            reflexivity. }
        cbn [st_isFile]. eexists _, _. split; [reflexivity |].
        split; [apply same_fs_emit, same_fs_emit, same_fs_refl |].
        split; [intros _; split; [exact Hp |] | reflexivity].
        unfold is_file. now rewrite Hd.
      * cbn in He. pose proof He as Hfile.
        unfold is_file in He. rewrite Hd in He. cbn in He.
        apply bool_decide_eq_true in He as [data Hdata].
        erewrite bind_run by (apply (fs_stat_run _ _ data); [exact Hf | exact Hd | exact Hdata]).
        cbn [st_isFile]. eexists _, _. split; [reflexivity |].
        split; [apply same_fs_emit, same_fs_emit, same_fs_refl |].
        split; [discriminate | intros [_ H]; congruence].
    + eexists _, _. split; [reflexivity |]. split; [apply same_fs_emit, same_fs_refl |].
      split; [intros _; split; [exact Hp |] | reflexivity].
      unfold exists_node in He. now apply orb_false_iff in He as [_ He].
Qed.

End InputChecks.

(** ** The scan of a directory (utils/file.ts) *)

Section Scan.
Context {P : Platform}.

Lemma getFontFiles_loop dirPath entries : ∀ acc,
  fold_left
    (fun fontFiles (entry : string * bool) =>
       let (name, isFile) := entry in
       if isFile then
         let ext := toLowerCase (extname_of name) in
         if includes [".ttf"; ".otf"; ".woff"; ".woff2"] ext
         then fontFiles ++ [path_join dirPath name]
         else fontFiles
       else fontFiles)
    entries acc
  = acc ++ omap (font_entry dirPath) entries.
Proof.
  induction entries as [|[name isFile] entries IH]; intros acc.
  - cbn. now rewrite app_nil_r.
  - cbn [fold_left]. rewrite IH. cbn [omap list_omap font_entry].
    destruct isFile; cbn [andb]; [| reflexivity].
    destruct (includes _ _); [| reflexivity].
    now rewrite <- app_assoc.
Qed.

Lemma omap_map {A B C} (f : B → option C) (g : A → B) (l : list A) :
  omap f (map g l) = omap (fun x => f (g x)) l.
Proof.
  induction l as [|x l IH]; [reflexivity |].
  cbn. destruct (f (g x)); now rewrite IH.
Qed.

Lemma path_basename_join dir name : path_basename (path_join dir name) = name.
Proof. unfold path_basename, path_join. apply last_last. Qed.

Lemma path_join_inj dir n1 n2 : path_join dir n1 = path_join dir n2 → n1 = n2.
Proof. unfold path_join. intros H. now apply app_inj_tail in H as [_ H]. Qed.

(** X10.  In a directory that can be listed, [getFontFiles] returns, each
    once, exactly the regular files that lie directly in it and whose
    extension in lower case is one of the four; the file system is not
    changed.  So every path it returns passes the existence, format and
    is-a-file checks of [validateOptimizationOptions]. *)
Theorem getFontFiles_lists_the_fonts dirPath w :
  faults w = [] →
  is_dir w dirPath = true →
  ∃ fontFiles w',
    getFontFiles dirPath w = (Ok fontFiles, w')
    ∧ same_fs w w'
    ∧ NoDup fontFiles
    ∧ ∀ q, q ∈ fontFiles ↔
           path_dirname q = dirPath ∧ q ≠ []
           ∧ is_file w q = true
           ∧ includes SUPPORTED_FORMATS (toLowerCase (path_extname q)) = true.
Proof.
  intros Hf Hd.
  assert (He : exists_node w dirPath = true) by (unfold exists_node; now rewrite Hd).
  set (sel := fun name =>
                font_entry dirPath (name, is_file w (path_join dirPath name))).
  exists (omap sel (children w dirPath)). eexists. split; [| split; [| split]].
  - unfold getFontFiles.
    erewrite bind_run by (apply fileExists_run; exact Hf).
    rewrite He. cbn [negb].
    erewrite bind_run.
    2:{ unfold fs_readdir_withFileTypes. rewrite fs_call_run by exact Hf.
        rewrite is_dir_emit, Hd. reflexivity. }
    rewrite getFontFiles_loop, omap_map. reflexivity.
  - apply same_fs_emit, same_fs_emit, same_fs_refl.
  - apply NoDup_omap_inj; [| apply NoDup_children].
    intros n1 n2 q H1 H2. unfold sel, font_entry in H1, H2.
    destruct (_ && _) in H1; [| discriminate].
    destruct (_ && _) in H2; [| discriminate].
    inversion H1. inversion H2. subst q. now apply path_join_inj in H3.
  - intros q. rewrite list_elem_of_omap. split.
    + intros (name & Hin & Hsel). unfold sel, font_entry in Hsel.
      destruct (is_file w (path_join dirPath name)) eqn:Efile; [| discriminate].
      cbn [andb] in Hsel.
      destruct (includes _ _) eqn:Eext; [| discriminate].
      inversion Hsel. subst q.
      rewrite path_dirname_join. unfold path_extname. rewrite path_basename_join.
      split; [reflexivity |]. split; [| now split].
      unfold path_join. intros H. now apply app_eq_nil in H as [_ H].
    + intros (Hdir & Hne & Hfile & Hext).
      exists (path_basename q).
      assert (Hq : q = path_join dirPath (path_basename q)).
      { subst dirPath. unfold path_join, path_dirname, path_basename.
        now apply app_removelast_last. }
      split.
      * apply elem_of_children. left. rewrite <- Hq.
        now apply is_file_inv in Hfile as [_ Hfile].
      * unfold sel, font_entry. rewrite <- Hq, Hfile. cbn [andb].
        unfold path_extname in Hext. unfold SUPPORTED_FORMATS in Hext.
        now rewrite Hext.
Qed.

(** X11.  [getFontFiles] on a path that is not there throws a plain error
    that names the directory; on a regular file it lets the error of
    [readdir] through. *)
Theorem getFontFiles_without_directory dirPath w :
  faults w = [] →
  is_dir w dirPath = false →
  ∃ e w',
    getFontFiles dirPath w = (Throw e, w')
    ∧ same_fs w w'
    ∧ e = (if is_file w dirPath then SystemError "ENOTDIR" "scandir" dirPath
           else PlainError ("Directory not found: " +:+ path_str dirPath)).
Proof.
  intros Hf Hd. unfold getFontFiles.
  erewrite bind_run by (apply fileExists_run; exact Hf).
  unfold exists_node. rewrite Hd. cbn [orb].
  destruct (is_file w dirPath) eqn:Efile; cbn [negb].
  - eexists _, _. split; [| split].
    + apply bind_throw. unfold fs_readdir_withFileTypes.
      rewrite fs_call_run by exact Hf. rewrite is_dir_emit, Hd.
      change (is_file (emit (EvFs "access" dirPath true) w) dirPath) with (is_file w dirPath).
      rewrite Efile. reflexivity.
    + apply same_fs_emit, same_fs_emit, same_fs_refl.
    + reflexivity.
  - eexists _, _. split; [reflexivity |]. split; [apply same_fs_emit, same_fs_refl |].
    reflexivity.
Qed.

End Scan.

(** ** More of the cache (utils/cache.ts) *)

Section CacheMore.
Context {P : Platform}.

(** With no regular file at the place of the entry, [get] is absent,
    whatever the pending faults. *)
Lemma FontCache_get_absent this inputPath w :
  is_file w (cachePath_of this inputPath) = false →
  ∃ w', FontCache_get this inputPath w = (Ok None, w').
Proof.
  intros Hnf. destruct (FontCache_get_total this inputPath w) as ([r|] & w' & E); [| eauto].
  apply FontCache_get_Some_inv in E as ((data & entry & content & Hd & Hdata & _) & _).
  now rewrite (is_file_intro _ _ _ Hd Hdata) in Hnf.
Qed.

(** X12.  [delete] then [get]: the entry is gone, whatever it was, and [get]
    is absent; no other file and no directory has changed. *)
Theorem FontCache_delete_then_get this inputPath w :
  faults w = [] →
  ∃ w1 w2,
    FontCache_delete this inputPath w = (Ok tt, w1)
    ∧ FontCache_get this inputPath w1 = (Ok None, w2)
    ∧ is_file w1 (cachePath_of this inputPath) = false
    ∧ (∀ q, q ≠ cachePath_of this inputPath → files w1 !! q = files w !! q)
    ∧ dirs w1 = dirs w.
Proof.
  intros Hf.
  assert (H1 : ∃ w1, FontCache_delete this inputPath w = (Ok tt, w1)
                     ∧ is_file w1 (cachePath_of this inputPath) = false
                     ∧ (∀ q, q ≠ cachePath_of this inputPath → files w1 !! q = files w !! q)
                     ∧ dirs w1 = dirs w).
  { destruct (is_dir w (cachePath_of this inputPath)) eqn:Hd.
    - (* a directory stands there: [unlink] fails, and the failure is dropped *)
      eexists. split; [| split; [| split]].
      + unfold FontCache_delete. erewrite try_catch_throw.
        2:{ erewrite bind_run by (apply fileExists_run; exact Hf).
            unfold exists_node. rewrite Hd. cbn [orb].
            unfold fs_unlink. rewrite fs_call_run by exact Hf. rewrite is_dir_emit, Hd.
            reflexivity. }
        reflexivity.
      + change (is_file w (cachePath_of this inputPath) = false).
        unfold is_file. now rewrite Hd.
      + reflexivity.
      + reflexivity.
    - destruct (FontCache_delete_run this inputPath w Hf Hd) as (w1 & E & Hfiles & Hdirs & _).
      exists w1. split; [exact E |]. split; [| split; [| exact Hdirs]].
      + unfold is_file. rewrite Hfiles, lookup_delete_eq.
        now rewrite andb_false_r.
      + intros q Hq. now rewrite Hfiles, lookup_delete_ne. }
  destruct H1 as (w1 & E1 & Hnf & Hfr & Hd1).
  destruct (FontCache_get_absent this inputPath w1 Hnf) as (w2 & E2).
  exists w1, w2. now repeat split.
Qed.

(** *** [clear] *)

Lemma unlink_step_run this name w :
  faults w = [] →
  ∃ w', try_catch (fs_unlink (path_join this name)) (fun _ => ret tt) w = (Ok tt, w')
        ∧ files w' = (if is_dir w (path_join this name) then files w
                      else delete (path_join this name) (files w))
        ∧ dirs w' = dirs w ∧ faults w' = [].
Proof.
  intros Hf. unfold try_catch, fs_unlink. rewrite fs_call_run by exact Hf.
  destruct (is_dir w (path_join this name)) eqn:Hd.
  - eexists. split; [reflexivity |]. now repeat split.
  - destruct (files w !! path_join this name) eqn:E.
    + eexists. split; [reflexivity |]. now repeat split.
    + eexists. split; [reflexivity |]. cbn. split; [| now split].
      symmetry. now apply delete_id.
Qed.

Lemma is_dir_same_dirs w w' q : dirs w' = dirs w → is_dir w' q = is_dir w q.
Proof. intros H. unfold is_dir. now rewrite H. Qed.

Lemma is_dir_rmdir_ne w d q :
  q ≠ d → is_dir (with_dirs (dirs w ∖ {[d]}) w) q = is_dir w q.
Proof.
  intros Hq. unfold is_dir. f_equal. apply bool_decide_ext.
  change (q ∈ dirs w ∖ {[d]} ↔ q ∈ dirs w).
  rewrite elem_of_difference, elem_of_singleton. tauto.
Qed.

Lemma is_dir_rmdir_eq w d : d ≠ [] → is_dir (with_dirs (dirs w ∖ {[d]}) w) d = false.
Proof.
  intros Hd. unfold is_dir. rewrite (bool_decide_eq_false_2 _ Hd). cbn [orb].
  apply bool_decide_eq_false.
  change (d ∉ dirs w ∖ {[d]}).
  rewrite elem_of_difference, elem_of_singleton. tauto.
Qed.

Lemma unlink_all_run this names : ∀ w,
  faults w = [] →
  ∃ w', unlink_all this names w = (Ok tt, w')
        ∧ (∀ q, files w' !! q = if cleared_among names w this q then None else files w !! q)
        ∧ dirs w' = dirs w ∧ faults w' = [].
Proof.
  unfold unlink_all.
  induction names as [|name names IH]; intros w Hf.
  - exists w. split; [reflexivity |]. split; [| now split].
    intros q. unfold cleared_among. destruct (child_name this q); [| reflexivity].
    now rewrite bool_decide_eq_false_2 by apply not_elem_of_nil.
  - destruct (unlink_step_run this name w Hf) as (w1 & E1 & Hfiles1 & Hdirs1 & Hf1).
    destruct (IH w1 Hf1) as (w' & E & Hfiles & Hdirs & Hf').
    exists w'. split; [| split; [| split; [congruence | exact Hf']]].
    { cbn [for_of]. unfold bind at 1.
      destruct (try_catch (fs_unlink (path_join this name)) (fun _ => ret tt) w)
        as [[[]|e] w1'] eqn:E0; inversion E1; subst. exact E. }
    intros q. rewrite Hfiles. unfold cleared_among.
    rewrite (is_dir_same_dirs w w1 q Hdirs1).
    destruct (child_name this q) as [n|] eqn:Hq.
    + apply child_name_Some in Hq. subst q.
      destruct (decide (n = name)) as [->|Hne].
      * rewrite (bool_decide_eq_true_2 (name ∈ name :: names)) by left. cbn [andb].
        destruct (is_dir w (path_join this name)) eqn:Hd; cbn [negb].
        -- rewrite andb_false_r. now rewrite Hfiles1.
        -- rewrite Hfiles1, lookup_delete_eq. now destruct (bool_decide _ && true).
      * assert (Hq : path_join this n ≠ path_join this name)
          by (intros H; now apply path_join_inj in H).
        assert (Hfq : files w1 !! path_join this n = files w !! path_join this n).
        { rewrite Hfiles1. destruct (is_dir w (path_join this name)); [reflexivity |].
          now apply lookup_delete_ne. }
        rewrite Hfq.
        destruct (decide (n ∈ names)) as [Hin|Hnin].
        -- rewrite (bool_decide_eq_true_2 _ Hin).
           now rewrite (bool_decide_eq_true_2 (n ∈ name :: names)) by now right.
        -- rewrite (bool_decide_eq_false_2 _ Hnin).
           rewrite (bool_decide_eq_false_2 (n ∈ name :: names)); [reflexivity |].
           intros H. apply elem_of_cons in H as [H|H]; contradiction.
    + rewrite Hfiles1. destruct (is_dir w (path_join this name)); [reflexivity |].
      apply lookup_delete_ne. intros H. rewrite <- H, child_name_join in Hq. discriminate.
Qed.

(** X13.  [clear] on a cache directory removes every regular file that lies
    directly in it and nothing outside it; afterwards [get] is absent
    for every input path.  When the directory held regular files only,
    the directory is removed too. *)
Theorem FontCache_clear_empties this w :
  faults w = [] →
  is_dir w this = true →
  ∃ w',
    FontCache_clear this w = (Ok tt, w')
    ∧ (∀ name, is_file w' (path_join this name) = false)
    ∧ (∀ q, child_name this q = None → files w' !! q = files w !! q)
    ∧ (∀ inputPath, ∃ w2, FontCache_get this inputPath w' = (Ok None, w2))
    ∧ (this ≠ [] → (∀ name, is_dir w (path_join this name) = false) →
       is_dir w' this = false).
Proof.
  intros Hf Hd.
  assert (He : exists_node w this = true) by (unfold exists_node; now rewrite Hd).
  set (w1 := emit (EvFs "readdir" this true) (emit (EvFs "access" this true) w)).
  destruct (unlink_all_run this (children w this) w1 Hf) as (w2 & Hloop & Hfiles & Hdirs & Hf2).
  assert (Hrm : ∃ w', try_catch (fs_rmdir this) (fun _ => ret tt) w2 = (Ok tt, w')
                      ∧ files w' = files w2
                      ∧ (∀ q, q ≠ this → is_dir w' q = is_dir w q)
                      ∧ (children w2 this = [] → this ≠ [] → is_dir w' this = false)).
  { unfold try_catch, fs_rmdir. rewrite fs_call_run by exact Hf2.
    rewrite (is_dir_same_dirs w1 w2 this Hdirs). change (is_dir w1 this) with (is_dir w this).
    rewrite Hd. destruct (children w2 this) eqn:Ech.
    - eexists. split; [reflexivity |]. split; [reflexivity |]. split.
      + intros q Hq.
        change (is_dir (with_dirs (dirs w2 ∖ {[this]}) w2) q = is_dir w q).
        rewrite (is_dir_rmdir_ne _ _ _ Hq). now rewrite (is_dir_same_dirs w1 w2 q Hdirs).
      + intros _ Hne.
        change (is_dir (with_dirs (dirs w2 ∖ {[this]}) w2) this = false).
        now apply is_dir_rmdir_eq.
    - eexists. split; [reflexivity |]. split; [reflexivity |]. split.
      + intros q _. change (is_dir w2 q = is_dir w q).
        now rewrite (is_dir_same_dirs w1 w2 q Hdirs).
      + discriminate. }
  destruct Hrm as (w' & Hrm & Hfiles' & Hdirs' & Hgone).
  assert (Hnofile : ∀ name, is_file w' (path_join this name) = false).
  { intros name. unfold is_file.
    assert (Hq : path_join this name ≠ this).
    { unfold path_join. intros H. apply (f_equal length) in H.
      rewrite length_app in H. cbn in H. lia. }
    rewrite (Hdirs' _ Hq).
    destruct (is_dir w (path_join this name)) eqn:Hdq; [reflexivity |]. cbn [negb andb].
    apply bool_decide_eq_false. rewrite Hfiles', Hfiles.
    unfold cleared_among. rewrite child_name_join.
    change (is_dir w1 (path_join this name)) with (is_dir w (path_join this name)).
    rewrite Hdq. cbn [negb]. rewrite andb_true_r.
    destruct (decide (name ∈ children w this)) as [Hin|Hnin].
    - rewrite (bool_decide_eq_true_2 _ Hin). now intros [x Hx].
    - rewrite (bool_decide_eq_false_2 _ Hnin).
      change (files w1) with (files w).
      intros Hsome. apply Hnin, elem_of_children. now left. }
  exists w'. split; [| split; [exact Hnofile | split; [| split]]].
  - unfold FontCache_clear. apply try_catch_run.
    erewrite bind_run by (apply fileExists_run; exact Hf).
    rewrite He.
    erewrite bind_run.
    2:{ unfold fs_readdir. rewrite fs_call_run by exact Hf.
        rewrite is_dir_emit, Hd. reflexivity. }
    change (children (emit (EvFs "access" this true) w) this) with (children w this).
    fold w1. rewrite (bind_run _ _ _ _ _ Hloop). exact Hrm.
  - intros q Hq. rewrite Hfiles', Hfiles. unfold cleared_among. now rewrite Hq.
  - intros inputPath. apply FontCache_get_absent. apply Hnofile.
  - intros Hne Hnodir. apply Hgone; [| exact Hne].
    destruct (children w2 this) as [|name rest] eqn:Ech; [reflexivity |].
    assert (Hin : name ∈ children w2 this) by (rewrite Ech; left).
    apply elem_of_children in Hin as [Hin|Hin].
    + specialize (Hnofile name). unfold is_file in Hnofile.
      assert (Hq : path_join this name ≠ this).
      { unfold path_join. intros H. apply (f_equal length) in H.
        rewrite length_app in H. cbn in H. lia. }
      rewrite (Hdirs' _ Hq), Hnodir in Hnofile. cbn in Hnofile.
      apply bool_decide_eq_false in Hnofile. rewrite Hfiles' in Hnofile. contradiction.
    + specialize (Hnodir name). unfold is_dir in Hnodir.
      apply orb_false_iff in Hnodir as [_ Hnodir]. apply bool_decide_eq_false in Hnodir.
      rewrite Hdirs in Hin. contradiction.
Qed.

(** *** [getStats] *)





End CacheMore.

(** ** The cache instance of the process (utils/cache.ts, optimizer.ts) *)

Section Instance.
Context {P : Platform}.

(** A lookup that finds a valid entry in the directory that
    [getGlobalCache] hands out, whatever instance was there before. *)
Lemma call_hits_in options w this sc :
  faults w = [] →
  default true (cache options) = true →
  (∀ w1, files w1 = files w → dirs w1 = dirs w → faults w1 = [] →
         globalCache w1 = globalCache w →
         ∃ w2, getGlobalCache (cacheDir options) w1 = (Ok this, w2)
               ∧ files w2 = files w1 ∧ dirs w2 = dirs w1 ∧ faults w2 = faults w1
               ∧ trace w2 = trace w1) →
  cache_holds w this (inputPath options) sc →
  passes_validation options w →
  ∃ r w', optimizeFont options w = (Ok r, w')
          ∧ scalars r = sc
          ∧ engine_calls (trace w') = engine_calls (trace w)
          ∧ files w' = files w ∧ dirs w' = dirs w.
Proof.
  intros Hf Hc Hg Hholds Hpass. unfold passes_validation in Hpass.
  destruct (optimizeFont_validate options w) as [res wv] eqn:Hval. cbn in Hpass. subst res.
  destruct (optimizeFont_validate_Ok_inv _ _ _ Hval) as (Hd & _ & _).
  destruct (optimizeFont_validate_transfer options w wv w Hf Hf Hval eq_refl Hd)
    as (evs & Hevs & Hval').
  destruct (emits_same_fs evs w) as (Hs1 & Hs2 & _ & Hs4).
  destruct (Hg (emits evs w) Hs1 Hs2 (eq_trans (emits_faults evs w) Hf) Hs4)
    as (w2 & Hget0 & Hf2 & Hd2 & Hfl2 & Ht2).
  destruct (cache_holds_hit w2 this (inputPath options) sc)
    as (r & w' & Hget & Hsc & Hs' & _ & entry & Htr).
  { now rewrite Hfl2, emits_faults. }
  { apply (cache_holds_same_fs w); [congruence | congruence | exact Hholds]. }
  exists r, w'. split; [| split; [exact Hsc | split; [| split]]].
  - unfold optimizeFont. rewrite (bind_run _ _ _ _ _ Hval').
    unfold optimizeFont_lookup. rewrite Hc.
    assert (Hlook : (let* fontCache := getGlobalCache (cacheDir options) in
                     FontCache_get fontCache (inputPath options)) (emits evs w)
                    = (Ok (Some r), w')).
    { rewrite (bind_run _ _ _ _ _ Hget0). exact Hget. }
    now rewrite (bind_run _ _ _ _ _ Hlook).
  - rewrite Htr, Ht2, emits_trace, !engine_calls_app.
    rewrite (engine_calls_none _ (hit_events_not_engine _ _ _)).
    rewrite (engine_calls_none _ (validation_events_not_engine _ Hevs)). lia.
  - destruct Hs' as (-> & _). congruence.
  - destruct Hs' as (_ & -> & _). congruence.
Qed.

Section AfterFirstCall.
Hypothesis JSON_roundtrip : ∀ e : CacheEntry, JSON_parse (JSON_stringify e) = Some e.

(** X15.  The cache instance is kept from one call to the next: after a first
    call that succeeds, a request for the same input that names no cache
    directory is answered from the directory of the instance in place,
    the one of the first request. *)
Theorem optimizeFont_without_cacheDir_uses_instance options options2 w0 r1 w1 :
  faults w0 = [] →
  default true (cache options) = true →
  optimizeFont options w0 = (Ok r1, w1) →
  files w1 !! inputPath options = files w0 !! inputPath options →
  cache_usable w1 (inputPath options) →
  inputPath options2 = inputPath options →
  truthy_path (cacheDir options2) = false →
  default true (cache options2) = true →
  passes_validation options2 w1 →
  ∃ this r2 w2,
    globalCache w1 = Some this
    ∧ (truthy_path (cacheDir options) = true → cacheDir options = Some this)
    ∧ optimizeFont options2 w1 = (Ok r2, w2)
    ∧ scalars r2 = scalars r1
    ∧ engine_calls (trace w2) = engine_calls (trace w1)
    ∧ globalCache w2 = Some this.
Proof.
  intros Hf Hc Hrun Hsame Huse Hin Hcd Hc2 Hpass2.
  destruct (first_call_caches JSON_roundtrip options w0 r1 w1 Hf Hc Hrun Hsame Huse)
    as (this & Hg & Hdir & Hf1 & Hholds & _ & _).
  rewrite <- Hin in Hholds.
  destruct (second_call_hits options2 w1 this (scalars r1) Hf1 Hc2 Hg) as
    (r2 & w2 & Hrun2 & Hsc & Heng & Hs); [congruence | exact Hholds | exact Hpass2 |].
  exists this, r2, w2. repeat (split; [assumption |]).
  destruct Hs as (_ & _ & _ & ->). exact Hg.
Qed.

(** X16.  [disableCache] forgets the instance; it neither removes an entry nor
    turns caching off.  After a first call that names its cache
    directory, [disableCache] followed by the same request is still
    answered from the cache, without a call of the engine. *)
Theorem disableCache_keeps_entries options w0 r1 w1 :
  faults w0 = [] →
  default true (cache options) = true →
  truthy_path (cacheDir options) = true →
  optimizeFont options w0 = (Ok r1, w1) →
  files w1 !! inputPath options = files w0 !! inputPath options →
  cache_usable w1 (inputPath options) →
  ∃ r2 w2,
    (disableCache ;;; optimizeFont options) w1 = (Ok r2, w2)
    ∧ scalars r2 = scalars r1
    ∧ engine_calls (trace w2) = engine_calls (trace w1)
    ∧ files w2 = files w1.
Proof.
  intros Hf Hc Htruthy Hrun Hsame Huse.
  destruct (first_call_caches JSON_roundtrip options w0 r1 w1 Hf Hc Hrun Hsame Huse)
    as (this & Hg & Hdir & Hf1 & Hholds & Hpass & _).
  specialize (Hdir Htruthy).
  set (w1' := with_globalCache None w1).
  destruct (call_hits_in options w1' this (scalars r1)) as (r2 & w2 & Hrun2 & Hsc & Heng & Hfs & _).
  - exact Hf1.
  - exact Hc.
  - intros wx Hfx Hdx Hflx Hgx. unfold getGlobalCache. rewrite Hgx. cbn.
    rewrite Hdir. eexists. split; [reflexivity | now repeat split].
  - apply (cache_holds_same_fs w1); [reflexivity | reflexivity | exact Hholds].
  - unfold passes_validation in *.
    destruct (optimizeFont_validate options w1) as [res wv] eqn:Hval. cbn in Hpass. subst res.
    destruct (optimizeFont_validate_Ok_inv _ _ _ Hval) as (Hd & _ & _).
    destruct (optimizeFont_validate_transfer options w1 wv w1' Hf1 Hf1 Hval eq_refl Hd)
      as (evs & _ & Hval'). now rewrite Hval'.
  - exists r2, w2. split; [| now repeat split].
    unfold disableCache, bind, modify. exact Hrun2.
Qed.

End AfterFirstCall.

End Instance.

(** ** utils/file.ts: directories and buffers *)

Section Files.
Context {P : Platform}.

(** [mkdir] with [recursive] towards a regular file: the ancestors are
    made, then the call fails with [EEXIST]. *)
Lemma mkdir_p_onto_file todo : ∀ w done s,
  (∀ q, q `prefix_of` (done ++ todo) → (length done < length q)%nat → is_file w q = false) →
  is_file w (done ++ todo ++ [s]) = true →
  ∃ w', mkdir_p w done (todo ++ [s])
          = (Throw (SystemError "EEXIST" "mkdir" (done ++ todo ++ [s])), w')
        ∧ files w' = files w ∧ clock w' = clock w ∧ faults w' = faults w
        ∧ globalCache w' = globalCache w ∧ trace w' = trace w
        ∧ is_file w' (done ++ todo ++ [s]) = true
        ∧ (∀ q, is_file w q = false → is_file w' q = false)
        ∧ (∀ q, is_dir w' q = true → is_dir w q = true ∨ q `prefix_of` (done ++ todo)).
Proof.
  induction todo as [|t rest IH]; intros w done s Hno Hfile.
  - cbn [app mkdir_p]. cbn [app] in Hfile. rewrite Hfile. exists w.
    rewrite app_nil_r. repeat split; auto.
  - cbn [app mkdir_p]. cbn [app] in Hfile.
    assert (Hhere : is_file w (done ++ [t]) = false).
    { apply Hno; [exists rest; now rewrite <- app_assoc | rewrite length_app; cbn; lia]. }
    rewrite Hhere.
    destruct (IH (with_dirs ({[done ++ [t]]} ∪ dirs w) w) (done ++ [t]) s)
      as (w' & Hrun & Hf & Hc & Hfl & Hg & Ht & Hfile' & Hkeep & Hdir).
    + intros q Hq Hl. apply is_file_with_dirs_false. apply Hno.
      * now rewrite <- app_assoc in Hq.
      * rewrite length_app in Hl. cbn in Hl. lia.
    + rewrite <- app_assoc. cbn [app]. now apply is_file_add_dir.
    + rewrite <- app_assoc in Hrun, Hfile'. cbn [app] in Hrun, Hfile'.
      exists w'. split; [exact Hrun |]. repeat split; try assumption.
      * intros q Hq. now apply Hkeep, is_file_with_dirs_false.
      * intros q Hq. apply Hdir in Hq. rewrite is_dir_with_dirs in Hq.
        rewrite <- app_assoc in Hq. cbn [app] in Hq.
        destruct Hq as [Hq|Hq]; [| now right].
        apply orb_true_iff in Hq as [Hq|Hq]; [now left |].
        apply bool_decide_eq_true in Hq. subst q. right.
        exists rest. now rewrite <- app_assoc.
Qed.

(** [ensureDir] of a path where a regular file stands returns normally:
    the [EEXIST] of [mkdir] is taken for "the directory is there". *)
Lemma ensureDir_onto_file p w :
  faults w = [] → is_file w p = true →
  (∀ q, q `prefix_of` p → q ≠ p → is_file w q = false) →
  ∃ w', ensureDir p w = (Ok tt, w')
        ∧ files w' = files w ∧ clock w' = clock w ∧ faults w' = []
        ∧ globalCache w' = globalCache w
        ∧ trace w' = trace w ++ [EvFs "mkdir" p false]
        ∧ is_file w' p = true
        ∧ (∀ q, is_file w q = false → is_file w' q = false)
        ∧ (∀ q, is_dir w' q = true → is_dir w q = true ∨ (q `prefix_of` p ∧ q ≠ p)).
Proof.
  intros Hf Hfile Hno.
  assert (Hne : p ≠ []) by (intros ->; discriminate).
  pose proof (app_removelast_last EmptyString Hne) as Hp.
  set (dir := removelast p) in *. set (s := List.last p EmptyString) in *.
  assert (Hstrict : ∀ q, q `prefix_of` dir → q `prefix_of` p ∧ q ≠ p).
  { intros q Hq. split.
    - rewrite Hp. now apply prefix_app_r.
    - intros ->. apply prefix_length in Hq. rewrite Hp in Hq at 1.
      rewrite length_app in Hq. cbn in Hq. lia. }
  destruct (mkdir_p_onto_file dir w [] s)
    as (w1 & Hrun & H1 & H2 & H3 & H4 & H5 & H6 & H7 & H8).
  { intros q Hq _. cbn [app] in Hq. now apply Hno; apply Hstrict. }
  { cbn [app]. now rewrite <- Hp. }
  cbn [app] in Hrun, H6, H8. rewrite <- Hp in Hrun, H6.
  exists (emit (EvFs "mkdir" p false) w1). split.
  - unfold ensureDir. erewrite try_catch_throw.
    2:{ unfold fs_mkdir_recursive. rewrite fs_call_run by exact Hf.
        rewrite Hrun. reflexivity. }
    reflexivity.
  - cbn. repeat split; try congruence; try assumption.
    intros q Hq. destruct (H8 q Hq) as [H|H]; [now left | right; now apply Hstrict].
Qed.

(** X17.  A regular file where a directory is wanted is not noticed by
    [ensureDir]: the call returns normally and the file stays; the failure
    comes from the write under it, as [ENOTDIR], and no file is written. *)
Theorem ensureDir_accepts_a_regular_file p name data w :
  faults w = [] → is_file w p = true →
  (∀ q, q `prefix_of` p → q ≠ p → is_file w q = false) →
  is_dir w (path_join p name) = false →
  ∃ w1 w2,
    ensureDir p w = (Ok tt, w1)
    ∧ is_file w1 p = true
    ∧ writeFileBuffer (path_join p name) data w1
      = (Throw (SystemError "ENOTDIR" "open" (path_join p name)), w2)
    ∧ files w2 = files w.
Proof.
  intros Hf Hfile Hno Hnd.
  destruct (ensureDir_onto_file p w Hf Hfile Hno)
    as (w1 & Hrun & H1 & H2 & H3 & H4 & H5 & H6 & H7 & H8).
  destruct (ensureDir_onto_file p w1 H3 H6)
    as (w1' & Hrun' & H1' & H2' & H3' & H4' & H5' & H6' & H7' & H8').
  { intros q Hq Hne. now apply H7, Hno. }
  assert (Hnd' : is_dir w1' (path_join p name) = false).
  { destruct (is_dir w1' (path_join p name)) eqn:E; [| reflexivity].
    apply H8' in E as [E|[E _]]; [| now apply join_not_prefix in E].
    apply H8 in E as [E|[E _]]; [congruence | now apply join_not_prefix in E]. }
  exists w1. eexists. split; [exact Hrun |]. split; [exact H6 |]. split.
  - unfold writeFileBuffer. rewrite path_dirname_join.
    erewrite bind_run by exact Hrun'.
    unfold fs_writeFile. rewrite fs_call_run by exact H3'.
    rewrite Hnd', path_dirname_join.
    apply is_file_inv in H6' as Hd. destruct Hd as [Hd _]. rewrite Hd, H6'. reflexivity.
  - cbn. congruence.
Qed.

Lemma prefix_dirname_self (p : path) : p `prefix_of` path_dirname p → p = [].
Proof.
  intros H. destruct (decide (p = [])) as [|Hne]; [assumption |].
  apply prefix_length in H. unfold path_dirname in H.
  pose proof (app_removelast_last EmptyString Hne) as Hp.
  rewrite Hp in H at 1. rewrite length_app in H. cbn in H. lia.
Qed.

(** X18.  What [writeFileBuffer] writes, [readFileBuffer] reads back: the
    missing directories on the way are made, and no other file changes. *)
Theorem writeFileBuffer_then_readFileBuffer p data w :
  faults w = [] → is_dir w p = false → no_file_on w (path_dirname p) →
  ∃ w1 w2,
    writeFileBuffer p data w = (Ok tt, w1)
    ∧ readFileBuffer p w1 = (Ok data, w2)
    ∧ (∀ q, q ≠ p → files w2 !! q = files w !! q)
    ∧ (∀ q, q `prefix_of` path_dirname p → is_dir w2 q = true)
    ∧ (∀ q, is_dir w q = true → is_dir w2 q = true).
Proof.
  intros Hf Hnd Hno.
  destruct (writeFileBuffer_run p data w Hf Hnd Hno)
    as (w1 & Hrun & H1 & H2 & H3 & H4 & H5 & H6).
  assert (Hnd1 : is_dir w1 p = false).
  { destruct (is_dir w1 p) eqn:E; [| reflexivity].
    apply H6 in E as [E|[E Hne]]; [congruence |].
    now apply prefix_dirname_self in E. }
  exists w1, (emit (EvFs "readFile" p true) w1). split; [exact Hrun |]. split.
  - unfold readFileBuffer. apply fs_readFile_run; [exact H3 | exact Hnd1 |].
    rewrite H1. apply lookup_insert_eq.
  - split; [| split].
    + intros q Hq. cbn [files emit]. rewrite H1. now apply lookup_insert_ne.
    + intros q Hq. change (is_dir w1 q = true). apply H6.
      destruct (decide (q = [])) as [->|Hne]; [now left | now right].
    + intros q Hq. change (is_dir w1 q = true). apply H6. now left.
Qed.

End Files.

(** ** utils/file.ts: the two texts of a size *)

Section Sizes.
Context {P : Platform}.

(** X19.  A file that got larger is reported with a negative percentage,
    and with [-Infinity] when the original size is zero. *)
Theorem calculateReduction_of_growth original optimized :
  0 ≤ original < optimized →
  String.prefix "-" (calculateReduction original optimized) = true
  ∧ (original = 0 → calculateReduction original optimized = "-Infinity").
Proof.
  intros [H0 Hlt].
  destruct optimized as [|q|q]; try lia.
  destruct original as [|p|p]; try lia.
  - split; reflexivity.
  - split; [| discriminate].
    unfold calculateReduction, num_sub, num_neg, num_add, num_of_Z, num_div.
    change (Qsign (inject_Z (Z.pos p))) with Gt. cbv iota.
    unfold num_mul, toFixed, toFixed_digits.
    assert (Hs : Qsign ((inject_Z (Z.pos p) + - inject_Z (Z.pos q)) / inject_Z (Z.pos p)
                        * inject_Z 100) = Lt).
    { unfold Qsign. apply Z.compare_lt_iff. cbn. lia. }
    rewrite Hs. apply string_prefix_spec. eexists. reflexivity.
Qed.

(** X20.  [formatFileSize] has a unit for the sizes below 1024^4 only:
    from there on, and for a negative number, the place of the unit
    holds [undefined]. *)
Theorem formatFileSize_unit bytes :
  (0 ≤ bytes < 1024 ^ 4 →
   ∃ value unit, unit ∈ sizes ∧ formatFileSize bytes = value +:+ " " +:+ unit)
  ∧ (bytes < 0 ∨ 1024 ^ 4 ≤ bytes →
     ∃ value, formatFileSize bytes = value +:+ " undefined").
Proof.
  unfold formatFileSize. split.
  - intros [H0 H4]. destruct (bytes =? 0) eqn:E0.
    { exists "0", "B". split; [apply list_elem_of_here | reflexivity]. }
    apply Z.eqb_neq in E0. rewrite (proj2 (Z.ltb_ge bytes 0)) by exact H0.
    cbv zeta.
    assert (Hlog : 0 ≤ Z.log2 bytes / 10 < 4).
    { split; [apply Z.div_pos; [apply Z.log2_nonneg | lia] |].
      apply Z.div_lt_upper_bound; [lia |].
      apply Z.log2_lt_pow2; [lia |]. change (2 ^ (10 * 4)) with (1024 ^ 4). exact H4. }
    destruct (sizes !! Z.to_nat (Z.log2 bytes / 10)) as [unit|] eqn:Hu.
    + eexists _, unit. split; [now apply list_elem_of_lookup_2 in Hu | reflexivity].
    + apply lookup_ge_None in Hu. cbn in Hu. lia.
  - intros [Hneg|Hbig].
    + rewrite (proj2 (Z.eqb_neq bytes 0)) by lia.
      rewrite (proj2 (Z.ltb_lt bytes 0)) by exact Hneg.
      exists "NaN". reflexivity.
    + assert (0 < bytes) by (pose proof (Z.pow_pos_nonneg 1024 4); lia).
      rewrite (proj2 (Z.eqb_neq bytes 0)) by lia.
      rewrite (proj2 (Z.ltb_ge bytes 0)) by lia. cbv zeta.
      assert (Hlog : 4 ≤ Z.log2 bytes / 10).
      { apply Z.div_le_lower_bound; [lia |].
        apply Z.log2_le_pow2; [lia |]. change (2 ^ (10 * 4)) with (1024 ^ 4). exact Hbig. }
      rewrite (proj2 (lookup_ge_None sizes (Z.to_nat (Z.log2 bytes / 10)))) by (cbn; lia).
      eexists. reflexivity.
Qed.

End Sizes.

(** ** utils/subsetConfig.ts *)

Section Subsets.
Context {P : Platform}.

Lemma getSubsetCharacters_from_acc subsets : ∀ acc,
  getSubsetCharacters_from acc subsets
  = match getSubsetCharacters_from [] subsets with
    | Ok characters => Ok (acc ++ characters)
    | Throw e => Throw e
    end.
Proof.
  induction subsets as [|subset rest IH]; intros acc; cbn [getSubsetCharacters_from].
  - now rewrite app_nil_r.
  - destruct (SUBSET_CONFIGS_get subset) as [config| |]; [| reflexivity | apply IH].
    rewrite (IH (acc ++ _)), (IH ([] ++ _)).
    destruct (getSubsetCharacters_from [] rest); [| reflexivity].
    cbn [app]. now rewrite app_assoc.
Qed.

(** X21.  The characters of a list of subsets are those of its parts, one
    after the other: nothing is merged or dropped, so a name given twice
    gives its characters twice; the first part that fails decides; and a
    name that is not known adds nothing. *)
Theorem getSubsetCharacters_app a b :
  getSubsetCharacters (a ++ b)
  = match getSubsetCharacters a, getSubsetCharacters b with
    | Ok ca, Ok cb => Ok (ca ++ cb)
    | Ok _, Throw e => Throw e
    | Throw e, _ => Throw e
    end
  ∧ ∀ subset, SUBSET_CONFIGS_get subset = Undefined →
      getSubsetCharacters (a ++ subset :: b) = getSubsetCharacters (a ++ b).
Proof.
  unfold getSubsetCharacters.
  assert (Happ : ∀ a b acc,
    getSubsetCharacters_from acc (a ++ b)
    = match getSubsetCharacters_from acc a with
      | Ok ca => getSubsetCharacters_from ca b
      | Throw e => Throw e
      end).
  { clear. induction a as [|subset rest IH]; intros b acc; cbn [app getSubsetCharacters_from].
    - reflexivity.
    - destruct (SUBSET_CONFIGS_get subset); [apply IH | reflexivity | apply IH]. }
  split.
  - rewrite Happ. destruct (getSubsetCharacters_from [] a) as [ca|e]; [| reflexivity].
    rewrite getSubsetCharacters_from_acc.
    destruct (getSubsetCharacters_from [] b); reflexivity.
  - intros subset Hu. rewrite !Happ.
    destruct (getSubsetCharacters_from [] a) as [ca|e]; [| reflexivity].
    cbn [getSubsetCharacters_from]. now rewrite Hu.
Qed.

End Subsets.

(** ** optimizer.ts: the batch *)

Section Batch.
Context {P : Platform}.

Section QuietKeeps.
Context {R : World → World → Prop} `{!Stable R}.

Hypothesis quiet_permitted : ∀ ev, is_error_log ev = false → permits R ev.
Hypothesis mkdir_allowed : allows_mkdir R.
Hypothesis write_allowed : ∀ p, allows_write R p.
Hypothesis unlink_allowed : ∀ p, allows_unlink R p.
Hypothesis instance_allowed : allows_instance R.

Ltac quiet_event := intros; apply quiet_permitted; reflexivity.

Lemma keeps_validate_quiet options : keeps R (optimizeFont_validate options).
Proof.
  apply keeps_try_catch.
  2:{ intros e. destruct (is_validation_error e); apply keeps_throw. }
  apply keeps_bind.
  - unfold validateOptimizationOptions.
    case_bool_decide; [apply keeps_throw |].
    apply keeps_bind.
    { unfold fs_existsSync. apply keeps_fileExists. quiet_event. }
    intros found. destruct (negb found); [apply keeps_throw |].
    cbv zeta. destruct (negb (includes SUPPORTED_FORMATS _)); [apply keeps_throw |].
    apply keeps_bind; [apply keeps_fs_stat; quiet_event |].
    intros stats. destruct (negb (st_isFile stats)); [apply keeps_throw |].
    destruct (st_size stats =? 0); [apply keeps_throw |].
    apply keeps_bind; [| intros; apply keeps_validateOptimizationOptions_fields].
    destruct (st_size stats >? MAX_RECOMMENDED_SIZE); [| apply keeps_ret].
    apply keeps_console. quiet_event.
  - intros _. unfold validateFontFile.
    apply keeps_bind; [apply keeps_fs_readFile; quiet_event |].
    intros buffer. cbv zeta.
    repeat match goal with
           | |- keeps R (if ?b then _ else _) => destruct b
           end; first [apply keeps_throw | apply keeps_ret].
Qed.

Lemma keeps_getFontMetadata_quiet filePath : keeps R (getFontMetadata filePath).
Proof.
  apply keeps_bind; [apply keeps_fs_stat; quiet_event |].
  intros; apply keeps_ret.
Qed.

Lemma keeps_FontCache_set_quiet this inputPath r : keeps R (FontCache_set this inputPath r).
Proof.
  apply keeps_try_catch.
  2:{ intros e. apply keeps_console. quiet_event. }
  apply keeps_bind; [apply keeps_emit; quiet_event |]. intros _.
  apply keeps_bind; [apply keeps_ensureDir; [quiet_event | exact mkdir_allowed] |].
  intros _. apply keeps_bind; [apply keeps_getFileHash; quiet_event |].
  intros h. apply keeps_bind; [apply keeps_gets |]. intros now.
  apply keeps_fs_writeFile; [quiet_event | apply write_allowed].
Qed.

Lemma keeps_optimizeFont_miss_quiet options : keeps R (optimizeFont_miss options).
Proof.
  unfold optimizeFont_miss.
  apply keeps_try_catch.
  2:{ intros e. destruct (is_FontOptimizationError e); apply keeps_throw. }
  apply keeps_bind; [apply keeps_getFontMetadata_quiet |]. intros meta. cbv zeta.
  apply keeps_bind; [apply keeps_fs_readFile; quiet_event |]. intros buffer.
  destruct (Nat.eqb (String.length buffer) 0); [apply keeps_throw |].
  apply keeps_bind; [apply keeps_lift |]. intros chars.
  destruct (Nat.eqb (length chars) 0); [apply keeps_throw |].
  apply keeps_bind.
  { apply keeps_try_catch; [| intros e; apply keeps_throw].
    apply keeps_bind; [apply keeps_emit; quiet_event |]. intros _.
    match goal with |- keeps R (match ?x with _ => _ end) => destruct x end;
      [apply keeps_ret | apply keeps_throw]. }
  intros sb. destruct (Nat.eqb (String.length sb) 0); [apply keeps_throw |].
  apply keeps_bind.
  { apply keeps_writeFileBuffer;
      [quiet_event | exact mkdir_allowed | quiet_event | apply write_allowed]. }
  intros _.
  apply keeps_bind; [apply keeps_getFontMetadata_quiet |]. intros ometa.
  apply keeps_bind; [| intros; apply keeps_ret].
  destruct (default true (cache options)); [| apply keeps_ret].
  apply keeps_bind; [now apply keeps_getGlobalCache |]. intros this.
  apply keeps_FontCache_set_quiet.
Qed.

Lemma keeps_optimizeFont_quiet options : keeps R (optimizeFont options).
Proof.
  unfold optimizeFont.
  apply keeps_bind; [apply keeps_validate_quiet |]. intros _.
  apply keeps_bind.
  { apply keeps_optimizeFont_lookup; [| exact instance_allowed | intros; apply unlink_allowed].
    intros ev Hev. apply quiet_permitted. destruct ev; try reflexivity; discriminate. }
  intros [cached|]; [apply keeps_ret | apply keeps_optimizeFont_miss_quiet].
Qed.

End QuietKeeps.

Lemma error_logs_app e1 e2 : error_logs (e1 ++ e2) = (error_logs e1 + error_logs e2)%nat.
Proof. unfold error_logs. now rewrite filter_app, length_app. Qed.

Lemma error_logs_none evs : Forall not_error_log evs → error_logs evs = 0%nat.
Proof.
  unfold error_logs. induction 1 as [|ev evs Hev _ IH]; [reflexivity |].
  rewrite filter_cons. unfold not_error_log in Hev. rewrite decide_False by congruence. exact IH.
Qed.

(** [optimizeFont] writes nothing with [console.error]. *)
Lemma optimizeFont_no_error_log options w :
  only not_error_log w (snd (optimizeFont options w)).
Proof.
  apply (keeps_optimizeFont_quiet (R := only not_error_log)).
  - intros ev Hev. now apply only_permits.
  - apply only_allows_mkdir.
  - intros. apply only_allows_write.
  - intros. apply only_allows_unlink.
  - apply only_allows_instance.
Qed.

Lemma optimizeFonts_loop outputDir options inputPaths : ∀ acc w,
  ∃ results w' evs,
    for_of inputPaths (optimizeFonts_step outputDir options) acc w = (Ok results, w')
    ∧ trace w' = trace w ++ evs
    ∧ (length results + error_logs evs = length acc + length inputPaths)%nat.
Proof.
  induction inputPaths as [|inputPath rest IH]; intros acc w.
  - exists acc, w, []. cbn. rewrite app_nil_r. repeat split; lia.
  - cbn [for_of].
    pose proof (optimizeFont_no_error_log (spread_options inputPath outputDir options) w)
      as (evs1 & Ht1 & Hq1).
    destruct (optimizeFont (spread_options inputPath outputDir options) w)
      as [[r|e] w1] eqn:Hrun; cbn [snd] in Ht1.
    + destruct (IH (acc ++ [r]) w1) as (results & w' & evs & Hloop & Ht & Hn).
      exists results, w', (evs1 ++ evs). split; [| split].
      * erewrite bind_run; [exact Hloop |].
        unfold optimizeFonts_step. apply try_catch_run.
        now erewrite bind_run by exact Hrun.
      * rewrite Ht, Ht1. now rewrite app_assoc.
      * rewrite error_logs_app, (error_logs_none evs1 Hq1).
        rewrite length_app in Hn. cbn [length] in *. lia.
    + set (log := EvConsole "error"
                    ("Error optimizing " +:+ path_str inputPath +:+ ": " +:+ exn_message e)).
      destruct (IH acc (emit log w1)) as (results & w' & evs & Hloop & Ht & Hn).
      exists results, w', (evs1 ++ log :: evs). split; [| split].
      * erewrite bind_run; [exact Hloop |].
        unfold optimizeFonts_step. erewrite try_catch_throw.
        2:{ now erewrite bind_throw by exact Hrun. }
        reflexivity.
      * rewrite Ht. cbn [trace emit]. rewrite Ht1, <- !app_assoc. reflexivity.
      * rewrite error_logs_app, (error_logs_none evs1 Hq1).
        change (log :: evs) with ([log] ++ evs). rewrite error_logs_app.
        change (error_logs [log]) with 1%nat. cbn [length] in *. lia.
Qed.

(** X22.  [optimizeFonts] never fails, whatever the files and the faults
    of the file system: every input gives one result or one line of
    [console.error], and the batch goes on after a failure. *)
Theorem optimizeFonts_reports_every_input inputPaths outputDir options w :
  ∃ results w' evs,
    optimizeFonts inputPaths outputDir options w = (Ok results, w')
    ∧ trace w' = trace w ++ evs
    ∧ (length results + error_logs evs = length inputPaths)%nat.
Proof.
  destruct (optimizeFonts_loop outputDir options inputPaths [] w)
    as (results & w' & evs & Hrun & Ht & Hn).
  now exists results, w', evs.
Qed.

End Batch.

(** ** optimizer.ts: the result of a run without the cache *)

Section Uncached.
Context {P : Platform}.

Lemma endsWith_app (a b : string) : endsWith (a +:+ b) b = true.
Proof.
  unfold endsWith. induction a as [|c a IH].
  - change (EmptyString +:+ b) with b. destruct b as [|d b]; [reflexivity |].
    cbn [drop_suffix]. now rewrite String.eqb_refl.
  - rewrite string_app_cons. cbn [drop_suffix].
    destruct (String.eqb (String c (a +:+ b)) b); [reflexivity |].
    destruct (drop_suffix (a +:+ b) b); [reflexivity | discriminate].
Qed.

Lemma getFontMetadata_Ok_stat filePath w meta w' :
  getFontMetadata filePath w = (Ok meta, w') →
  ∃ stats,
    fs_stat filePath w = (Ok stats, w')
    ∧ meta = mkFontFileMetadata filePath (path_basename filePath) (path_extname filePath)
               (st_size stats) (formatFileSize (st_size stats)).
Proof.
  unfold getFontMetadata. intros H.
  apply bind_Ok_inv in H as (stats & w1 & Hstat & H).
  inversion H; subst. eauto.
Qed.

Lemma fs_writeFile_Ok_file p data w w' :
  fs_writeFile p data w = (Ok tt, w') →
  is_dir w' p = false ∧ files w' !! p = Some data.
Proof.
  intros H. pose proof (fs_writeFile_Ok _ _ _ _ H) as (Hf & Hd).
  split; [| rewrite Hf; apply lookup_insert_eq].
  apply fs_call_Ok in H as (_ & w2 & Hsem & ->).
  destruct (is_dir (pop_fault w) p) eqn:E; [discriminate |].
  rewrite (same_fs_is_dir _ _ _ (same_fs_pop w)) in E.
  unfold is_dir in *. now rewrite Hd.
Qed.

(** What a run of the second block of [optimizeFont] that succeeds has
    made, before the entry of the cache is written. *)
Lemma optimizeFont_miss_result options w r w' :
  optimizeFont_miss options w = (Ok r, w') →
  ∃ w5 data,
    fm_path (original r) = inputPath options
    ∧ fontWeight r = default 400 (o_fontWeight options)
    ∧ path_dirname (fm_path (optimized r)) = outputDir options
    ∧ fm_name (optimized r) = path_basename (fm_path (optimized r))
    ∧ endsWith (fm_name (optimized r)) ("." +:+ default "woff2" (format options)) = true
    ∧ is_dir w5 (fm_path (optimized r)) = false
    ∧ files w5 !! fm_path (optimized r) = Some data
    ∧ fm_size (optimized r) = Z.of_nat (String.length data)
    ∧ data ≠ EmptyString
    ∧ globalCache w5 = globalCache w
    ∧ (default true (cache options) = false → w' = w5).
Proof.
  unfold optimizeFont_miss, try_catch.
  match goal with |- context [match ?body w with _ => _ end] =>
    destruct (body w) as [[r0|e] w0] eqn:Hbody end.
  2:{ destruct (is_FontOptimizationError e); discriminate. }
  intros H. inversion H; subst r0 w0. clear H.
  cbv zeta in Hbody.
  apply bind_Ok_inv in Hbody as (meta & w1 & Hmeta & Hbody).
  apply bind_Ok_inv in Hbody as (buffer & w2 & Hread & Hbody).
  destruct (Nat.eqb (String.length buffer) 0); [discriminate |].
  apply bind_Ok_inv in Hbody as (chars & w2' & Hlift & Hbody).
  unfold lift in Hlift. inversion Hlift; subst w2'. clear Hlift.
  destruct (Nat.eqb (length chars) 0); [discriminate |].
  apply bind_Ok_inv in Hbody as (sb & w3 & Heng & Hbody).
  unfold try_catch in Heng.
  match type of Heng with context [call_subsetFont ?b ?t ?f w2] =>
    destruct (call_subsetFont b t f w2) as [[sb'|e] w3'] eqn:Hcall end; [| discriminate].
  inversion Heng; subst sb' w3'. clear Heng.
  unfold call_subsetFont, bind, modify in Hcall.
  match type of Hcall with context [subsetFont ?b ?t ?f] =>
    destruct (subsetFont b t f) as [sb'|msg]; [| discriminate];
    set (ev := EvSubset b t f) in * end.
  inversion Hcall; subst sb' w3. clear Hcall.
  destruct (Nat.eqb (String.length sb) 0) eqn:Hlen; [discriminate |].
  apply bind_Ok_inv in Hbody as ([] & w4 & Hwrite & Hbody).
  apply bind_Ok_inv in Hbody as (ometa & w5 & Hometa & Hbody).
  apply bind_Ok_inv in Hbody as ([] & w6 & Hcache & Hbody).
  inversion Hbody; subst r w6. clear Hbody. cbn [original optimized fontWeight].
  assert (K1 : same_instance w w1).
  { apply getFontMetadata_Ok in Hmeta as (_ & Hs). apply Hs. }
  assert (K2 : same_instance w1 w2).
  { apply fs_readFile_Ok in Hread as (_ & _ & Hs & _). apply Hs. }
  assert (K4 : same_instance (emit ev w2) w4).
  { eapply keeps_run; [| exact Hwrite]. apply keeps_writeFileBuffer.
    - intros; apply same_instance_permits.
    - apply same_instance_allows_mkdir.
    - intros; apply same_instance_permits.
    - apply same_instance_allows_write. }
  apply getFontMetadata_Ok in Hmeta as (Hpath & _).
  apply getFontMetadata_Ok_stat in Hometa as (stats & Hstat & ->).
  cbn [fm_path fm_name fm_size].
  unfold writeFileBuffer in Hwrite.
  apply bind_Ok_inv in Hwrite as ([] & w3' & _ & Hwrite).
  apply fs_writeFile_Ok_file in Hwrite as (Hnd & Hdata).
  pose proof (fs_stat_Ok _ _ _ _ Hstat) as (Hs5 & _).
  assert (Hsize : st_size stats = Z.of_nat (String.length sb)).
  { apply fs_call_Ok in Hstat as (_ & wx & Hsem & _).
    rewrite (same_fs_is_dir _ _ _ (same_fs_pop w4)), Hnd in Hsem.
    rewrite (same_fs_files _ _ _ (same_fs_pop w4)), Hdata in Hsem.
    now inversion Hsem. }
  exists w5, sb.
  split; [exact Hpath |]. split; [reflexivity |].
  split; [apply path_dirname_join |].
  split; [now rewrite path_basename_join |].
  split.
  { rewrite path_basename_join.
    destruct (default true (useHash options)).
    - unfold generateOptimizedFilename. cbv zeta.
      generalize ("." +:+ default "woff2" (format options)). intros ext.
      rewrite <- !string_app_assoc. apply endsWith_app.
    - apply endsWith_app. }
  split; [now rewrite (same_fs_is_dir _ _ _ Hs5) |].
  split; [now rewrite (same_fs_files _ _ _ Hs5) |].
  split; [exact Hsize |].
  split; [intros ->; discriminate |].
  split.
  { destruct Hs5 as (_ & _ & _ & Hg5). unfold same_instance in *. cbn in K4. congruence. }
  intros Hc. rewrite Hc in Hcache. now inversion Hcache.
Qed.

(** X23.  With the cache switched off, the result of a call that succeeds
    is the one of this request: the weight is the requested one (400 when
    none is given), the artifact lies in the output directory under a name
    that ends with the requested format (woff2 when none is given), it is
    a regular file whose bytes are the non-empty artifact measured in the
    result, the engine ran once, and the cache instance is untouched. *)
Theorem optimizeFont_uncached_result options w r w' :
  cache options = Some false →
  optimizeFont options w = (Ok r, w') →
  fm_path (original r) = inputPath options
  ∧ fontWeight r = default 400 (o_fontWeight options)
  ∧ path_dirname (fm_path (optimized r)) = outputDir options
  ∧ endsWith (path_basename (fm_path (optimized r)))
      ("." +:+ default "woff2" (format options)) = true
  ∧ is_file w' (fm_path (optimized r)) = true
  ∧ (∃ data, files w' !! fm_path (optimized r) = Some data
             ∧ fm_size (optimized r) = Z.of_nat (String.length data)
             ∧ 0 < fm_size (optimized r))
  ∧ engine_calls (trace w') = S (engine_calls (trace w))
  ∧ globalCache w' = globalCache w.
Proof.
  intros Hc Hrun. unfold optimizeFont in Hrun.
  apply bind_Ok_inv in Hrun as ([] & w1 & Hval & Hrun).
  unfold optimizeFont_lookup in Hrun. rewrite Hc in Hrun. cbn [default] in Hrun.
  change ((let* cached := ret None in
           match cached with
           | Some cached => ret cached
           | None => optimizeFont_miss options
           end) w1) with (optimizeFont_miss options w1) in Hrun.
  pose proof (optimizeFont_miss_Ok_inv _ _ _ _ Hrun) as (w5' & _ & Heng & _ & Hw5').
  rewrite Hc in Hw5'. change (default true (Some false)) with false in Hw5'.
  cbv iota in Hw5'. subst w5'.
  apply optimizeFont_miss_result in Hrun
    as (w5 & data & H1 & H2 & H3 & H4 & H5 & H6 & H7 & H8 & H9 & H10 & H11).
  rewrite Hc in H11. specialize (H11 eq_refl). subst w5.
  assert (Kv : only not_engine w w1).
  { eapply keeps_run; [| exact Hval]. apply keeps_validate. apply not_engine_permits. }
  assert (Kg : same_instance w w1).
  { eapply keeps_run; [| exact Hval]. apply keeps_optimizeFont_validate.
    intros; apply same_instance_permits. }
  split; [exact H1 |]. split; [exact H2 |]. split; [exact H3 |].
  split; [now rewrite <- H4 |].
  split; [unfold is_file; now rewrite H6, H7 |].
  split.
  { exists data. split; [exact H7 |]. split; [exact H8 |].
    rewrite H8. destruct data; [congruence | cbn; lia]. }
  split; [now rewrite Heng, (engine_calls_only _ _ Kv) |].
  unfold same_instance in *. congruence.
Qed.

End Uncached.

(** ** The statements on concrete worlds *)

Lemma no_file_onb_spec w p : no_file_onb w p = true → no_file_on w p.
Proof.
  unfold no_file_onb. intros H q [k ->].
  rewrite forallb_forall in H. specialize (H (length q)).
  rewrite take_app_length in H. apply negb_true_iff, H.
  apply in_seq. rewrite length_app. lia.
Qed.

Lemma cache_usableb_spec `{Platform} w inputPath :
  cache_usableb w inputPath = true → cache_usable w inputPath.
Proof.
  unfold cache_usableb. intros Hb this Hg. rewrite Hg in Hb.
  apply andb_true_iff in Hb as [H1 H2]. split.
  - now apply no_file_onb_spec.
  - now apply negb_true_iff.
Qed.

Lemma bits_pos_bits p : Toy.bits_pos (Toy.pos_bits p) = Some p.
Proof. induction p as [p IH|p IH|]; cbn; [now rewrite IH | now rewrite IH | reflexivity]. Qed.

Lemma Toy_JSON_roundtrip (e : CacheEntry) : Toy.parse (Toy.stringify e) = Some e.
Proof.
  unfold Toy.parse, Toy.stringify. rewrite bits_pos_bits, decode_encode.
  destruct e as [h ts v [a b c d f g i]]. reflexivity.
Qed.

(** From here on the code runs on the small platform. *)
#[local] Existing Instance Toy.platform.

(** A run is known by its outcome, its world being what the run leaves. *)
Lemma run_eq {A} (c : M A) w r : fst (c w) = r → c w = (r, snd (c w)).
Proof. destruct (c w) as [r' w']. cbn. now intros ->. Qed.

Lemma first_run : optimizeFont Toy.request Toy.world0 = (Ok Toy.result1, Toy.world1).
Proof.
  unfold Toy.world1. apply (run_eq (optimizeFont Toy.request) Toy.world0).
  vm_compute. reflexivity.
Qed.

(** *** C1: the bytes of the font changed after the first call *)

Lemma FontCache_get_drops_stale_entry_witness :
  ∃ w', FontCache_get Toy.store Toy.font Toy.stale_world = (Ok None, w')
        ∧ files w' = delete (cachePath_of Toy.store Toy.font) (files Toy.stale_world)
        ∧ dirs w' = dirs Toy.stale_world.
Proof.
  apply (FontCache_get_drops_stale_entry Toy.store Toy.font Toy.stale_world
           (Toy.stringify (cache_entry_of Toy.result1 (Toy.digest Toy.ttf_bytes) 1000))
           (cache_entry_of Toy.result1 (Toy.digest Toy.ttf_bytes) 1000)
           (Toy.ttf_bytes +:+ "modified")).
  - vm_compute; reflexivity.
  - vm_compute; reflexivity.
  - vm_compute; reflexivity.
  - vm_compute; reflexivity.
  - vm_compute; reflexivity.
  - vm_compute; reflexivity.
  - left. vm_compute. discriminate.
Defined.

(** *** C2: [set] then [get] *)

Lemma FontCache_set_get_roundtrip_witness :
  ∃ r' w2,
    FontCache_get Toy.store Toy.font
      (snd (FontCache_set Toy.store Toy.font Toy.result1 Toy.artifact_world))
    = (Ok (Some r'), w2)
    ∧ scalars r' = scalars Toy.result1.
Proof.
  apply (FontCache_set_get_roundtrip (P := Toy.platform) Toy_JSON_roundtrip Toy.store Toy.font Toy.result1
           Toy.artifact_world Toy.ttf_bytes).
  - reflexivity.
  - apply no_file_onb_spec. vm_compute; reflexivity.
  - vm_compute; reflexivity.
  - vm_compute; reflexivity.
  - vm_compute; reflexivity.
  - apply (run_eq (FontCache_set Toy.store Toy.font Toy.result1) Toy.artifact_world).
    vm_compute; reflexivity.
  - vm_compute; reflexivity.
  - vm_compute; reflexivity.
Defined.

(** *** C3: the same request twice *)

Lemma optimizeFont_twice_same_scalars_witness :
  ∃ r2 w2,
    optimizeFont Toy.request Toy.world1 = (Ok r2, w2)
    ∧ scalars r2 = scalars Toy.result1
    ∧ engine_calls (trace w2) = engine_calls (trace Toy.world1)
    ∧ (engine_calls (trace Toy.world1) ≤ S (engine_calls (trace Toy.world0)))%nat.
Proof.
  apply (optimizeFont_twice_same_scalars (P := Toy.platform) Toy_JSON_roundtrip Toy.request Toy.world0
           Toy.result1 Toy.world1).
  - reflexivity.
  - reflexivity.
  - exact first_run.
  - vm_compute; reflexivity.
  - apply cache_usableb_spec. vm_compute; reflexivity.
Defined.

(** *** C4: another selection for the same font *)


(** *** C6: a font of 0 bytes *)

Lemma optimizeFont_empty_file_is_invalid_font_witness :
  ∃ e w',
    optimizeFont Toy.request Toy.empty_world = (Throw e, w')
    ∧ e = InvalidFontError ("Font file is empty: " +:+ path_str Toy.font)
            Toy.font "File size is 0 bytes"
    ∧ exn_name e = "InvalidFontError"
    ∧ is_FontOptimizationError e = false
    ∧ same_fs Toy.empty_world w'
    ∧ trace w' = [EvFs "access" Toy.font true; EvFs "stat" Toy.font true].
Proof.
  apply (optimizeFont_empty_file_is_invalid_font Toy.request Toy.empty_world).
  - reflexivity.
  - vm_compute; reflexivity.
  - vm_compute; reflexivity.
  - vm_compute; reflexivity.
Defined.

(** *** C7: a weight of 1000 *)

Lemma optimizeFont_weight_out_of_range_witness :
  ∃ message w',
    optimizeFont Toy.heavy_request Toy.world0
    = (Throw (ValidationError message "fontWeight" (ANum 1000)), w')
    ∧ same_fs Toy.world0 w'
    ∧ trace w' = trace Toy.world0 ++ validation_reads Toy.font 26
    ∧ Forall (fun ev => is_cache_lookup ev = false ∧ is_engine_call ev = false
                        ∧ is_fs_write ev = false)
             (validation_reads Toy.font 26).
Proof.
  apply (optimizeFont_weight_out_of_range Toy.heavy_request Toy.world0 Toy.ttf_bytes 1000).
  - reflexivity.
  - vm_compute; reflexivity.
  - vm_compute; reflexivity.
  - discriminate.
  - vm_compute; reflexivity.
  - discriminate.
  - vm_compute; reflexivity.
  - reflexivity.
  - right. lia.
Defined.

(** *** C8: no subset *)

Lemma optimizeFont_without_characters_witness :
  only quiet Toy.world0 (snd (optimizeFont Toy.request_no_subsets Toy.world0))
  ∧ no_new_file Toy.world0 (snd (optimizeFont Toy.request_no_subsets Toy.world0))
  ∧ (∀ r, fst (optimizeFont Toy.request_no_subsets Toy.world0) = Ok r →
          default true (cache Toy.request_no_subsets) = true
          ∧ ∃ this, cache_holds Toy.world0 this Toy.font (scalars r))
  ∧ (default true (cache Toy.request_no_subsets) = false →
     ∃ e, fst (optimizeFont Toy.request_no_subsets Toy.world0) = Throw e)
  ∧ (∀ subs, optimizeFont_validate (with_subsets subs Toy.request_no_subsets)
             = optimizeFont_validate Toy.request_no_subsets).
Proof.
  apply (optimizeFont_without_characters Toy.request_no_subsets Toy.world0).
  - vm_compute. exact I.
  - apply surjective_pairing.
Defined.

(** *** C9: [cleanOld] on a directory with an old entry *)


(** *** C10: the stylesheet of no font *)

Lemma generateOptimizedCSS_empty_reports_NaN_witness :
  ∃ w', generateOptimizedCSS [] ["out"; "fonts.css"] Toy.world0 = (Ok tt, w')
        ∧ files w' =
            <[ ["out"; "fonts.css"] :=
                 generateCSSFile [] ["Total fonts: 0"; "Average size reduction: NaN%"] ]>
              (files Toy.world0).
Proof.
  apply (proj2 (proj2 (proj2 generateOptimizedCSS_empty_reports_NaN))
           ["out"; "fonts.css"] Toy.world0).
  - reflexivity.
  - vm_compute; reflexivity.
  - apply no_file_onb_spec. vm_compute; reflexivity.
Defined.

(** *** C5: the operations on a world without the cache directory *)


(** *** What the code does against the letter of the specification *)


(** C8. A request with an empty list of subsets passes the validation,
    and when the cache holds an entry for its input path it is answered
    with the cached result instead of an error. *)
Lemma optimizeFont_no_subsets_answered_from_cache :
  subsets Toy.request_no_subsets = Some []
  ∧ getSubsetCharacters [] = Ok []
  ∧ fst (optimizeFont_validate Toy.request_no_subsets Toy.world1) = Ok tt
  ∧ fst (optimizeFont Toy.request_no_subsets Toy.world1) = Ok Toy.result1.
Proof.
  split; [reflexivity |].
  split; [reflexivity |].
  split; vm_compute; reflexivity.
Qed.


(** ** More statements on concrete worlds *)

(** *** X3: the font of the request is not on the shelf *)

Lemma optimizeFont_missing_input_witness :
  ∃ w',
    optimizeFont (Sample.request_for ["fonts"; "missing.ttf"]) Sample.shelf
    = (Throw (ValidationError
                ("Font file not found: "
                 +:+ path_str (inputPath (Sample.request_for ["fonts"; "missing.ttf"])))
                "inputPath" (APath (inputPath (Sample.request_for ["fonts"; "missing.ttf"])))),
       w')
    ∧ same_fs Sample.shelf w'
    ∧ trace w' = trace Sample.shelf
                 ++ [EvFs "access" (inputPath (Sample.request_for ["fonts"; "missing.ttf"])) false].
Proof.
  apply (optimizeFont_missing_input (Sample.request_for ["fonts"; "missing.ttf"]) Sample.shelf).
  - discriminate.
  - left. split; vm_compute; reflexivity.
Defined.

(** *** X4: a text in the directory of the fonts *)

Lemma optimizeFont_unsupported_input_format_witness :
  ∃ w',
    optimizeFont (Sample.request_for ["fonts"; "notes.txt"]) Sample.shelf
    = (Throw (UnsupportedFormatError
                ("Unsupported font format: "
                 +:+ toLowerCase (path_extname
                                    (inputPath (Sample.request_for ["fonts"; "notes.txt"]))))
                (toLowerCase (path_extname
                                (inputPath (Sample.request_for ["fonts"; "notes.txt"]))))
                SUPPORTED_FORMATS), w')
    ∧ same_fs Sample.shelf w'
    ∧ trace w' = trace Sample.shelf
                 ++ [EvFs "access" (inputPath (Sample.request_for ["fonts"; "notes.txt"])) true].
Proof.
  apply (optimizeFont_unsupported_input_format
           (Sample.request_for ["fonts"; "notes.txt"]) Sample.shelf).
  - reflexivity.
  - discriminate.
  - vm_compute; reflexivity.
  - vm_compute; reflexivity.
Defined.

(** *** X5: a directory named like a font *)

Lemma optimizeFont_directory_input_witness :
  ∃ w',
    optimizeFont (Sample.request_for ["fonts"; "old.ttf"]) Sample.shelf
    = (Throw (ValidationError
                ("Input path is not a file: "
                 +:+ path_str (inputPath (Sample.request_for ["fonts"; "old.ttf"])))
                "inputPath" (APath (inputPath (Sample.request_for ["fonts"; "old.ttf"])))), w')
    ∧ same_fs Sample.shelf w'
    ∧ trace w' = trace Sample.shelf
                 ++ [EvFs "access" (inputPath (Sample.request_for ["fonts"; "old.ttf"])) true;
                     EvFs "stat" (inputPath (Sample.request_for ["fonts"; "old.ttf"])) true].
Proof.
  apply (optimizeFont_directory_input (Sample.request_for ["fonts"; "old.ttf"]) Sample.shelf).
  - reflexivity.
  - discriminate.
  - vm_compute; reflexivity.
  - vm_compute; reflexivity.
Defined.

(** *** X6: the [stat] of the font meets a fault *)

Lemma optimizeFont_fault_in_validation_witness :
  ∃ w',
    optimizeFont Toy.request Sample.faulty_shelf
    = (Throw (FontOptimizationError
                ("Validation failed: "
                 +:+ exn_message (SystemError "EIO" "stat" (inputPath Toy.request)))
                (inputPath Toy.request)
                (Some (SystemError "EIO" "stat" (inputPath Toy.request)))), w')
    ∧ same_fs Sample.faulty_shelf w'
    ∧ faults w' = []
    ∧ trace w' = trace Sample.faulty_shelf
                 ++ [EvFs "access" (inputPath Toy.request) true;
                     EvFs "stat" (inputPath Toy.request) false].
Proof.
  apply (optimizeFont_fault_in_validation Toy.request Sample.faulty_shelf "EIO" []).
  - reflexivity.
  - discriminate.
  - vm_compute; reflexivity.
  - vm_compute; reflexivity.
Defined.

(** *** X7: two fonts with the same header *)

Lemma validateFontFile_reads_four_bytes_witness :
  fst (validateFontFile Toy.font Toy.world0)
  = fst (validateFontFile Toy.font Sample.other_world).
Proof.
  apply (validateFontFile_reads_four_bytes Toy.font Toy.world0 Sample.other_world
           Toy.ttf_bytes Sample.other_ttf).
  - reflexivity.
  - reflexivity.
  - vm_compute; reflexivity.
  - vm_compute; reflexivity.
  - vm_compute; reflexivity.
  - vm_compute; reflexivity.
  - vm_compute; reflexivity.
Defined.

(** *** X8: a font of two bytes *)

Lemma optimizeFont_truncated_font_witness :
  ∃ message reason w',
    optimizeFont (Sample.request_for ["fonts"; "tiny.otf"]) Sample.shelf
    = (Throw (InvalidFontError message
                (inputPath (Sample.request_for ["fonts"; "tiny.otf"])) reason), w')
    ∧ same_fs Sample.shelf w'
    ∧ trace w' = trace Sample.shelf
                 ++ [EvFs "access" (inputPath (Sample.request_for ["fonts"; "tiny.otf"])) true;
                     EvFs "stat" (inputPath (Sample.request_for ["fonts"; "tiny.otf"])) true;
                     EvFs "readFile" (inputPath (Sample.request_for ["fonts"; "tiny.otf"])) true].
Proof.
  apply (optimizeFont_truncated_font (Sample.request_for ["fonts"; "tiny.otf"]) Sample.shelf "OT").
  - reflexivity.
  - vm_compute; reflexivity.
  - vm_compute; reflexivity.
  - cbn. lia.
  - vm_compute; reflexivity.
  - vm_compute; reflexivity.
Defined.

(** *** X9: a regular file where the output directory is wanted *)

Lemma validateDirectory_accepts_witness :
  ∃ r w',
    validateDirectory ["out"] Sample.shelf = (r, w')
    ∧ same_fs Sample.shelf w'
    ∧ (r = Ok tt ↔ ["out"] ≠ [] ∧ is_file Sample.shelf ["out"] = false).
Proof.
  apply (validateDirectory_accepts ["out"] Sample.shelf). reflexivity.
Defined.

(** *** X10: the fonts of the shelf *)

Lemma getFontFiles_lists_the_fonts_witness :
  ∃ fontFiles w',
    getFontFiles ["fonts"] Sample.shelf = (Ok fontFiles, w')
    ∧ same_fs Sample.shelf w'
    ∧ NoDup fontFiles
    ∧ ∀ q, q ∈ fontFiles ↔
           path_dirname q = ["fonts"] ∧ q ≠ []
           ∧ is_file Sample.shelf q = true
           ∧ includes SUPPORTED_FORMATS (toLowerCase (path_extname q)) = true.
Proof.
  apply (getFontFiles_lists_the_fonts ["fonts"] Sample.shelf).
  - reflexivity.
  - vm_compute; reflexivity.
Defined.

(** *** X11: a directory that is not there *)

Lemma getFontFiles_without_directory_witness :
  ∃ e w',
    getFontFiles ["nowhere"] Sample.shelf = (Throw e, w')
    ∧ same_fs Sample.shelf w'
    ∧ e = (if is_file Sample.shelf ["nowhere"]
           then SystemError "ENOTDIR" "scandir" ["nowhere"]
           else PlainError ("Directory not found: " +:+ path_str ["nowhere"])).
Proof.
  apply (getFontFiles_without_directory ["nowhere"] Sample.shelf).
  - reflexivity.
  - vm_compute; reflexivity.
Defined.

(** *** X12: the entry of the first call is deleted *)

Lemma FontCache_delete_then_get_witness :
  ∃ w1 w2,
    FontCache_delete Toy.store Toy.font Toy.world1 = (Ok tt, w1)
    ∧ FontCache_get Toy.store Toy.font w1 = (Ok None, w2)
    ∧ is_file w1 (cachePath_of Toy.store Toy.font) = false
    ∧ (∀ q, q ≠ cachePath_of Toy.store Toy.font → files w1 !! q = files Toy.world1 !! q)
    ∧ dirs w1 = dirs Toy.world1.
Proof.
  apply (FontCache_delete_then_get Toy.store Toy.font Toy.world1).
  vm_compute; reflexivity.
Defined.

(** *** X13: the cache of the first call is cleared *)

Lemma FontCache_clear_empties_witness :
  ∃ w',
    FontCache_clear Toy.store Toy.world1 = (Ok tt, w')
    ∧ (∀ name, is_file w' (path_join Toy.store name) = false)
    ∧ (∀ q, child_name Toy.store q = None → files w' !! q = files Toy.world1 !! q)
    ∧ (∀ inputPath, ∃ w2, FontCache_get Toy.store inputPath w' = (Ok None, w2))
    ∧ (Toy.store ≠ [] → (∀ name, is_dir Toy.world1 (path_join Toy.store name) = false) →
       is_dir w' Toy.store = false).
Proof.
  apply (FontCache_clear_empties Toy.store Toy.world1).
  - vm_compute; reflexivity.
  - vm_compute; reflexivity.
Defined.

(** *** X15: the second request names no cache directory *)

Lemma optimizeFont_without_cacheDir_uses_instance_witness :
  ∃ this r2 w2,
    globalCache Toy.world1 = Some this
    ∧ (truthy_path (cacheDir Toy.request) = true → cacheDir Toy.request = Some this)
    ∧ optimizeFont Sample.request_default_dir Toy.world1 = (Ok r2, w2)
    ∧ scalars r2 = scalars Toy.result1
    ∧ engine_calls (trace w2) = engine_calls (trace Toy.world1)
    ∧ globalCache w2 = Some this.
Proof.
  apply (optimizeFont_without_cacheDir_uses_instance (P := Toy.platform) Toy_JSON_roundtrip
           Toy.request Sample.request_default_dir Toy.world0 Toy.result1 Toy.world1).
  - reflexivity.
  - reflexivity.
  - exact first_run.
  - vm_compute; reflexivity.
  - apply cache_usableb_spec. vm_compute; reflexivity.
  - reflexivity.
  - reflexivity.
  - reflexivity.
  - vm_compute; reflexivity.
Defined.

(** *** X16: [disableCache] between two calls *)

Lemma disableCache_keeps_entries_witness :
  ∃ r2 w2,
    (disableCache ;;; optimizeFont Toy.request) Toy.world1 = (Ok r2, w2)
    ∧ scalars r2 = scalars Toy.result1
    ∧ engine_calls (trace w2) = engine_calls (trace Toy.world1)
    ∧ files w2 = files Toy.world1.
Proof.
  apply (disableCache_keeps_entries (P := Toy.platform) Toy_JSON_roundtrip
           Toy.request Toy.world0 Toy.result1 Toy.world1).
  - reflexivity.
  - reflexivity.
  - reflexivity.
  - exact first_run.
  - vm_compute; reflexivity.
  - apply cache_usableb_spec. vm_compute; reflexivity.
Defined.

(** *** X17: the output directory is a regular file *)

Lemma ensureDir_accepts_a_regular_file_witness :
  ∃ w1 w2,
    ensureDir ["out"] Sample.shelf = (Ok tt, w1)
    ∧ is_file w1 ["out"] = true
    ∧ writeFileBuffer (path_join ["out"] "vazir.woff2") "subset" w1
      = (Throw (SystemError "ENOTDIR" "open" (path_join ["out"] "vazir.woff2")), w2)
    ∧ files w2 = files Sample.shelf.
Proof.
  apply (ensureDir_accepts_a_regular_file ["out"] "vazir.woff2" "subset" Sample.shelf).
  - reflexivity.
  - vm_compute; reflexivity.
  - intros q [k Hk] Hne. destruct q as [|s [|t q]].
    + vm_compute; reflexivity.
    + cbn in Hk. destruct k; [congruence | discriminate].
    + discriminate.
  - vm_compute; reflexivity.
Defined.

(** *** X18: a buffer written under a directory that is not there yet *)

Lemma writeFileBuffer_then_readFileBuffer_witness :
  ∃ w1 w2,
    writeFileBuffer ["dist"; "fonts"; "buffer-test.bin"] "1234" Sample.shelf = (Ok tt, w1)
    ∧ readFileBuffer ["dist"; "fonts"; "buffer-test.bin"] w1 = (Ok "1234", w2)
    ∧ (∀ q, q ≠ ["dist"; "fonts"; "buffer-test.bin"] → files w2 !! q = files Sample.shelf !! q)
    ∧ (∀ q, q `prefix_of` path_dirname ["dist"; "fonts"; "buffer-test.bin"] →
            is_dir w2 q = true)
    ∧ (∀ q, is_dir Sample.shelf q = true → is_dir w2 q = true).
Proof.
  apply (writeFileBuffer_then_readFileBuffer ["dist"; "fonts"; "buffer-test.bin"] "1234"
           Sample.shelf).
  - reflexivity.
  - vm_compute; reflexivity.
  - apply no_file_onb_spec. vm_compute; reflexivity.
Defined.

(** *** X19: a file of 100 bytes that became one of 150 *)

Lemma calculateReduction_of_growth_witness :
  String.prefix "-" (calculateReduction 100 150) = true
  ∧ (100 = 0 → calculateReduction 100 150 = "-Infinity").
Proof.
  apply (calculateReduction_of_growth 100 150). lia.
Defined.

(** *** X23: the first call with the cache switched off *)

Lemma optimizeFont_uncached_result_witness :
  fm_path (original Toy.result1) = inputPath Sample.request_uncached
  ∧ fontWeight Toy.result1 = default 400 (o_fontWeight Sample.request_uncached)
  ∧ path_dirname (fm_path (optimized Toy.result1)) = outputDir Sample.request_uncached
  ∧ endsWith (path_basename (fm_path (optimized Toy.result1)))
      ("." +:+ default "woff2" (format Sample.request_uncached)) = true
  ∧ is_file (snd (optimizeFont Sample.request_uncached Toy.world0))
      (fm_path (optimized Toy.result1)) = true
  ∧ (∃ data, files (snd (optimizeFont Sample.request_uncached Toy.world0))
               !! fm_path (optimized Toy.result1) = Some data
             ∧ fm_size (optimized Toy.result1) = Z.of_nat (String.length data)
             ∧ 0 < fm_size (optimized Toy.result1))
  ∧ engine_calls (trace (snd (optimizeFont Sample.request_uncached Toy.world0)))
    = S (engine_calls (trace Toy.world0))
  ∧ globalCache (snd (optimizeFont Sample.request_uncached Toy.world0))
    = globalCache Toy.world0.
Proof.
  apply (optimizeFont_uncached_result Sample.request_uncached Toy.world0 Toy.result1
           (snd (optimizeFont Sample.request_uncached Toy.world0))).
  - reflexivity.
  - apply (run_eq (optimizeFont Sample.request_uncached) Toy.world0).
    vm_compute; reflexivity.
Defined.
